(** * SVBRDF estimation: the local renderer and the dataset's view synthesis

    A shallow embedding of [renderers.py] (the Cook-Torrance renderer) and of
    the parts of [dataset.py] that read a sample, mix two materials and
    synthesise the missing input views.

    Layout of the data.  A torch tensor of shape [C, H, W] is held as an
    [H] x [W] grid whose cells are the [C]-channel vectors of one pixel:
    every operator the renderer uses is elementwise in the two spatial axes,
    and broadcasts along the channel axis only (a one-channel result of
    [dot_product] against a three-channel map).  Broadcasting is therefore
    modelled on channel vectors, and the spatial axes by mapping over the
    grid.

    Scalars.  The code is generic in the element type of its tensors, and so
    is the embedding: the class [Scalar] lists the elementwise kernels the
    code calls.  Three instances are given: IEEE binary32 (torch's default
    dtype, built on the standard library's executable [SpecFloat]), the real
    numbers (exact arithmetic, for the statements the specification makes
    "within floating tolerance"), and a tracing instance that records every
    divisor met while a value was computed. *)

From Stdlib Require Import ZArith List Bool Lia.
From Stdlib Require Import Reals Lra.
From Stdlib Require Import Floats.SpecFloat.
Import ListNotations.

Set Implicit Arguments.

(** ** The elementwise kernels *)

Class Scalar (F : Type) : Type := {
  (** a Python float literal, given as a fraction *)
  lit : Z -> Z -> F;
  (** [math.pi] *)
  pi_const : F;
  fadd : F -> F -> F;
  fsub : F -> F -> F;
  fmul : F -> F -> F;
  fdiv : F -> F -> F;
  fsqrt : F -> F;
  fabs : F -> F;
  (** [x > y], already promoted to the dtype (1 or 0) as the product with
      [torch.ones_like] does *)
  fgt : F -> F -> F;
  (** [torch.max(a, b)], elementwise *)
  fmaximum : F -> F -> F;
  (** [torch.clamp(x, min=lo)] *)
  fclamp_min : F -> F -> F;
  (** [torch.clamp(x, min=lo, max=hi)] *)
  fclamp : F -> F -> F -> F;
  (** one element of [Tensor.uniform_(lo, hi)], from a raw draw [u] of
      [0, 1): [u * (hi - lo) + lo] *)
  funiform : F -> F -> F -> F
}.

Definition and_then {A B : Type} (o : option A) (f : A -> option B)
    : option B :=
  match o with
  | Some x => f x
  | None => None
  end.

(** The element of a grid at row [r], column [c]. *)
Definition grid_nth {A : Type} (g : list (list A)) (r c : nat) : option A :=
  and_then (nth_error g r) (fun row => nth_error row c).

(** A channel vector, and a grid of them. *)
Abbreviation vec F := (list F) (only parsing).
Abbreviation grid F := (list (list (list F))) (only parsing).

Section Generic.

Context {F : Type} {SF : Scalar F}.

Definition zero : F := lit 0 1.
Definition one : F := lit 1 1.

(** [x ** n] for a literal exponent [n], as repeated multiplication (what
    torch does for the square). *)
Fixpoint fpow (x : F) (n : nat) : F :=
  match n with
  | O => one
  | S k => fmul x (fpow x k)
  end.

(** *** Channel vectors and broadcasting *)

Fixpoint zip_with (f : F -> F -> F) (a b : vec F) : vec F :=
  match a, b with
  | x :: a', y :: b' => f x y :: zip_with f a' b'
  | _, _ => []
  end.

(** A binary operator on channel vectors: a one-channel operand is
    broadcast against the other one.  Channel counts that torch refuses to
    broadcast do not reach it: [render] and [mix] unpack 12 channels into
    threes first. *)
Definition bzip (f : F -> F -> F) (a b : vec F) : vec F :=
  match a, b with
  | [x], _ => map (f x) b
  | _, [y] => map (fun x => f x y) a
  | _, _ => zip_with f a b
  end.

Definition vadd : vec F -> vec F -> vec F := bzip fadd.
Definition vsub : vec F -> vec F -> vec F := bzip fsub.
Definition vmul : vec F -> vec F -> vec F := bzip fmul.
Definition vdiv : vec F -> vec F -> vec F := bzip fdiv.

(** [torch.sum(..., dim=-3, keepdim=True)]: one channel is kept. *)
Definition sum_channels (a : vec F) : vec F := [fold_left fadd a zero].

(** *** renderers.py, module level *)

Definition dot_product (a b : vec F) : vec F := sum_channels (vmul a b).

Definition normalize (a : vec F) : vec F := vdiv a (map fsqrt (dot_product a a)).

(** *** class LocalRenderer *)

Definition xi (x : vec F) : vec F := map (fun v => fmul (fgt v zero) one) x.

Definition compute_diffuse_term (diffuse ks : vec F) : vec F :=
  let kd := map (fsub one) ks in
  map (fun v => fdiv v pi_const) (vmul kd diffuse).

(** The local [denominator_part] of [compute_microfacet_distribution]. *)
Definition denominator_part (roughness NH : vec F) : vec F :=
  let alpha := map (fun r => fpow r 2) roughness in
  let alpha_squared := map (fun a => fpow a 2) alpha in
  let NH_squared := map (fun n => fpow n 2) NH in
  map (fclamp_min (lit 1 1000))
      (vmul NH_squared
            (vadd alpha_squared (vdiv (map (fsub one) NH_squared) NH_squared))).

Definition compute_microfacet_distribution (roughness NH : vec F) : vec F :=
  let alpha := map (fun r => fpow r 2) roughness in
  let alpha_squared := map (fun a => fpow a 2) alpha in
  vdiv (vmul alpha_squared (xi NH))
       (map (fun d => fmul pi_const (fpow d 2)) (denominator_part roughness NH)).

Definition compute_fresnel (specular VH : vec F) : vec F :=
  vadd specular
       (vmul (map (fsub one) specular)
             (map (fun v => fpow (fsub one v) 5) VH)).

Definition compute_g1 (roughness XH XN : vec F) : vec F :=
  let alpha := map (fun r => fpow r 2) roughness in
  let alpha_squared := map (fun a => fpow a 2) alpha in
  let XN_squared := map (fun n => fpow n 2) XN in
  vdiv (map (fmul (lit 2 1)) (xi (vdiv XH XN)))
       (map (fadd one)
            (map fsqrt
                 (map (fadd one)
                      (vdiv (vmul alpha_squared (map (fsub one) XN_squared))
                            XN_squared)))).

Definition compute_geometry (roughness VH LH VN LN : vec F) : vec F :=
  vmul (compute_g1 roughness VH VN) (compute_g1 roughness LH LN).

Definition compute_specular_term
    (wi wo normals diffuse roughness specular : vec F) : vec F * vec F :=
  let H := normalize (map (fun v => fdiv v (lit 2 1)) (vadd wi wo)) in
  let NH := dot_product normals H in
  let VH := dot_product wo H in
  let LH := dot_product wi H in
  let VN := dot_product wo normals in
  let LN := dot_product wi normals in
  let Fr := compute_fresnel specular VH in
  let G := compute_geometry roughness VH LH VN LN in
  let D := compute_microfacet_distribution roughness NH in
  (vdiv (vmul (vmul Fr G) D) (vmul (map (fmul (lit 4 1)) VN) LN), Fr).

Definition evaluate_brdf
    (wi wo normals diffuse roughness specular : vec F) : vec F :=
  let '(specular_term, ks) :=
    compute_specular_term wi wo normals diffuse roughness specular in
  let diffuse_term := compute_diffuse_term diffuse ks in
  vadd diffuse_term specular_term.

(** *** Grids *)

(** Shape errors are the only failures of the renderer: [None] stands for
    the [RuntimeError] torch raises. *)
Fixpoint map2M {A B C : Type} (f : A -> B -> option C)
    (a : list A) (b : list B) : option (list C) :=
  match a, b with
  | [], [] => Some []
  | x :: a', y :: b' =>
      match f x y, map2M f a' b' with
      | Some z, Some zs => Some (z :: zs)
      | _, _ => None
      end
  | _, _ => None
  end.

Definition grid_map2M {A B C : Type} (f : A -> B -> option C)
    : list (list A) -> list (list B) -> option (list (list C)) :=
  map2M (map2M f).

(** [torch.cat((a, b), dim=0)] on the channel axis: the spatial shapes must
    agree. *)
Definition cat_channels (a b : grid F) : option (grid F) :=
  grid_map2M (fun x y => Some (x ++ y)) a b.

Fixpoint cons_columns {A : Type} (row : list A) (g : list (list A))
    : list (list A) :=
  match row, g with
  | x :: row', col :: g' => (x :: col) :: cons_columns row' g'
  | _, _ => []
  end.

(** [torch.transpose(g, dim0=1, dim1=2)] of a grid F with [w] columns. *)
Fixpoint transpose {A : Type} (w : nat) (g : list (list A))
    : list (list A) :=
  match g with
  | [] => repeat [] w
  | row :: g' => cons_columns row (transpose w g')
  end.

Definition of_nat (n : nat) : F := lit (Z.of_nat n) 1.

(** [torch.linspace(start, stop, steps)]: the step is computed once, the
    first half is counted up from [start] and the second half down from
    [stop]. *)
Definition linspace (start stop : F) (steps : nat) : list F :=
  match steps with
  | O => []
  | S O => [start]
  | S (S _) =>
      let step := fdiv (fsub stop start) (of_nat (steps - 1)) in
      map (fun i =>
             if Nat.ltb i (Nat.div steps 2)
             then fadd start (fmul step (of_nat i))
             else fsub stop (fmul step (of_nat (steps - i - 1))))
          (seq 0 steps)
  end.

(** [has_shape c h w g]: the grid holds a tensor of shape [c, h, w]. *)
Definition has_shape (c h w : nat) (g : grid F) : Prop :=
  length g = h /\
  Forall (fun row => length row = w /\ Forall (fun cell => length cell = c) row) g.

Definition values_in (P : F -> Prop) (g : grid F) : Prop :=
  Forall (Forall (Forall P)) g.

(** The channel count of a broadcast operator. *)
Definition bshape (n m : nat) : nat :=
  if Nat.eqb n 1 then m else if Nat.eqb m 1 then n else Nat.min n m.

(** *** Scene *)

Record Camera : Type := { camera_pos : F * F * F }.
Record Light : Type := { light_pos : F * F * F; light_color : F * F * F }.
Record Scene : Type := { camera : Camera; light : Light }.

Definition vec_of (p : F * F * F) : vec F :=
  let '(x, y, z) := p in [x; y; z].

(** Modelled from the spec: [utils.unpack_svbrdf] is not among the sources.
    The inverse slice of the packed channels in the fixed order normals,
    diffuse, roughness, specular; it fails when the channel count is not
    12. *)
Definition unpack_svbrdf (svbrdf : vec F) : option (vec F * vec F * vec F * vec F) :=
  if Nat.eqb (length svbrdf) 12
  then Some (firstn 3 svbrdf,
             firstn 3 (skipn 3 svbrdf),
             firstn 3 (skipn 6 svbrdf),
             firstn 3 (skipn 9 svbrdf))
  else None.

(** Modelled from the spec: [utils.pack_svbrdf] is not among the sources.
    The four maps are concatenated along the channel axis in the fixed
    order. *)
Definition pack_svbrdf (normals diffuse roughness specular : vec F) : vec F :=
  normals ++ diffuse ++ roughness ++ specular.

(** *** LocalRenderer.render *)

(** The surface coordinates of the patch, which spans (-1,-1,0) to
    (1,1,0). *)
Definition surface_coordinates (h w : nat) : option (grid F) :=
  let xcoords_row := linspace (lit (-1) 1) (lit 1 1) w in
  let xcoords := repeat (map (fun x => [x]) xcoords_row) h in
  let ycoords := map (map (map (fmul (lit (-1) 1)))) (transpose w xcoords) in
  let zeros := map (map (map (fun _ => zero))) xcoords in
  match cat_channels xcoords ycoords with
  | Some xy => cat_channels xy zeros
  | None => None
  end.

(** Avoid zero roughness (i. e., potential division by zero). *)
Definition clamp_roughness (roughness : vec F) : vec F :=
  map (fclamp_min (lit 1 1000)) roughness.

(** The body of [render] at one pixel, from its surface coordinates and the
    12 packed channels of the material there: first the two factors of the
    radiance, [f * (light_color * falloff)] and [LN], then their clamped
    product. *)
Definition render_cell_factors (scene : Scene) (coords svbrdf : vec F)
    : option (vec F * vec F) :=
  let camera_pos := vec_of (camera_pos (camera scene)) in
  let relative_camera_pos := vsub camera_pos coords in
  let wo := normalize relative_camera_pos in
  match unpack_svbrdf svbrdf with
  | None => None
  | Some (normals, diffuse, roughness, specular) =>
      let roughness := clamp_roughness roughness in
      let light_pos := vec_of (light_pos (light scene)) in
      let relative_light_pos := vsub light_pos coords in
      let wi := normalize relative_light_pos in
      let f := evaluate_brdf wi wo normals diffuse roughness specular in
      let LN := map (fclamp_min zero) (dot_product wi normals) in
      let light_color := vec_of (light_color (light scene)) in
      let falloff :=
        map (fun d => fdiv one (fpow (fsqrt d) 2))
            (dot_product relative_light_pos relative_light_pos) in
      Some (vmul f (vmul light_color falloff), LN)
  end.

Definition render_cell (scene : Scene) (coords svbrdf : vec F)
    : option (vec F) :=
  match render_cell_factors scene coords svbrdf with
  | Some (lit_brdf, LN) =>
      let radiance := vmul lit_brdf LN in
      Some (map (fclamp zero one) radiance)
  | None => None
  end.

Definition render (scene : Scene) (svbrdf : grid F) : option (grid F) :=
  let h := length svbrdf in
  let w := length (hd [] svbrdf) in
  match surface_coordinates h w with
  | Some coords => grid_map2M (render_cell scene) coords svbrdf
  | None => None
  end.

End Generic.

Arguments Camera F : clear implicits.
Arguments Light F : clear implicits.
Arguments Scene F : clear implicits.

(** ** IEEE binary32, torch's default dtype *)

Module F32.

Definition prec : Z := 24.
Definition emax : Z := 128.

Definition t : Type := spec_float.

Definition of_Z (z : Z) : t := binary_normalize prec emax z 0 false.

Definition ltb (x y : t) : bool := SFltb x y.
Definition leb (x y : t) : bool := SFleb x y.

Definition is_nan (x : t) : bool :=
  match x with S754_nan => true | _ => false end.

Definition is_zero (x : t) : bool :=
  match x with S754_zero _ => true | _ => false end.

Definition is_finite (x : t) : bool :=
  match x with S754_zero _ | S754_finite _ _ _ => true | _ => false end.

(** A literal is the correctly rounded quotient of two integers that
    binary32 holds exactly. *)
Definition literal (n d : Z) : t := SFdiv prec emax (of_Z n) (of_Z d).

(** [math.pi] rounded to binary32: 0x40490FDB. *)
Definition pi32 : t := S754_finite false 13176795 (-22).

Definition greater (x y : t) : t :=
  if ltb y x then literal 1 1 else literal 0 1.

(** A value of [0, 1]. *)
Definition in_unit (x : t) : bool := leb (literal 0 1) x && leb x (literal 1 1).

(** [torch.max] propagates NaN. *)
Definition max32 (a b : t) : t :=
  if is_nan a then a
  else if is_nan b then b
  else if ltb a b then b else a.

(** [torch.clamp] propagates NaN: no comparison with NaN holds. *)
Definition clamp_lo (lo x : t) : t := if ltb x lo then lo else x.

Definition clamp_lo_hi (lo hi x : t) : t :=
  let y := clamp_lo lo x in
  if ltb hi y then hi else y.

(** A binary64 value rounded to binary32. *)
Definition of_binary64 (x : spec_float) : t :=
  match x with
  | S754_finite s m e => binary_round prec emax s m e
  | _ => x
  end.

(** On the CPU the raw draw is scaled in double precision (the difference
    [hi - lo] is taken in binary32 first) and the result is rounded once. *)
Definition uniform32 (u lo hi : t) : t :=
  of_binary64
    (SFadd 53 1024 (SFmul 53 1024 u (SFsub prec emax hi lo)) lo).

#[global] Instance scalar : Scalar t := {
  lit := literal;
  pi_const := pi32;
  fadd := SFadd prec emax;
  fsub := SFsub prec emax;
  fmul := SFmul prec emax;
  fdiv := SFdiv prec emax;
  fsqrt := SFsqrt prec emax;
  fabs := SFabs;
  fgt := greater;
  fmaximum := max32;
  fclamp_min := clamp_lo;
  fclamp := clamp_lo_hi;
  funiform := uniform32
}.

End F32.

(** ** The BRDF as the specification words it

    Section 4.2 of the specification, on the scalars of one pixel and one
    channel; [step] is the horizon indicator. *)

Section Formula.

Context {F : Type} {SF : Scalar F}.

Definition step (x : F) : F := fgt x zero.

Definition fresnel_formula (specular VH : F) : F :=
  fadd specular (fmul (fsub one specular) (fpow (fsub one VH) 5)).

Definition ggx_formula (roughness NH : F) : F :=
  let alpha := fpow roughness 2 in
  fdiv (fmul (fpow alpha 2) (step NH))
       (fmul pi_const
             (fpow (fclamp_min (lit 1 1000)
                      (fmul (fpow NH 2)
                            (fadd (fpow alpha 2)
                                  (fdiv (fsub one (fpow NH 2)) (fpow NH 2)))))
                   2)).

Definition g1_formula (roughness XH XN : F) : F :=
  let alpha := fpow roughness 2 in
  fdiv (fmul (lit 2 1) (step (fdiv XH XN)))
       (fadd one
             (fsqrt (fadd one
                          (fdiv (fmul (fpow alpha 2) (fsub one (fpow XN 2)))
                                (fpow XN 2))))).

Definition brdf_formula (NH VH LH VN LN diffuse roughness specular : F) : F :=
  let Fr := fresnel_formula specular VH in
  let D := ggx_formula roughness NH in
  let G := fmul (g1_formula roughness VH VN) (g1_formula roughness LH LN) in
  let spec := fdiv (fmul (fmul Fr G) D) (fmul (fmul (lit 4 1) VN) LN) in
  let diff := fdiv (fmul (fsub one Fr) diffuse) pi_const in
  fadd diff spec.

End Formula.

(** ** Exact arithmetic *)

Module Exact.

Definition literal (n d : Z) : R := (IZR n / IZR d)%R.

Definition greater (x y : R) : R := if Rlt_dec y x then 1%R else 0%R.

Definition clamp_lo (lo x : R) : R := if Rlt_dec x lo then lo else x.

Definition clamp_lo_hi (lo hi x : R) : R :=
  let y := clamp_lo lo x in
  if Rlt_dec hi y then hi else y.

#[global] Instance scalar : Scalar R := {
  lit := literal;
  pi_const := PI;
  fadd := Rplus;
  fsub := Rminus;
  fmul := Rmult;
  fdiv := Rdiv;
  fsqrt := R_sqrt.sqrt;
  fabs := Rabs;
  fgt := greater;
  fmaximum := Rmax;
  fclamp_min := clamp_lo;
  fclamp := clamp_lo_hi;
  funiform u lo hi := (u * (hi - lo) + lo)%R
}.

End Exact.

(** ** Tracing the divisors

    A traced scalar carries, next to its value, the divisors of all the
    divisions that took part in computing it. *)

Module Traced.

Section Instance.

Context {F : Type} {SF : Scalar F}.

Definition t : Type := F * list F.

Definition value (x : t) : F := fst x.
Definition divisors (x : t) : list F := snd x.

Definition const (x : F) : t := (x, []).

Definition lift1 (op : F -> F) (x : t) : t := (op (fst x), snd x).

Definition lift2 (op : F -> F -> F) (x y : t) : t :=
  (op (fst x) (fst y), snd x ++ snd y).

Definition lift3 (op : F -> F -> F -> F) (x y z : t) : t :=
  (op (fst x) (fst y) (fst z), snd x ++ snd y ++ snd z).

(** The one kernel that records something: its own divisor. *)
Definition divide (x y : t) : t :=
  (fdiv (fst x) (fst y), fst y :: snd x ++ snd y).

#[global] Instance scalar : Scalar t := {
  lit n d := const (lit n d);
  pi_const := const pi_const;
  fadd := lift2 fadd;
  fsub := lift2 fsub;
  fmul := lift2 fmul;
  fdiv := divide;
  fsqrt := lift1 fsqrt;
  fabs := lift1 fabs;
  fgt := lift2 fgt;
  fmaximum := lift2 fmaximum;
  fclamp_min := lift2 fclamp_min;
  fclamp := lift3 fclamp;
  funiform := lift3 funiform
}.

Definition trace_vec (v : vec F) : vec t := map const v.
Definition trace_grid (g : grid F) : grid t := map (map trace_vec) g.

Definition trace_scene (s : Scene F) : Scene t :=
  let '(cx, cy, cz) := camera_pos (camera s) in
  let '(lx, ly, lz) := light_pos (light s) in
  let '(r, g, b) := light_color (light s) in
  {| camera := {| camera_pos := (const cx, const cy, const cz) |};
     light := {| light_pos := (const lx, const ly, const lz);
                 light_color := (const r, const g, const b) |} |}.

(** The values of a traced image. *)
Definition untrace (g : grid t) : grid F := map (map (map value)) g.

(** All the divisors met while an image was computed. *)
Definition divisors_of (g : grid t) : list F :=
  concat (map (fun row => concat (map (fun cell => concat (map divisors cell)) row)) g).

End Instance.

Arguments t F : clear implicits.

End Traced.

(** ** dataset.py: the material mixer *)

Section Mixer.

Context {F : Type} {SF : Scalar F}.

(** "Project the normals to use the X and Y derivative". *)
Definition project_normals (normals : vec F) : vec F :=
  vdiv normals (bzip fmaximum [lit 1 100] (firstn 1 (skipn 2 normals))).

(** [alpha * a + (1.0 - alpha) * b]. *)
Definition blend (alpha a b : vec F) : vec F :=
  vadd (vmul alpha a) (vmul (map (fsub one) alpha) b).

(** The Euclidean length along the channel axis. *)
Definition norm (v : vec F) : vec F :=
  map fsqrt (sum_channels (map (fun x => fpow x 2) v)).

(** The body of [SvbrdfDataset.mix] at one pixel, for the drawn [alpha]. *)
Definition mix_cell (alpha : vec F) (svbrdf_0 svbrdf_1 : vec F) : option (vec F) :=
  match unpack_svbrdf svbrdf_0, unpack_svbrdf svbrdf_1 with
  | Some (normals_0, diffuse_0, roughness_0, specular_0),
    Some (normals_1, diffuse_1, roughness_1, specular_1) =>
      let normals_0_projected := project_normals normals_0 in
      let normals_1_projected := project_normals normals_1 in
      let normals_mixed :=
        blend alpha normals_0_projected normals_1_projected in
      let normals_mixed := vdiv normals_mixed (norm normals_mixed) in
      let diffuse_mixed := blend alpha diffuse_0 diffuse_1 in
      let roughness_mixed := blend alpha roughness_0 roughness_1 in
      let specular_mixed := blend alpha specular_0 specular_1 in
      Some (pack_svbrdf normals_mixed diffuse_mixed roughness_mixed specular_mixed)
  | _, _ => None
  end.

(** [mix] once [alpha] is drawn. *)
Definition mix_with (alpha : F) (svbrdf_0 svbrdf_1 : grid F) : option (grid F) :=
  grid_map2M (mix_cell [alpha]) svbrdf_0 svbrdf_1.

End Mixer.

(** ** Random draws and failures

    The sampling code draws from torch's and Python's hidden generators and
    can fail on a shape or an index.  Both are made explicit: a computation
    takes the generator state and returns [None] for a raised exception. *)

Record Rng (F : Type) : Type := {
  (** the raw draws of [0, 1) behind [uniform_] *)
  uniform_source : nat -> F;
  (** the raw standard normal draws behind [normal_] *)
  normal_source : nat -> F;
  (** the raw draws behind [random.randrange] *)
  randrange_source : nat -> nat;
  (** how many draws were consumed *)
  position : nat
}.

Definition M (F A : Type) : Type := Rng F -> option (A * Rng F).

Definition ret {F A : Type} (x : A) : M F A := fun r => Some (x, r).

Definition bind {F A B : Type} (c : M F A) (k : A -> M F B) : M F B :=
  fun r => match c r with
           | Some (x, r') => k x r'
           | None => None
           end.

Definition lift {F A : Type} (o : option A) : M F A :=
  fun r => match o with Some x => Some (x, r) | None => None end.

Declare Scope sampling_scope.
Delimit Scope sampling_scope with sampling.
Notation "x <~ c ;; k" := (bind c (fun x => k))
  (at level 61, c at next level, right associativity) : sampling_scope.
Notation "' p <~ c ;; k" := (bind c (fun x => let p := x in k))
  (at level 61, p pattern, c at next level, right associativity) : sampling_scope.

Fixpoint replicateM {F A : Type} (n : nat) (c : M F A) : M F (list A) :=
  match n with
  | O => ret []
  | S k => bind c (fun x => bind (replicateM k c) (fun xs => ret (x :: xs)))
  end.

Section Sampling.

Context {F : Type} {SF : Scalar F}.

Definition advance (r : Rng F) : Rng F :=
  {| uniform_source := uniform_source r;
     normal_source := normal_source r;
     randrange_source := randrange_source r;
     position := S (position r) |}.

(** One element of [Tensor.uniform_(lo, hi)]: the raw draw is scaled to the
    interval. *)
Definition uniform_ (lo hi : F) : M F F :=
  fun r => Some (funiform (uniform_source r (position r)) lo hi, advance r).

(** One element of [Tensor.normal_(mean, std)]. *)
Definition normal_ (mean std : F) : M F F :=
  fun r => Some (fadd (fmul (normal_source r (position r)) std) mean,
                 advance r).

(** [random.randrange(0, stop)]: a [ValueError] on an empty range. *)
Definition randrange (stop : nat) : M F nat :=
  fun r => match stop with
           | O => None
           | S _ => Some (Nat.modulo (randrange_source r (position r)) stop,
                          advance r)
           end.

End Sampling.

(** ** Python indexing *)

Section PythonLists.

Context {A : Type}.

(** [l[i]] for an integer [i]: a negative index counts from the end, an
    index out of range raises. *)
Definition py_index (l : list A) (i : Z) : option A :=
  let n := Z.of_nat (length l) in
  if (0 <=? i)%Z && (i <? n)%Z then nth_error l (Z.to_nat i)
  else if (- n <=? i)%Z && (i <? 0)%Z then nth_error l (Z.to_nat (n + i))
  else None.

(** How a slice bound is brought into [0, n]. *)
Definition py_bound (n i : Z) : Z :=
  if (i <? 0)%Z then Z.max 0 (n + i) else Z.min n i.

(** [l[a:b]]. *)
Definition py_slice (l : list A) (a b : Z) : list A :=
  let n := Z.of_nat (length l) in
  let a' := py_bound n a in
  let b' := py_bound n b in
  firstn (Z.to_nat (b' - a')) (skipn (Z.to_nat a') l).

(** [l[a:]]. *)
Definition py_slice_from (l : list A) (a : Z) : list A :=
  skipn (Z.to_nat (py_bound (Z.of_nat (length l)) a)) l.

End PythonLists.

(** ** dataset.py: reading a sample and synthesising the missing views *)

Record SvbrdfDataset : Type := {
  file_paths : list nat;
  image_size : Z;
  input_image_count : Z;
  used_input_image_count : Z;
  use_augmentation : bool;
  mix_materials : bool;
  no_svbrdf : bool;
  is_linear : bool
}.

(** [SvbrdfDataset.__init__]: material mixing is switched off for a dataset
    with input images.  Files are named by numbers. *)
Definition SvbrdfDataset_init (paths : list nat) (image_size input_image_count
    used_input_image_count : Z) (use_augmentation mix_materials no_svbrdf
    is_linear : bool) : SvbrdfDataset :=
  {| file_paths := paths;
     image_size := image_size;
     input_image_count := input_image_count;
     used_input_image_count := used_input_image_count;
     use_augmentation := use_augmentation;
     mix_materials :=
       if mix_materials && (0 <? input_image_count)%Z then false
       else mix_materials;
     no_svbrdf := no_svbrdf;
     is_linear := is_linear |}.

Record BaseDataset : Type := {
  base_file_paths : list nat;
  base_input_image_count : Z;
  base_input_material_map_count : Z;
  base_used_input_image_count : Z
}.

Section Dataset.

Context {F : Type} {SF : Scalar F}.

Local Open Scope sampling_scope.

(** What the sources leave out: the image files, three helpers of [utils]
    and two transcendental functions. *)
Variable imread : nat -> option (grid F).
Variable crop_square : grid F -> Z * Z -> Z -> grid F.
Variable gamma_decode : F -> F.
Variable generate_normalized_random_direction :
  nat -> F -> F -> M F (list (vec F)).
Variable torch_exp : F -> F.
Variable np_log : F -> F.

(** Modelled from the spec: [utils.decode_from_unit_interval] is not among
    the sources; it maps [x] to [x*2 - 1]. *)
Definition decode_from_unit_interval (x : F) : F :=
  fsub (fmul x (lit 2 1)) one.

Definition width (g : grid F) : nat := length (hd [] g).

Definition columns (lo len : nat) (g : grid F) : grid F :=
  map (fun row => firstn len (skipn lo row)) g.

(** [Tensor.chunk(chunks, dim=-1)]: pieces of width ceil(w / chunks), the
    last one possibly narrower; it raises unless [chunks] is positive. *)
Definition chunk (chunks : Z) (g : grid F) : option (list (grid F)) :=
  if (chunks <=? 0)%Z then None
  else
    let w := Z.of_nat (width g) in
    let split_size := ((w + chunks - 1) / chunks)%Z in
    if (split_size =? 0)%Z
    then Some (repeat (columns 0 0 g) (Z.to_nat chunks))
    else
      let count := Z.max ((w + split_size - 1) / split_size) 1 in
      Some (map (fun j => columns (j * Z.to_nat split_size)
                                  (Z.to_nat split_size) g)
                (seq 0 (Z.to_nat count))).

(** [torch.cat] and [torch.stack] of the pieces along a new first axis: the
    pieces must have one width. *)
Definition cat_parts (parts : list (grid F)) : option (list (grid F)) :=
  match parts with
  | [] => None
  | p :: _ =>
      if forallb (fun q => Nat.eqb (width q) (width p)) parts
      then Some parts else None
  end.

(** [utils.pack_svbrdf] on whole maps. *)
Definition pack_svbrdf_maps (normals diffuse roughness specular : grid F)
    : option (grid F) :=
  match cat_channels normals diffuse with
  | Some nd =>
      match cat_channels nd roughness with
      | Some ndr => cat_channels ndr specular
      | None => None
      end
  | None => None
  end.

Definition read_sample (self : SvbrdfDataset) (file_path : nat)
    : option (list (grid F) * grid F) :=
  match imread file_path with
  | None => None
  | Some full_image =>
      let svbrdf_map_count := if no_svbrdf self then 0%Z else 4%Z in
      match chunk (input_image_count self + svbrdf_map_count) full_image with
      | None => None
      | Some pieces =>
      match cat_parts pieces with
      | None => None
      | Some image_parts =>
          let actual_image_size := length full_image in
          let svbrdf :=
            if no_svbrdf self then
              let normals :=
                repeat (repeat [zero; zero; one] actual_image_size)
                       actual_image_size in
              let zeros := map (map (map (fun _ => zero))) normals in
              pack_svbrdf_maps normals zeros zeros zeros
            else
              match py_index image_parts (input_image_count self + 0),
                    py_index image_parts (input_image_count self + 1),
                    py_index image_parts (input_image_count self + 2),
                    py_index image_parts (input_image_count self + 3) with
              | Some normals, Some diffuse, Some roughness, Some specular =>
                  let normals :=
                    map (map (map decode_from_unit_interval)) normals in
                  pack_svbrdf_maps normals diffuse roughness specular
              | _, _, _, _ => None
              end in
          match svbrdf with
          | None => None
          | Some svbrdf =>
              let read_input_image_count :=
                Z.min (input_image_count self) (used_input_image_count self) in
              let input_images :=
                py_slice image_parts
                         (input_image_count self - read_input_image_count)
                         (input_image_count self) in
              Some (input_images, svbrdf)
          end
      end
      end
  end.

(** [BaseDataset.read_sample_base]; [utils.read_image_tensor] is the file
    read. *)
Definition read_sample_base (self : BaseDataset) (idx : Z)
    : option (list (grid F) * list (grid F)) :=
  match py_index (base_file_paths self) idx with
  | None => None
  | Some file_path =>
  match imread file_path with
  | None => None
  | Some full_image =>
      match chunk (base_input_image_count self
                   + base_input_material_map_count self) full_image with
      | None => None
      | Some pieces =>
      match cat_parts pieces with
      | None => None
      | Some image_parts =>
          let read_input_image_count :=
            Z.min (base_input_image_count self)
                  (base_used_input_image_count self) in
          let input_images :=
            py_slice image_parts
                     (base_input_image_count self - read_input_image_count)
                     (base_input_image_count self) in
          let svbrdf_maps :=
            py_slice_from image_parts (- base_input_material_map_count self) in
          Some (input_images, svbrdf_maps)
      end
      end
  end
  end.

(** [SvbrdfDataset.mix]: the blend factor is drawn first. *)
Definition mix (svbrdf_0 svbrdf_1 : grid F) : M F (grid F) :=
  alpha <~ uniform_ (lit 1 10) (lit 9 10) ;;
  lift (mix_with alpha svbrdf_0 svbrdf_1).

(** *** [SvbrdfDataset.__getitem__] *)

(** Constants as defined in the reference code. *)
Definition min_eps : F := lit 1 1000.
Definition max_eps : F := lit 2 100.
Definition fixed_light_distance : F := lit 2197 1000.
Definition fixed_view_distance : F := lit 275 100.

(** The light configurations: the first light is over the material sample,
    the others are sampled from a hemisphere. *)
Definition sample_light_poses (generated_input_image_count : nat)
    : M F (list (vec F)) :=
  xy <~ replicateM 2 (uniform_ (lit (-75) 100) (lit 75 100)) ;;
  let light_poses := [xy ++ [fmul one fixed_light_distance]] in
  if Nat.ltb 1 generated_input_image_count then
    directions <~ generate_normalized_random_direction
                    (generated_input_image_count - 1) min_eps max_eps ;;
    let light_poses_hemisphere :=
      map (map (fun v => fmul v fixed_light_distance)) directions in
    ret (light_poses ++ light_poses_hemisphere)
  else ret light_poses.

Definition sample_light_colors (use_augmentation : bool)
    (generated_input_image_count : nat) : M F (list (vec F)) :=
  light_colors <~
    (if use_augmentation then
       log_std <~ normal_ (lit (-2) 1) (lit 5 10) ;;
       let std_deviation := torch_exp log_std in
       draws <~ replicateM generated_input_image_count
                  (normal_ (lit 20 1) std_deviation) ;;
       ret (map (fun v => [fabs v]) draws)
     else ret [[lit 30 1]]) ;;
  (* expand(generated_input_image_count, 3) *)
  let light_colors :=
    match light_colors with
    | [c] => repeat (concat (repeat c 3)) generated_input_image_count
    | _ => map (fun c => concat (repeat c 3)) light_colors
    end in
  if use_augmentation then
    white_balance <~ replicateM generated_input_image_count
                       (replicateM 3 (normal_ (lit 1 1) (lit 3 100))) ;;
    ret (map (fun cw => vmul (fst cw) (map fabs (snd cw)))
             (combine light_colors white_balance))
  else ret light_colors.

Definition sample_view_distance (use_augmentation : bool)
    (generated_input_image_count : nat) : M F (list F) :=
  if use_augmentation then
    replicateM generated_input_image_count (uniform_ (lit 25 100) (lit 275 100))
  else
    ret (repeat (fmul one fixed_view_distance) generated_input_image_count).

Definition sample_view_poses (view_distance : list F)
    (generated_input_image_count : nat) : M F (list (vec F)) :=
  xy <~ replicateM 2 (uniform_ (lit (-25) 100) (lit 25 100)) ;;
  let view_poses := [xy ++ firstn 1 view_distance] in
  if Nat.ltb 1 generated_input_image_count then
    directions <~ generate_normalized_random_direction
                    (generated_input_image_count - 1) min_eps max_eps ;;
    let view_poses_hemisphere :=
      map (fun dv => vmul (fst dv) [snd dv])
          (combine directions (skipn 1 view_distance)) in
    ret (view_poses ++ view_poses_hemisphere)
  else ret view_poses.

Definition position_of (v : vec F) : option (F * F * F) :=
  match v with
  | [x; y; z] => Some (x, y, z)
  | _ => None
  end.

(** [torch.zeros_like(rendering).normal_(mean=0.0, std=...)]: one draw per
    element, in the order of the [1, 3, H, W] buffer. *)
Definition noise_like (rendering : grid F) (std : F) : M F (grid F) :=
  let h := length rendering in
  let w := width rendering in
  draws <~ replicateM (3 * h * w) (normal_ zero std) ;;
  ret (map (fun r =>
              map (fun c =>
                     map (fun ch => nth (ch * h * w + r * w + c) draws zero)
                         (seq 0 3))
                  (seq 0 w))
           (seq 0 h)).

(** One turn of the loop over the images to generate. *)
Definition generate_image (svbrdf : grid F)
    (view_poses light_poses light_colors : list (vec F))
    (input_images : list (grid F)) (i : nat) : M F (list (grid F)) :=
  view <~ lift (and_then (nth_error view_poses i) position_of) ;;
  lpos <~ lift (and_then (nth_error light_poses i) position_of) ;;
  lcol <~ lift (and_then (nth_error light_colors i) position_of) ;;
  let scene := {| camera := {| camera_pos := view |};
                  light := {| light_pos := lpos; light_color := lcol |} |} in
  rendering <~ lift (render scene svbrdf) ;;
  log_std <~ normal_ (np_log (lit 5 1000)) (lit 3 10) ;;
  let std_deviation_noise := torch_exp log_std in
  noise <~ noise_like rendering std_deviation_noise ;;
  noisy <~ lift (grid_map2M (fun a b => Some (vadd a b)) rendering noise) ;;
  let rendering := map (map (map (fclamp zero one))) noisy in
  ret (input_images ++ [rendering]).

Fixpoint for_each {A S : Type} (l : list A) (s : S)
    (body : S -> A -> M F S) : M F S :=
  match l with
  | [] => ret s
  | x :: l' => s' <~ body s x ;; for_each l' s' body
  end.

(** The scenes (camera and light configurations) of the images to
    generate: view poses, light poses and light colors. *)
Definition sample_scenes (use_augmentation : bool)
    (generated_input_image_count : nat)
    : M F (list (vec F) * list (vec F) * list (vec F)) :=
  light_poses <~ sample_light_poses generated_input_image_count ;;
  light_colors <~ sample_light_colors use_augmentation
                    generated_input_image_count ;;
  view_distance <~ sample_view_distance use_augmentation
                     generated_input_image_count ;;
  view_poses <~ sample_view_poses view_distance generated_input_image_count ;;
  ret (view_poses, light_poses, light_colors).

(** Images which cannot be read must be generated artificially. *)
Definition generate_missing_images (self : SvbrdfDataset) (svbrdf : grid F)
    (input_images : list (grid F)) : M F (list (grid F)) :=
  let generated_input_image_count :=
    (used_input_image_count self - Z.of_nat (length input_images))%Z in
  if (0 <? generated_input_image_count)%Z then
    let n := Z.to_nat generated_input_image_count in
    ' (view_poses, light_poses, light_colors) <~
      sample_scenes (use_augmentation self) n ;;
    for_each (seq 0 n) input_images
             (generate_image svbrdf view_poses light_poses light_colors)
  else ret input_images.

(** The sample as read, mixed, cropped and made linear, before any image is
    generated. *)
Definition prepare_sample (self : SvbrdfDataset) (idx : Z)
    : M F (list (grid F) * grid F) :=
  file_path <~ lift (py_index (file_paths self) idx) ;;
  ' (input_images, svbrdf) <~ lift (read_sample self file_path) ;;
  svbrdf <~
    (if mix_materials self then
       other_index <~ randrange (length (file_paths self)) ;;
       other_path <~ lift (nth_error (file_paths self) other_index) ;;
       ' (_, other_svbrdf) <~ lift (read_sample self other_path) ;;
       mix svbrdf other_svbrdf
     else ret svbrdf) ;;
  let crop_anchor := (0%Z, 0%Z) in
  let svbrdf := crop_square svbrdf crop_anchor (image_size self) in
  let input_images :=
    map (fun image => crop_square image crop_anchor (image_size self))
        input_images in
  let input_images :=
    if is_linear self then input_images
    else map (map (map (map gamma_decode))) input_images in
  ret (input_images, svbrdf).

Definition getitem (self : SvbrdfDataset) (idx : Z)
    : M F (list (grid F) * grid F) :=
  ' (input_images, svbrdf) <~ prepare_sample self idx ;;
  input_images <~ generate_missing_images self svbrdf input_images ;;
  ret (input_images, svbrdf).

End Dataset.

(** ** The renderer on a store of buffers

    A tensor is a handle on a buffer.  Out-of-place operators ([torch.clamp],
    [torch.mul], ...) allocate the buffer of their result; in-place ones
    ([clamp_], [normal_], ...) overwrite the buffer of their argument.
    [render] calls out-of-place operators only. *)

Section Store.

Context {F : Type} {SF : Scalar F}.

Definition store : Type := list (grid F).

Definition St (A : Type) : Type := store -> option (A * store).

Definition load (l : nat) : St (grid F) :=
  fun s => match nth_error s l with
           | Some g => Some (g, s)
           | None => None
           end.

Definition alloc (g : grid F) : St nat :=
  fun s => Some (length s, s ++ [g]).

Fixpoint overwrite_nth (l : nat) (g : grid F) (s : store) : store :=
  match s, l with
  | [], _ => []
  | _ :: s', O => g :: s'
  | g0 :: s', S l' => g0 :: overwrite_nth l' g s'
  end.

Definition overwrite (l : nat) (g : grid F) : St unit :=
  fun s => match nth_error s l with
           | Some _ => Some (tt, overwrite_nth l g s)
           | None => None
           end.

Definition st_bind {A B : Type} (c : St A) (k : A -> St B) : St B :=
  fun s => match c s with
           | Some (x, s') => k x s'
           | None => None
           end.

Definition st_lift {A : Type} (o : option A) : St A :=
  fun s => match o with Some x => Some (x, s) | None => None end.

(** [torch.clamp(roughness, min=0.001)] on the roughness view of the packed
    material: the values of the new buffer. *)
Definition clamped_roughness (svbrdf : grid F) : grid F :=
  map (map (fun cell => clamp_roughness (firstn 3 (skipn 6 cell)))) svbrdf.

(** [render] on handles: the material is read, the clamped roughness and
    the image are new buffers. *)
Definition render_st (scene : Scene F) (svbrdf : nat) : St nat :=
  st_bind (load svbrdf) (fun material =>
  st_bind (st_lift (render scene material)) (fun image =>
  st_bind (alloc (clamped_roughness material)) (fun _ =>
  alloc image))).

End Store.

(** ** Concrete scenes and patches, in binary32 *)

Module Samples.

Import F32.

Definition scene_of (camera_at light_at color : Z * Z * Z) : Scene t :=
  let '(cx, cy, cz) := camera_at in
  let '(lx, ly, lz) := light_at in
  let '(r, g, b) := color in
  {| camera := {| camera_pos := (literal cx 1, literal cy 1, literal cz 1) |};
     light := {| light_pos := (literal lx 1, literal ly 1, literal lz 1);
                 light_color := (literal r 1, literal g 1, literal b 1) |} |}.

(** The material of the specification's scenario: normals (0,0,1), diffuse
    0.5, roughness 0.5, specular 0.04. *)
Definition flat_cell : vec t :=
  [literal 0 1; literal 0 1; literal 1 1;
   literal 1 2; literal 1 2; literal 1 2;
   literal 1 2; literal 1 2; literal 1 2;
   literal 4 100; literal 4 100; literal 4 100].

Definition flat_patch (n : nat) : grid t := repeat (repeat flat_cell n) n.

(** Camera and light above the centre of the patch. *)
Definition scene_overhead : Scene t :=
  scene_of (0, 0, 2)%Z (0, 0, 2)%Z (50, 50, 50)%Z.

(** The light lies in the plane of the patch, beside it. *)
Definition scene_light_in_plane : Scene t :=
  scene_of (0, 0, 2)%Z (2, 0, 0)%Z (50, 50, 50)%Z.

(** The light is the mirror image of the camera, below the patch. *)
Definition scene_light_below : Scene t :=
  scene_of (0, 0, 2)%Z (0, 0, -2)%Z (50, 50, 50)%Z.

(** The flat material with another normal. *)
Definition cell_with_normal (normal : Z * Z * Z) : vec t :=
  let '(x, y, z) := normal in
  [literal x 1; literal y 1; literal z 1] ++ skipn 3 flat_cell.

(** The light is below the patch, off the axis of the camera. *)
Definition scene_light_low : Scene t :=
  scene_of (0, 0, 2)%Z (1, 0, -2)%Z (50, 50, 50)%Z.

(** The material of the scenario in exact arithmetic. *)
Definition flat_cell_exact : vec R :=
  [0; 0; 1; 1/2; 1/2; 1/2; 1/2; 1/2; 1/2; 4/100; 4/100; 4/100]%R.

(** A generator whose raw draws are all [u], in exact arithmetic. *)
Definition constant_rng (u : R) : Rng R :=
  {| uniform_source := fun _ => u;
     normal_source := fun _ => 0%R;
     randrange_source := fun _ => 0;
     position := 0 |}.

(** A hemisphere sampler that looks straight up. *)
Definition zenith_sampler (n : nat) (_ _ : R) : M R (list (vec R)) :=
  ret (repeat [0; 0; 1]%R n).

(** A file of one row: three input images and the four maps, one pixel
    each. *)
Definition gray (k : Z) : vec t := [literal k 10; literal k 10; literal k 10].

Definition file_3_images : grid t :=
  [[gray 1; gray 2; gray 3; gray 4; gray 5; gray 6; gray 7]].

(** A file of one input image and the four maps. *)
Definition file_1_image : grid t :=
  [[gray 1; gray 4; gray 5; gray 6; gray 7]].

Definition dataset_3_images (used : Z) : SvbrdfDataset :=
  SvbrdfDataset_init [0] 1 3 used false false false true.

Definition dataset_1_image (used : Z) : SvbrdfDataset :=
  SvbrdfDataset_init [0] 1 1 used false false false true.

(** A crop that keeps everything, and a generator whose raw draws are one
    half. *)
Definition keep_all (g : grid t) (_ : Z * Z) (_ : Z) : grid t := g.

Definition rng_one_half : Rng t :=
  {| uniform_source := fun _ => literal 1 2;
     normal_source := fun _ => literal 0 1;
     randrange_source := fun _ => 0;
     position := 0 |}.

(** A generator whose first raw draw is the 24-bit fraction next above one
    half. *)
Definition rng_above_one_half : Rng t :=
  {| uniform_source := fun _ => S754_finite false 8388609 (-24);
     normal_source := fun _ => literal 0 1;
     randrange_source := fun _ => 0;
     position := 0 |}.

Definition no_directions (n : nat) (_ _ : t) : M t (list (vec t)) :=
  ret (repeat [literal 0 1; literal 0 1; literal 1 1] n).

End Samples.

(** ** The claims of the specification, as stated *)

(** C1 as the specification states it: an image of three channels and of
    the resolution of the input, with every value in [0, 1]. *)
Definition radiance_bounds (scene : Scene F32.t) (svbrdf : grid F32.t) (n : nat) : Prop :=
  exists image,
    render scene svbrdf = Some image /\
    has_shape 3 n n image /\
    values_in (fun v => F32.in_unit v = true) image.

(** C4 as the specification states it: wherever the light direction makes
    a cosine of at most zero with the normal, the pixel is zero in its three
    channels. *)
Definition horizon_zeroing (scene : Scene F32.t) (svbrdf : grid F32.t) : Prop :=
  forall (image coords : grid F32.t) (r c : nat) (coord cell pixel : vec F32.t),
    render scene svbrdf = Some image ->
    surface_coordinates (length svbrdf) (length (hd [] svbrdf)) = Some coords ->
    grid_nth coords r c = Some coord ->
    grid_nth svbrdf r c = Some cell ->
    Forall (fun d => F32.leb d zero = true)
           (dot_product
              (normalize (vsub (vec_of (light_pos (light scene))) coord))
              (firstn 3 cell)) ->
    grid_nth image r c = Some pixel ->
    Forall (fun v => F32.is_zero v = true) pixel.

(** C2 as the specification states it: every divisor met while the image
    is computed is at least 0.001. *)
Definition divisors_floored (scene : Scene F32.t) (svbrdf : grid F32.t) : Prop :=
  exists image,
    render (F := Traced.t F32.t)
           (Traced.trace_scene scene) (Traced.trace_grid svbrdf) = Some image /\
    Forall (fun d => F32.leb (F32.literal 1 1000) d = true)
           (Traced.divisors_of image).

(** A value at the floor 0.001 or above it, NaN apart. *)
Definition floored (d : F32.t) : Prop :=
  F32.is_nan d = true \/ F32.leb (F32.literal 1 1000) d = true.

(** C5 as the specification states it, for a tolerance [tol]: after [mix]
    with the blend factor [alpha] the normals of every pixel have length 1
    within [tol]. *)
Definition unit_within (tol : F32.t) (normals : vec F32.t) : Prop :=
  Forall (fun len => F32.leb (fabs (fsub len one)) tol = true) (norm normals).

Definition mixed_normals_unit (tol alpha : F32.t) (svbrdf_0 svbrdf_1 : grid F32.t)
    : Prop :=
  exists mixed,
    mix_with alpha svbrdf_0 svbrdf_1 = Some mixed /\
    Forall (Forall (fun cell => unit_within tol (firstn 3 cell))) mixed.

(** Two grids related cell by cell. *)
Definition grid_forall2 {A B : Type} (P : A -> B -> Prop)
    (a : list (list A)) (b : list (list B)) : Prop :=
  Forall2 (Forall2 P) a b.

(** In exact arithmetic: two packed cells whose blended projected normals
    do not cancel. *)
Definition blend_not_null (alpha : R) (svbrdf_0 svbrdf_1 : vec R) : Prop :=
  length svbrdf_0 = 12 /\ length svbrdf_1 = 12 /\
  blend [alpha] (project_normals (firstn 3 svbrdf_0))
                (project_normals (firstn 3 svbrdf_1)) <> [0%R; 0%R; 0%R].

(** In exact arithmetic: a packed cell whose normal has length 1. *)
Definition unit_normal (svbrdf : vec R) : Prop :=
  length svbrdf = 12 /\ norm (firstn 3 svbrdf) = [1%R].

(** The blend factor [mix] draws in the generator state [r]. *)
Definition drawn_alpha {F : Type} {SF : Scalar F} (r : Rng F) : F :=
  funiform (uniform_source r (position r)) (lit 1 10) (lit 9 10).

(** C6 as the specification states it, in exact arithmetic: the first light
    pose is drawn in [-0.75, 0.75]^2 at the height 2.197, the first view
    pose in [-0.25, 0.25]^2 at the height 2.75. *)
Definition first_poses_fixed
    (sampler : nat -> R -> R -> M R (list (vec R))) (torch_exp : R -> R)
    (use_augmentation : bool) (n : nat) (r : Rng R) : Prop :=
  exists view_poses light_poses light_colors r' lx ly vx vy,
    sample_scenes sampler torch_exp use_augmentation n r
      = Some ((view_poses, light_poses, light_colors), r') /\
    hd [] light_poses = [lx; ly; 2197 / 1000]%R /\
    (- (75 / 100) <= lx <= 75 / 100)%R /\ (- (75 / 100) <= ly <= 75 / 100)%R /\
    hd [] view_poses = [vx; vy; 275 / 100]%R /\
    (- (25 / 100) <= vx <= 25 / 100)%R /\ (- (25 / 100) <= vy <= 25 / 100)%R.

(** The raw draws of a generator lie in [0, 1). *)
Definition raw_draws_in_unit (r : Rng R) : Prop :=
  forall k, (0 <= uniform_source r k < 1)%R.

(** What is asked of the hemisphere sampler, which is not among the
    sources: it returns, and it leaves the raw draws to come as they
    were. *)
Definition sampler_returns (sampler : nat -> R -> R -> M R (list (vec R)))
    : Prop :=
  forall n lo hi r,
    exists directions r',
      sampler n lo hi r = Some (directions, r') /\
      uniform_source r' = uniform_source r.

(** A computation that returns and leaves the raw draws as they were. *)
Definition steady {A : Type} (c : M R A) : Prop :=
  forall r, exists x r', c r = Some (x, r') /\ uniform_source r' = uniform_source r.

(** ** Notions for the further properties *)

Section FurtherNotions.

Context {F : Type} {SF : Scalar F}.

(** A packed cell with its three roughness channels floored at 0.001, the
    other channels as they are. *)
Definition floor_roughness (cell : vec F) : vec F :=
  firstn 6 cell ++ clamp_roughness (firstn 3 (skipn 6 cell)) ++ skipn 9 cell.

(** The material [read_sample] makes up for a dataset without material
    maps: the normal (0, 0, 1) and zeros for the other nine channels. *)
Definition dummy_cell : vec F :=
  [zero; zero; one; zero; zero; zero; zero; zero; zero; zero; zero; zero].

(** [n] positions or colours, of three components each. *)
Definition poses (n : nat) (l : list (vec F)) : Prop :=
  length l = n /\ Forall (fun p => length p = 3) l.

End FurtherNotions.

(** ** dataset.py: the dataset of photographs *)

Record ImageDataset : Type := {
  image_base : BaseDataset;
  image_dataset_size : Z;
  linear_input : bool
}.

(** [ImageDataset.__init__]: a [BaseDataset] without material maps. *)
Definition ImageDataset_init (paths : list nat) (image_size input_image_count
    used_input_image_count : Z) (linear_input : bool) : ImageDataset :=
  {| image_base :=
       {| base_file_paths := paths;
          base_input_image_count := input_image_count;
          base_input_material_map_count := 0;
          base_used_input_image_count := used_input_image_count |};
     image_dataset_size := image_size;
     linear_input := linear_input |}.

(** The square that [ImageDataset.__getitem__] crops from images of the
    given width and height: the anchor and the side, as they are passed to
    [utils.crop_square].  A square image is not cropped. *)
Definition crop_window (width height : Z) : option ((Z * Z) * Z) :=
  if (height <? width)%Z then
    (* Landscape *)
    Some ((0, (width - height) / 2), height)%Z
  else if (width <? height)%Z then
    (* Portrait *)
    Some (((height - width) / 2, 0), width)%Z
  else None.

Section ImageDatasetItems.

Context {F : Type} {SF : Scalar F}.

Variable imread : nat -> option (grid F).
Variable crop_square : grid F -> Z * Z -> Z -> grid F.
Variable gamma_decode : F -> F.
(** [torch.nn.functional.interpolate(..., mode='bicubic')] on the batch of
    images. *)
Variable interpolate : list (grid F) -> Z * Z -> option (list (grid F)).

Definition ImageDataset_getitem (self : ImageDataset) (idx : Z)
    : option (list (grid F)) :=
  match read_sample_base imread (image_base self) idx with
  | None => None
  | Some (input_images, _) =>
      let width := Z.of_nat (length (hd [] (hd [] input_images))) in
      let height := Z.of_nat (length (hd [] input_images)) in
      let input_images :=
        match crop_window width height with
        | Some (anchor, size) =>
            map (fun image => crop_square image anchor size) input_images
        | None => input_images
        end in
      match interpolate input_images
              (image_dataset_size self, image_dataset_size self) with
      | None => None
      | Some input_images =>
          let input_images :=
            map (map (map (map (fclamp zero one)))) input_images in
          let input_images :=
            if linear_input self then input_images
            else map (map (map (map gamma_decode))) input_images in
          Some input_images
      end
  end.

End ImageDatasetItems.

(** * Properties *)

(** ** Shapes *)

Section Shapes.

Context {F : Type} {SF : Scalar F}.

Lemma length_zip_with (f : F -> F -> F) (a b : vec F) :
  length (zip_with f a b) = Nat.min (length a) (length b).
Proof.
  revert b; induction a as [|x a IH]; intros [|y b]; simpl; auto.
Qed.

Lemma length_bzip (f : F -> F -> F) (a b : vec F) :
  length (bzip f a b) = bshape (length a) (length b).
Proof.
  unfold bzip, bshape.
  destruct a as [|x [|x' a]].
  - destruct b as [|y [|y' b]]; reflexivity.
  - simpl. now rewrite length_map.
  - destruct b as [|y [|y' b]]; simpl.
    + reflexivity.
    + now rewrite length_map.
    + now rewrite length_zip_with.
Qed.

Lemma length_vadd (a b : vec F) : length (vadd a b) = bshape (length a) (length b).
Proof. apply length_bzip. Qed.
Lemma length_vsub (a b : vec F) : length (vsub a b) = bshape (length a) (length b).
Proof. apply length_bzip. Qed.
Lemma length_vmul (a b : vec F) : length (vmul a b) = bshape (length a) (length b).
Proof. apply length_bzip. Qed.
Lemma length_vdiv (a b : vec F) : length (vdiv a b) = bshape (length a) (length b).
Proof. apply length_bzip. Qed.

Lemma length_dot_product (a b : vec F) : length (dot_product a b) = 1.
Proof. reflexivity. Qed.

Lemma length_xi (x : vec F) : length (xi x) = length x.
Proof. apply length_map. Qed.

Lemma length_vec_of (p : F * F * F) : length (vec_of p) = 3.
Proof. destruct p as [[x y] z]; reflexivity. Qed.

Lemma length_normalize (a : vec F) : length (normalize a) = length a.
Proof.
  unfold normalize. rewrite length_vdiv, length_map, length_dot_product.
  unfold bshape. destruct (Nat.eqb (length a) 1) eqn:E; simpl.
  - symmetry. now apply Nat.eqb_eq.
  - reflexivity.
Qed.

End Shapes.

Create Rewrite HintDb shape.

#[export] Hint Rewrite @length_vadd @length_vsub @length_vmul @length_vdiv
  @length_dot_product @length_xi @length_vec_of @length_normalize
  @length_map @length_firstn @length_skipn @length_app : shape.

Section ShapesOfTheRenderer.

Context {F : Type} {SF : Scalar F}.

Lemma length_evaluate_brdf (wi wo normals diffuse roughness specular : vec F) :
  length wi = 3 -> length wo = 3 -> length normals = 3 ->
  length diffuse = 3 -> length roughness = 3 -> length specular = 3 ->
  length (evaluate_brdf wi wo normals diffuse roughness specular) = 3.
Proof.
  intros Hwi Hwo Hn Hd Hr Hs.
  unfold evaluate_brdf, compute_specular_term, compute_diffuse_term,
    compute_geometry, compute_g1, compute_microfacet_distribution,
    denominator_part, compute_fresnel.
  autorewrite with shape.
  rewrite ?Hwi, ?Hwo, ?Hn, ?Hd, ?Hr, ?Hs. reflexivity.
Qed.

Lemma unpack_svbrdf_Some (svbrdf : vec F) :
  length svbrdf = 12 ->
  exists normals diffuse roughness specular,
    unpack_svbrdf svbrdf = Some (normals, diffuse, roughness, specular) /\
    normals = firstn 3 svbrdf /\
    diffuse = firstn 3 (skipn 3 svbrdf) /\
    roughness = firstn 3 (skipn 6 svbrdf) /\
    specular = firstn 3 (skipn 9 svbrdf) /\
    length normals = 3 /\ length diffuse = 3 /\
    length roughness = 3 /\ length specular = 3.
Proof.
  intros H. unfold unpack_svbrdf. rewrite H, Nat.eqb_refl.
  do 4 eexists. split; [reflexivity|].
  repeat split; autorewrite with shape; rewrite ?H; reflexivity.
Qed.

(** The two factors of the radiance at a pixel: three channels of lit
    BRDF, one of clamped cosine. *)
Lemma render_cell_factors_Some (scene : Scene F) (coords svbrdf : vec F) :
  length coords = 3 -> length svbrdf = 12 ->
  exists lit_brdf,
    render_cell_factors scene coords svbrdf
      = Some (lit_brdf,
              map (fclamp_min zero)
                  (dot_product
                     (normalize (vsub (vec_of (light_pos (light scene))) coords))
                     (firstn 3 svbrdf))) /\
    length lit_brdf = 3.
Proof.
  intros Hc Hs. unfold render_cell_factors.
  destruct (unpack_svbrdf_Some svbrdf Hs)
    as (n & d & r & s & -> & -> & _ & _ & _ & Hn & Hd & Hr & Hsp).
  eexists. split; [reflexivity|].
  unfold clamp_roughness. autorewrite with shape.
  rewrite length_evaluate_brdf; autorewrite with shape; rewrite ?Hc, ?Hs; auto.
Qed.

(** At a pixel, [render] returns the clamp of the radiance, on three
    channels. *)
Lemma render_cell_Some (scene : Scene F) (coords svbrdf : vec F) :
  length coords = 3 -> length svbrdf = 12 ->
  exists radiance,
    render_cell scene coords svbrdf = Some (map (fclamp zero one) radiance) /\
    length radiance = 3.
Proof.
  intros Hc Hs. unfold render_cell.
  destruct (render_cell_factors_Some scene coords svbrdf Hc Hs)
    as (x & -> & Hx).
  eexists. split; [reflexivity|].
  autorewrite with shape. now rewrite Hx.
Qed.

End ShapesOfTheRenderer.

(** ** Mapping over two grids *)

Section Map2M.

Context {A B C : Type} (f : A -> B -> option C).

Lemma map2M_length (a : list A) (b : list B) (c : list C) :
  map2M f a b = Some c -> length a = length c /\ length b = length c.
Proof.
  revert b c; induction a as [|x a IH]; intros [|y b] c; simpl; try discriminate.
  - intros [= <-]. auto.
  - destruct (f x y) as [z|]; [|discriminate].
    destruct (map2M f a b) as [zs|] eqn:E; [|discriminate].
    intros [= <-]. destruct (IH _ _ E). simpl; auto.
Qed.

Lemma map2M_nth_error (a : list A) (b : list B) (c : list C) (i : nat) x y :
  map2M f a b = Some c ->
  nth_error a i = Some x -> nth_error b i = Some y ->
  exists z, nth_error c i = Some z /\ f x y = Some z.
Proof.
  revert b c i; induction a as [|x0 a IH]; intros [|y0 b] c i; simpl;
    try discriminate.
  - destruct i; discriminate.
  - destruct (f x0 y0) as [z0|] eqn:E0; [|discriminate].
    destruct (map2M f a b) as [zs|] eqn:E; [|discriminate].
    intros [= <-]. destruct i as [|i]; simpl.
    + intros [= <-] [= <-]. eauto.
    + intros Hx Hy. eapply IH; eauto.
Qed.

(** The map succeeds when the lists have one length and [f] succeeds on the
    elements; what [f] guarantees holds of every result. *)
Lemma map2M_Some (Q : A -> Prop) (R : B -> Prop) (P : C -> Prop)
    (a : list A) (b : list B) :
  (forall x y, Q x -> R y -> exists z, f x y = Some z /\ P z) ->
  Forall Q a -> Forall R b -> length a = length b ->
  exists c, map2M f a b = Some c /\ Forall P c.
Proof.
  intros Hf. revert b; induction a as [|x a IH]; intros [|y b] Ha Hb Hl;
    simpl in *; try discriminate.
  - eauto.
  - inversion Ha; inversion Hb; subst.
    destruct (Hf x y) as (z & -> & Hz); auto.
    destruct (IH b) as (zs & -> & Hzs); auto.
    eauto.
Qed.

End Map2M.

Section SurfaceCoordinates.

Context {F : Type} {SF : Scalar F}.

Lemma length_linspace (start stop : F) (steps : nat) :
  length (linspace start stop steps) = steps.
Proof.
  destruct steps as [|[|n]]; simpl; auto.
  now rewrite length_map, length_seq.
Qed.

Lemma length_cons_columns {A : Type} (row : list A) (g : list (list A)) :
  length (cons_columns row g) = Nat.min (length row) (length g).
Proof.
  revert g; induction row as [|x row IH]; intros [|col g]; simpl; auto.
Qed.

Lemma Forall_cons_columns {A : Type} (P : A -> Prop) (n : nat)
    (row : list A) (g : list (list A)) :
  Forall P row ->
  Forall (fun col => length col = n /\ Forall P col) g ->
  Forall (fun col => length col = S n /\ Forall P col) (cons_columns row g).
Proof.
  revert g; induction row as [|x row IH]; intros [|col g] Hr Hg; simpl; auto.
  inversion Hr; inversion Hg; subst.
  constructor; [|auto].
  destruct H5 as [<- Hc]. split; auto.
Qed.

(** The transpose of an [h] x [w] grid is a [w] x [h] grid. *)
Lemma transpose_shape {A : Type} (P : A -> Prop) (h w : nat)
    (g : list (list A)) :
  length g = h ->
  Forall (fun row => length row = w /\ Forall P row) g ->
  length (transpose w g) = w /\
  Forall (fun col => length col = h /\ Forall P col) (transpose w g).
Proof.
  revert h; induction g as [|row g IH]; intros h Hh Hg; simpl in *; subst h.
  - rewrite repeat_length. split; auto.
    apply Forall_forall. intros col Hc. apply repeat_spec in Hc. now subst.
  - inversion Hg as [|? ? [Hrow HP] Hg']; subst.
    destruct (IH _ eq_refl Hg') as [Hl Hf].
    split.
    + rewrite length_cons_columns, Hl. apply Nat.min_id.
    + now apply Forall_cons_columns.
Qed.

Lemma Forall_repeat {A : Type} (P : A -> Prop) (x : A) (n : nat) :
  P x -> Forall P (repeat x n).
Proof. intros H; induction n; simpl; auto. Qed.

(** For a square patch the coordinate planes can be stacked, and every
    pixel gets its three coordinates. *)
Lemma surface_coordinates_square (n : nat) :
  exists coords : grid F,
    surface_coordinates n n = Some coords /\ has_shape 3 n n coords.
Proof.
  unfold surface_coordinates, cat_channels, grid_map2M. cbv zeta.
  set (xrow := map (fun x : F => [x]) (linspace (lit (-1) 1) (lit 1 1) n)).
  assert (Hx : length (repeat xrow n) = n /\
               Forall (fun row => length row = n /\
                                  Forall (fun c : vec F => length c = 1) row)
                      (repeat xrow n)).
  { split; [apply repeat_length|]. apply Forall_repeat.
    unfold xrow. rewrite length_map, length_linspace. split; auto.
    apply Forall_forall. intros c Hc. apply in_map_iff in Hc.
    destruct Hc as (x & <- & _). reflexivity. }
  destruct Hx as [Hxl Hxf].
  destruct (@transpose_shape (vec F) (fun c : vec F => length c = 1) n n _
              Hxl Hxf) as [Htl Htf].
  set (ycoords := map (map (map (fmul (lit (-1) 1)))) (transpose n (repeat xrow n))).
  assert (Hy : length ycoords = n /\
               Forall (fun row => length row = n /\
                                  Forall (fun c : vec F => length c = 1) row)
                      ycoords).
  { unfold ycoords. rewrite length_map. split; auto.
    apply Forall_map. eapply Forall_impl; [|exact Htf].
    intros row [Hl Hc]. rewrite length_map. split; auto.
    apply Forall_map. eapply Forall_impl; [|exact Hc].
    intros c Hcl. now rewrite length_map. }
  destruct Hy as [Hyl Hyf].
  set (zeros := map (map (map (fun _ : F => zero))) (repeat xrow n)).
  assert (Hz : length zeros = n /\
               Forall (fun row => length row = n /\
                                  Forall (fun c : vec F => length c = 1) row)
                      zeros).
  { unfold zeros. rewrite length_map. split; auto.
    apply Forall_map. eapply Forall_impl; [|exact Hxf].
    intros row [Hl Hc]. rewrite length_map. split; auto.
    apply Forall_map. eapply Forall_impl; [|exact Hc].
    intros c Hcl. now rewrite length_map. }
  destruct Hz as [Hzl Hzf].
  assert (Hcat : forall (k m : nat) (a b : grid F),
    length a = n -> length b = n ->
    Forall (fun row => length row = n /\ Forall (fun c : vec F => length c = k) row) a ->
    Forall (fun row => length row = n /\ Forall (fun c : vec F => length c = m) row) b ->
    exists c, map2M (map2M (fun x y : vec F => Some (x ++ y))) a b = Some c /\
              length c = n /\
              Forall (fun row => length row = n /\
                                 Forall (fun c : vec F => length c = k + m) row) c).
  { intros k m a b Hal Hbl Haf Hbf.
    destruct (@map2M_Some _ _ _ (map2M (fun x y : vec F => Some (x ++ y)))
                (fun row => length row = n /\ Forall (fun c : vec F => length c = k) row)
                (fun row => length row = n /\ Forall (fun c : vec F => length c = m) row)
                (fun row => length row = n /\ Forall (fun c : vec F => length c = k + m) row)
                a b) as (c & Hc & Hcf); auto; [|congruence|].
    - intros ra rb [Hra Hfa] [Hrb Hfb].
      destruct (@map2M_Some _ _ _ (fun x y : vec F => Some (x ++ y))
                  (fun c : vec F => length c = k) (fun c : vec F => length c = m)
                  (fun c : vec F => length c = k + m) ra rb) as (r & Hr & Hrf);
        auto; [|congruence|].
      + intros x y Hxk Hym. eexists; split; [reflexivity|].
        now rewrite length_app, Hxk, Hym.
      + exists r. split; auto. split; auto.
        apply map2M_length in Hr. destruct Hr as [Hr _]. congruence.
    - exists c. split; auto. split; auto.
      apply map2M_length in Hc. destruct Hc as [Hc _]. congruence. }
  destruct (Hcat 1 1 _ _ Hxl Hyl Hxf Hyf) as (xy & -> & Hxyl & Hxyf).
  destruct (Hcat 2 1 _ _ Hxyl Hzl Hxyf Hzf) as (c & -> & Hcl & Hcf).
  exists c. split; auto. split; auto.
Qed.

(** On a well-shaped square patch [render] returns an image of the same
    resolution, whose pixels are what [render_cell] returns. *)
Lemma render_Some (P : vec F -> Prop) (scene : Scene F) (n : nat)
    (svbrdf : grid F) :
  has_shape 12 n n svbrdf ->
  (forall coords cell, length coords = 3 -> length cell = 12 ->
     exists out, render_cell scene coords cell = Some out /\ P out) ->
  exists image,
    render scene svbrdf = Some image /\
    length image = n /\
    Forall (fun row => length row = n /\ Forall P row) image.
Proof.
  intros [Hl Hf] Hcell. unfold render. rewrite Hl.
  assert (Hw : length (hd [] svbrdf) = n).
  { destruct svbrdf as [|row g]; simpl in *; [auto|].
    inversion Hf as [|? ? [Hr _] _]; auto. }
  rewrite Hw.
  destruct (surface_coordinates_square n) as (coords & -> & Hcl & Hcf).
  unfold grid_map2M.
  destruct (@map2M_Some _ _ _ (map2M (render_cell scene))
              (fun row => length row = n /\ Forall (fun c : vec F => length c = 3) row)
              (fun row => length row = n /\ Forall (fun c : vec F => length c = 12) row)
              (fun row => length row = n /\ Forall P row)
              coords svbrdf) as (image & Hi & Hif); auto; [|congruence|].
  - intros rc rs [Hrc Hfc] [Hrs Hfs].
    destruct (@map2M_Some _ _ _ (render_cell scene)
                (fun c : vec F => length c = 3) (fun c : vec F => length c = 12)
                P rc rs) as (r & Hr & Hrf); auto; [congruence|].
    exists r. split; auto. split; auto.
    apply map2M_length in Hr. destruct Hr as [Hr _]. congruence.
  - exists image. split; auto. split; auto.
    apply map2M_length in Hi. destruct Hi as [Hi _]. congruence.
Qed.

End SurfaceCoordinates.

(** ** Order and special values of binary32 *)

Module F32Facts.

Import F32.

Lemma compare_antisym (x y : t) :
  SFcompare y x = option_map CompOpp (SFcompare x y).
Proof.
  destruct x as [sx|sx| |sx mx ex], y as [sy|sy| |sy my ey]; simpl;
    try destruct sx; try destruct sy; simpl; try reflexivity.
  all: rewrite (Z.compare_antisym ey ex);
    destruct (Z.compare ey ex); simpl; try reflexivity;
    pose proof (Pos.compare_cont_antisym mx my Eq) as Hm; simpl in Hm;
    rewrite <- Hm, ?CompOpp_involutive; reflexivity.
Qed.

(** Away from NaN the order is total. *)
Lemma not_ltb_leb (x y : t) :
  is_nan x = false -> is_nan y = false -> ltb x y = false -> leb y x = true.
Proof.
  unfold ltb, leb, SFltb, SFleb. intros Hx Hy.
  rewrite (compare_antisym x y).
  destruct (SFcompare x y) as [[| |]|] eqn:E; simpl; try easy.
  destruct x, y; simpl in *; discriminate.
Qed.

Lemma ltb_leb (x y : t) : ltb x y = true -> leb x y = true.
Proof.
  unfold ltb, leb, SFltb, SFleb.
  destruct (SFcompare x y) as [[| |]|]; easy.
Qed.

Lemma leb_refl (x : t) : is_nan x = false -> leb x x = true.
Proof.
  unfold leb, SFleb. destruct x as [s|s| |s m e]; simpl; try easy.
  - destruct s; reflexivity.
  - destruct s; rewrite Z.compare_refl, Pos.compare_cont_refl; reflexivity.
Qed.

(** [torch.clamp(x, min=lo)] is at least [lo], unless it is NaN. *)
Lemma clamp_lo_floor (lo x : t) :
  is_nan lo = false ->
  is_nan (clamp_lo lo x) = true \/ leb lo (clamp_lo lo x) = true.
Proof.
  intros Hlo. unfold clamp_lo.
  destruct (ltb x lo) eqn:E.
  - right. now apply leb_refl.
  - destruct (is_nan x) eqn:Hx; [now left|right].
    now apply not_ltb_leb.
Qed.

(** NaN passes through the clamp: no comparison with it holds. *)
Lemma clamp_lo_nan (lo : t) : clamp_lo lo S754_nan = S754_nan.
Proof. unfold clamp_lo, ltb, SFltb. now destruct lo. Qed.

Lemma clamp_lo_hi_nan (lo hi : t) : clamp_lo_hi lo hi S754_nan = S754_nan.
Proof.
  unfold clamp_lo_hi. rewrite clamp_lo_nan.
  unfold ltb, SFltb. now destruct hi.
Qed.

(** [torch.clamp(x, min=0.0, max=1.0)] lies in [0, 1], unless it is NaN. *)
Lemma clamp_unit (x : t) :
  is_nan (clamp_lo_hi (literal 0 1) (literal 1 1) x) = true \/
  in_unit (clamp_lo_hi (literal 0 1) (literal 1 1) x) = true.
Proof.
  unfold clamp_lo_hi, clamp_lo.
  destruct (ltb x (literal 0 1)) eqn:E0.
  - right. vm_compute. reflexivity.
  - destruct (ltb (literal 1 1) x) eqn:E1.
    + right. vm_compute. reflexivity.
    + destruct (is_nan x) eqn:Hx; [now left|right].
      unfold in_unit. apply andb_true_intro. split.
      * now apply not_ltb_leb.
      * now apply not_ltb_leb.
Qed.

(** The product with a zero is a zero, unless it is NaN. *)
Lemma mul_zero_r (x z : t) :
  is_zero z = true ->
  is_zero (SFmul prec emax x z) = true \/ is_nan (SFmul prec emax x z) = true.
Proof.
  destruct z; try discriminate. intros _.
  destruct x; simpl; auto.
Qed.

Lemma mul_zero_r_finite (x z : t) :
  is_zero z = true -> is_finite x = true ->
  is_zero (SFmul prec emax x z) = true.
Proof.
  destruct z; try discriminate. intros _.
  destruct x; simpl; auto.
Qed.

End F32Facts.

(** ** The image of [render]: shape and range *)

Section RadianceBounds.

Import F32 F32Facts.

(** C1, counterexample: with the light in the plane of the flat patch the
    image holds NaN, which lies in no interval. *)
Lemma radiance_bounds_fails_light_in_plane :
  ~ radiance_bounds Samples.scene_light_in_plane (Samples.flat_patch 2) 2.
Proof.
  intros (image & Hr & _ & Hv).
  vm_compute in Hr. injection Hr as <-.
  inversion Hv as [|row rows Hrow _]; subst.
  inversion Hrow as [|cell cells Hcell _]; subst.
  inversion Hcell as [|v vs Hin _]; subst.
  vm_compute in Hin. discriminate.
Qed.

(** C1, as amended: for every scene and every 12-channel square patch,
    [render] returns an image with three channels and the resolution of the
    input, and every value of it lies in [0, 1] or is NaN. *)
Theorem render_shape_and_range (scene : Scene t) (svbrdf : grid t) (n : nat) :
  has_shape 12 n n svbrdf ->
  exists image,
    render scene svbrdf = Some image /\
    has_shape 3 n n image /\
    values_in (fun v => is_nan v = true \/ in_unit v = true) image.
Proof.
  intros Hs.
  destruct (@render_Some t _
              (fun out => length out = 3 /\
                          Forall (fun v => is_nan v = true \/ in_unit v = true) out)
              scene n svbrdf Hs) as (image & Hr & Hl & Hf).
  - intros coords cell Hc Hcell.
    destruct (render_cell_Some scene coords cell Hc Hcell) as (rad & -> & Hrad).
    eexists; split; [reflexivity|]. split.
    + now rewrite length_map.
    + apply Forall_map. apply Forall_forall. intros x _. apply clamp_unit.
  - exists image. split; [exact Hr|]. split.
    + split; [exact Hl|].
      eapply Forall_impl; [|exact Hf]. intros row [Hrow Hcells]. split; auto.
      eapply Forall_impl; [|exact Hcells]. now intros c [Hc _].
    + unfold values_in.
      eapply Forall_impl; [|exact Hf]. intros row [_ Hcells].
      eapply Forall_impl; [|exact Hcells]. now intros c [_ Hc].
Qed.

(** A patch that is not square is refused: the coordinate planes cannot be
    stacked. *)
Lemma render_refuses_non_square :
  render Samples.scene_overhead [[Samples.flat_cell; Samples.flat_cell]] = None.
Proof. vm_compute. reflexivity. Qed.

Lemma render_shape_and_range_witness :
  has_shape 12 2 2 (Samples.flat_patch 2) /\
  exists image,
    render Samples.scene_overhead (Samples.flat_patch 2) = Some image /\
    has_shape 3 2 2 image /\
    values_in (fun v => is_nan v = true \/ in_unit v = true) image.
Proof.
  assert (H : has_shape 12 2 2 (Samples.flat_patch 2)).
  { split; [reflexivity|]. repeat constructor. }
  split; [exact H|].
  exact (render_shape_and_range Samples.scene_overhead H).
Defined.

End RadianceBounds.

(** ** Pixels of the image *)

Section Pixels.

Context {F : Type} {SF : Scalar F}.

Lemma grid_map2M_nth {A B C : Type} (f : A -> B -> option C)
    (a : list (list A)) (b : list (list B)) (g : list (list C))
    (r c : nat) (x : A) (y : B) :
  grid_map2M f a b = Some g ->
  grid_nth a r c = Some x -> grid_nth b r c = Some y ->
  exists z, grid_nth g r c = Some z /\ f x y = Some z.
Proof.
  unfold grid_map2M, grid_nth, and_then. intros Hg Ha Hb.
  destruct (nth_error a r) as [ra|] eqn:Era; [|discriminate].
  destruct (nth_error b r) as [rb|] eqn:Erb; [|discriminate].
  destruct (map2M_nth_error _ _ _ _ Hg Era Erb) as (rg & -> & Hrow).
  exact (map2M_nth_error _ _ _ _ Hrow Ha Hb).
Qed.

(** The pixel of the image at a position is [render_cell] of the
    coordinates and of the material at that position. *)
Lemma render_pixel (scene : Scene F) (svbrdf image coords : grid F)
    (r c : nat) (coord cell : vec F) :
  render scene svbrdf = Some image ->
  surface_coordinates (length svbrdf) (length (hd [] svbrdf)) = Some coords ->
  grid_nth coords r c = Some coord -> grid_nth svbrdf r c = Some cell ->
  exists pixel,
    grid_nth image r c = Some pixel /\
    render_cell scene coord cell = Some pixel.
Proof.
  unfold render. intros Hr Hc. rewrite Hc in Hr.
  now apply grid_map2M_nth.
Qed.

Lemma grid_nth_shape (k h w : nat) (g : grid F) (r c : nat) (cell : vec F) :
  has_shape k h w g -> grid_nth g r c = Some cell -> length cell = k.
Proof.
  intros [_ Hf]. unfold grid_nth, and_then.
  destruct (nth_error g r) as [row|] eqn:Er; [|discriminate].
  intros Hc. apply nth_error_In in Er, Hc.
  rewrite Forall_forall in Hf. destruct (Hf _ Er) as [_ Hrow].
  rewrite Forall_forall in Hrow. now apply Hrow.
Qed.

Lemma has_shape_width (k n : nat) (g : grid F) :
  has_shape k n n g -> length g = n /\ length (hd [] g) = n.
Proof.
  intros [Hl Hf]. split; [exact Hl|].
  destruct g as [|row g]; simpl in *; [auto|].
  inversion Hf as [|? ? [Hr _] _]; auto.
Qed.

(** Against one channel, a broadcast operator maps over the other
    operand. *)
Lemma bzip_one_channel (f : F -> F -> F) (a : vec F) (y : F) :
  bzip f a [y] = map (fun x => f x y) a.
Proof. destruct a as [|x [|x' a]]; reflexivity. Qed.

End Pixels.

(** ** Horizon zeroing *)

Section Horizon.

Import F32 F32Facts.

Lemma clamp_lo_zero_of_nonpositive (d : t) :
  leb d (literal 0 1) = true -> is_zero (clamp_lo (literal 0 1) d) = true.
Proof.
  change (literal 0 1) with (S754_zero false).
  unfold clamp_lo, leb, ltb, SFleb, SFltb.
  destruct d as [s|s| |s m e]; simpl; try destruct s; simpl;
    try reflexivity; try discriminate.
Qed.

Lemma clamp_unit_zero (z : t) :
  is_zero z = true ->
  is_zero (clamp_lo_hi (literal 0 1) (literal 1 1) z) = true.
Proof. destruct z as [s|s| |s m e]; try discriminate. now destruct s. Qed.

(** C4, counterexample: the light below the patch, mirror image of the
    camera.  The cosine of the light with the normal is negative at the
    pixel, and the pixel is NaN in its three channels. *)
Lemma horizon_zeroing_fails_light_below :
  ~ horizon_zeroing Samples.scene_light_below (Samples.flat_patch 1).
Proof.
  intros H.
  specialize (H [[[S754_nan; S754_nan; S754_nan]]]
                [[[literal (-1) 1; literal 1 1; literal 0 1]]]
                0 0 [literal (-1) 1; literal 1 1; literal 0 1]
                Samples.flat_cell [S754_nan; S754_nan; S754_nan]).
  assert (Hz : Forall (fun v => is_zero v = true)
                      [S754_nan; S754_nan; S754_nan]).
  { apply H; try (vm_compute; reflexivity).
    vm_compute. repeat constructor. }
  inversion Hz as [|v vs Hv _]; subst. discriminate.
Qed.

(** C4, as amended: at every pixel where the dot product of the light
    direction [wi] with the surface normal is at most zero, every channel of
    the rendered radiance is zero or NaN, and it is zero in all three
    channels when the lit BRDF [f * (light_color * falloff)] is finite
    there. *)
Theorem horizon_zero_or_nan (scene : Scene t) (svbrdf coords : grid t)
    (n r c : nat) (coord cell : vec t) :
  has_shape 12 n n svbrdf ->
  surface_coordinates n n = Some coords ->
  grid_nth coords r c = Some coord ->
  grid_nth svbrdf r c = Some cell ->
  Forall (fun d => leb d zero = true)
         (dot_product (normalize (vsub (vec_of (light_pos (light scene))) coord))
                      (firstn 3 cell)) ->
  exists image pixel lit_brdf cosine,
    render scene svbrdf = Some image /\
    grid_nth image r c = Some pixel /\
    render_cell_factors scene coord cell = Some (lit_brdf, cosine) /\
    length pixel = 3 /\
    Forall (fun v => is_zero v = true \/ is_nan v = true) pixel /\
    (Forall (fun x => is_finite x = true) lit_brdf ->
     Forall (fun v => is_zero v = true) pixel).
Proof.
  intros Hs Hc Hcoord Hcell Hdot.
  destruct (has_shape_width Hs) as [Hl Hw].
  destruct (@render_Some t _ (fun _ => True) scene n svbrdf Hs)
    as (image & Hr & _).
  { intros co ce Hco Hce.
    destruct (render_cell_Some scene co ce Hco Hce) as (rad & -> & _). eauto. }
  assert (Hc' : surface_coordinates (length svbrdf) (length (hd [] svbrdf))
                = Some coords) by now rewrite Hl, Hw.
  destruct (render_pixel scene _ _ _ Hr Hc' Hcoord Hcell) as (pixel & Hp & Hcellr).
  destruct (surface_coordinates_square (F := t) n) as (coords' & Hc2 & Hsh).
  rewrite Hc in Hc2. injection Hc2 as <-.
  pose proof (grid_nth_shape _ _ Hsh Hcoord) as Hlc.
  pose proof (grid_nth_shape _ _ Hs Hcell) as Hlcell.
  destruct (render_cell_factors_Some scene coord cell Hlc Hlcell)
    as (x & Hfac & Hx).
  unfold render_cell in Hcellr. rewrite Hfac in Hcellr.
  unfold dot_product, sum_channels in Hdot, Hfac, Hcellr.
  remember (fold_left fadd
              (vmul (normalize (vsub (vec_of (light_pos (light scene))) coord))
                    (firstn 3 cell)) zero) as d eqn:Ed.
  cbn [map] in Hfac, Hcellr.
  inversion Hdot as [|d' ds Hd _]; subst d' ds.
  apply clamp_lo_zero_of_nonpositive in Hd.
  assert (Hpix : pixel = map (fclamp zero one)
                             (vmul x [fclamp_min zero d])) by congruence.
  exists image, pixel, x, [fclamp_min zero d].
  split; [exact Hr|]. split; [exact Hp|]. split; [exact Hfac|].
  rewrite Hpix. unfold vmul. rewrite bzip_one_channel.
  split; [now rewrite !length_map|].
  split.
  - apply Forall_map, Forall_map, Forall_forall. intros v _.
    destruct (mul_zero_r v _ Hd) as [Hz|Hn].
    + left. now apply clamp_unit_zero.
    + right. simpl in Hn |- *. destruct (SFmul _ _ _ _); try discriminate.
      reflexivity.
  - intros Hfin. apply Forall_map, Forall_map.
    eapply Forall_impl; [|exact Hfin]. intros v Hv.
    apply clamp_unit_zero. now apply mul_zero_r_finite.
Qed.

Lemma horizon_zero_or_nan_witness :
  exists image pixel lit_brdf cosine,
    render Samples.scene_light_low (Samples.flat_patch 1) = Some image /\
    grid_nth image 0 0 = Some pixel /\
    render_cell_factors Samples.scene_light_low
      [literal (-1) 1; literal 1 1; literal 0 1] Samples.flat_cell
      = Some (lit_brdf, cosine) /\
    length pixel = 3 /\
    Forall (fun v => is_zero v = true \/ is_nan v = true) pixel /\
    (Forall (fun x => is_finite x = true) lit_brdf ->
     Forall (fun v => is_zero v = true) pixel).
Proof.
  apply (@horizon_zero_or_nan Samples.scene_light_low (Samples.flat_patch 1)
           [[[literal (-1) 1; literal 1 1; literal 0 1]]] 1 0 0
           [literal (-1) 1; literal 1 1; literal 0 1] Samples.flat_cell).
  - split; [reflexivity|]. repeat constructor.
  - vm_compute. reflexivity.
  - reflexivity.
  - reflexivity.
  - vm_compute. repeat constructor.
Defined.

End Horizon.

(** ** Tracing does not change the image *)

Section TraceFaithful.

Context {F : Type} {SF : Scalar F}.

Lemma map2M_map {A B C A' B' C' : Type}
    (f' : A' -> B' -> option C') (f : A -> B -> option C)
    (ha : A' -> A) (hb : B' -> B) (hc : C' -> C)
    (a : list A') (b : list B') :
  (forall x y, In x a -> In y b ->
     option_map hc (f' x y) = f (ha x) (hb y)) ->
  option_map (map hc) (map2M f' a b) = map2M f (map ha a) (map hb b).
Proof.
  revert b; induction a as [|x a IH]; intros [|y b] H; simpl;
    try reflexivity.
  rewrite <- (H x y) by (now left).
  rewrite <- IH by (intros; apply H; now right).
  destruct (f' x y); simpl; [|reflexivity].
  now destruct (map2M f' a b).
Qed.

Lemma cons_columns_map {A B : Type} (g : A -> B) (row : list A)
    (cols : list (list A)) :
  cons_columns (map g row) (map (map g) cols)
  = map (map g) (cons_columns row cols).
Proof.
  revert cols; induction row as [|x row IH]; intros [|col cols]; simpl;
    try reflexivity.
  now rewrite IH.
Qed.

Lemma transpose_map {A B : Type} (g : A -> B) (w : nat) (l : list (list A)) :
  transpose w (map (map g) l) = map (map g) (transpose w l).
Proof.
  induction l as [|row l IH]; simpl.
  - induction w as [|w IHw]; simpl; [reflexivity|]. now rewrite IHw.
  - now rewrite IH, cons_columns_map.
Qed.

Lemma map_repeat {A B : Type} (g : A -> B) (x : A) (n : nat) :
  map g (repeat x n) = repeat (g x) n.
Proof. induction n as [|n IH]; simpl; [reflexivity|]. now rewrite IH. Qed.

Lemma linspace_untraced (a b : Traced.t F) (n : nat) :
  map Traced.value (linspace a b n)
  = linspace (Traced.value a) (Traced.value b) n.
Proof.
  destruct n as [|[|n]]; try reflexivity.
  unfold linspace. rewrite map_map. apply map_ext. intros i.
  now destruct (Nat.ltb i (Nat.div (S (S n)) 2)).
Qed.

Lemma surface_coordinates_untraced (h w : nat) :
  option_map Traced.untrace (surface_coordinates (F := Traced.t F) h w)
  = surface_coordinates (F := F) h w.
Proof.
  unfold surface_coordinates, cat_channels, grid_map2M. cbv zeta.
  set (xs' := repeat (map (fun x : Traced.t F => [x])
                          (linspace (lit (-1) 1) (lit 1 1) w)) h).
  set (xs := repeat (map (fun x : F => [x])
                         (linspace (lit (-1) 1) (lit 1 1) w)) h).
  assert (Hx : Traced.untrace xs' = xs).
  { unfold Traced.untrace, xs', xs. rewrite map_repeat. f_equal.
    rewrite map_map. simpl.
    change (linspace (F := F) (lit (-1) 1) (lit 1 1) w)
      with (linspace (Traced.value (lit (-1) 1)) (Traced.value (lit 1 1)) w).
    rewrite <- (linspace_untraced (lit (-1) 1) (lit 1 1) w).
    now rewrite map_map. }
  rewrite <- Hx. clearbody xs'. clear xs Hx.
  assert (Hy : Traced.untrace (map (map (map (fmul (lit (-1) 1)))) (transpose w xs'))
               = map (map (map (fmul (lit (-1) 1))))
                     (transpose w (Traced.untrace xs'))).
  { unfold Traced.untrace. rewrite transpose_map.
    rewrite !map_map. apply map_ext. intros row.
    rewrite !map_map. apply map_ext. intros cell.
    rewrite !map_map. apply map_ext. intros v. reflexivity. }
  assert (Hz : Traced.untrace (map (map (map (fun _ : Traced.t F => zero))) xs')
               = map (map (map (fun _ : F => zero))) (Traced.untrace xs')).
  { unfold Traced.untrace.
    rewrite !map_map. apply map_ext. intros row.
    rewrite !map_map. apply map_ext. intros cell.
    rewrite !map_map. apply map_ext. intros v. reflexivity. }
  assert (Hcat : forall a' b' : grid (Traced.t F),
    option_map Traced.untrace
      (map2M (map2M (fun x y : vec (Traced.t F) => Some (x ++ y))) a' b')
    = map2M (map2M (fun x y : vec F => Some (x ++ y)))
            (Traced.untrace a') (Traced.untrace b')).
  { intros a' b'. unfold Traced.untrace. apply map2M_map. intros ra rb _ _.
    apply map2M_map. intros x y _ _. simpl. now rewrite map_app. }
  rewrite <- Hy, <- Hz, <- Hcat.
  destruct (map2M _ xs' _) as [xy|]; simpl; [|reflexivity].
  apply Hcat.
Qed.

Lemma map2M_Forall_out {A B C : Type} (f : A -> B -> option C)
    (Q : A -> Prop) (R : B -> Prop) (P : C -> Prop)
    (a : list A) (b : list B) (c : list C) :
  (forall x y z, Q x -> R y -> f x y = Some z -> P z) ->
  Forall Q a -> Forall R b -> map2M f a b = Some c -> Forall P c.
Proof.
  intros Hf. revert b c; induction a as [|x a IH]; intros [|y b] c Ha Hb;
    simpl; try discriminate.
  - now intros [= <-].
  - inversion Ha; inversion Hb; subst.
    destruct (f x y) as [z|] eqn:Ez; [|discriminate].
    destruct (map2M f a b) as [zs|] eqn:Ezs; [|discriminate].
    intros [= <-]. constructor; eauto.
Qed.

Lemma Forall_cons_columns_cells {A : Type} (P : A -> Prop) (row : list A)
    (cols : list (list A)) :
  Forall P row -> Forall (Forall P) cols ->
  Forall (Forall P) (cons_columns row cols).
Proof.
  revert cols; induction row as [|x row IH]; intros [|col cols] Hr Hc;
    simpl; auto.
  inversion Hr; inversion Hc; subst. constructor; auto.
Qed.

Lemma Forall_transpose {A : Type} (P : A -> Prop) (w : nat)
    (l : list (list A)) :
  Forall (Forall P) l -> Forall (Forall P) (transpose w l).
Proof.
  induction 1 as [|row l Hrow _ IH]; simpl.
  - apply Forall_repeat. constructor.
  - now apply Forall_cons_columns_cells.
Qed.

(** Whatever the shape, a pixel of the coordinate grid has three
    coordinates. *)
Lemma surface_coordinates_cells {G : Type} {SG : Scalar G} (h w : nat)
    (coords : grid G) :
  surface_coordinates h w = Some coords ->
  Forall (Forall (fun c : vec G => length c = 3)) coords.
Proof.
  unfold surface_coordinates, cat_channels, grid_map2M. cbv zeta.
  set (xs := repeat (map (fun x : G => [x])
                         (linspace (lit (-1) 1) (lit 1 1) w)) h).
  assert (Hx : Forall (Forall (fun c : vec G => length c = 1)) xs).
  { apply Forall_repeat. apply Forall_map, Forall_forall. now intros. }
  assert (Hy : Forall (Forall (fun c : vec G => length c = 1))
                 (map (map (map (fmul (lit (-1) 1)))) (transpose w xs))).
  { apply Forall_map. eapply Forall_impl; [|apply Forall_transpose, Hx].
    intros row Hrow. apply Forall_map. eapply Forall_impl; [|exact Hrow].
    intros c Hc. now rewrite length_map. }
  assert (Hz : Forall (Forall (fun c : vec G => length c = 1))
                 (map (map (map (fun _ : G => zero))) xs)).
  { apply Forall_map. eapply Forall_impl; [|exact Hx].
    intros row Hrow. apply Forall_map. eapply Forall_impl; [|exact Hrow].
    intros c Hc. now rewrite length_map. }
  assert (Hcat : forall (k m : nat) (a b c : grid G),
    Forall (Forall (fun c : vec G => length c = k)) a ->
    Forall (Forall (fun c : vec G => length c = m)) b ->
    map2M (map2M (fun x y : vec G => Some (x ++ y))) a b = Some c ->
    Forall (Forall (fun c : vec G => length c = k + m)) c).
  { intros k m a b c Ha Hb. apply map2M_Forall_out with (2 := Ha) (3 := Hb).
    intros ra rb rc Hra Hrb. apply map2M_Forall_out with (2 := Hra) (3 := Hrb).
    intros x y z Hxl Hyl [= <-]. now rewrite length_app, Hxl, Hyl. }
  destruct (map2M _ xs _) as [xy|] eqn:Exy; [|discriminate].
  intros E. exact (Hcat 2 1 _ _ _ (Hcat 1 1 _ _ _ Hx Hy Exy) Hz E).
Qed.

(** At a pixel the traced computation has the values of the plain one. *)
Lemma render_cell_untraced (scene : Scene F) (coords cell : vec (Traced.t F)) :
  length coords = 3 ->
  option_map (map Traced.value)
             (render_cell (Traced.trace_scene scene) coords cell)
  = render_cell scene (map Traced.value coords) (map Traced.value cell).
Proof.
  intros Hc.
  destruct (Nat.eq_dec (length cell) 12) as [Hl|Hl].
  - do 4 (destruct coords as [|? coords]; try discriminate).
    do 13 (destruct cell as [|? cell]; try discriminate).
    destruct scene as [[[[cx cy] cz]] [[[lx ly] lz] [[cr cg] cb]]].
    reflexivity.
  - unfold render_cell, render_cell_factors, unpack_svbrdf.
    rewrite length_map.
    apply Nat.eqb_neq in Hl. now rewrite Hl.
Qed.

(** The traced render returns when the plain one does, with the same
    values: the record of divisors is the record of this computation. *)
Lemma render_untraced (scene : Scene F) (svbrdf : grid F) :
  option_map Traced.untrace
    (render (Traced.trace_scene scene) (Traced.trace_grid svbrdf))
  = render scene svbrdf.
Proof.
  unfold render.
  assert (Hh : length (Traced.trace_grid svbrdf) = length svbrdf)
    by apply length_map.
  assert (Hw : length (hd [] (Traced.trace_grid svbrdf))
               = length (hd [] svbrdf)).
  { destruct svbrdf; simpl; [reflexivity|apply length_map]. }
  rewrite Hh, Hw.
  rewrite <- (surface_coordinates_untraced (length svbrdf)
                                           (length (hd [] svbrdf))).
  destruct (surface_coordinates (F := Traced.t F) (length svbrdf)
              (length (hd [] svbrdf))) as [coords|] eqn:E; simpl;
    [|reflexivity].
  assert (Hu : Traced.untrace (Traced.trace_grid svbrdf) = svbrdf).
  { unfold Traced.untrace, Traced.trace_grid, Traced.trace_vec.
    rewrite map_map. rewrite <- (map_id svbrdf) at 2. apply map_ext.
    intros row. rewrite map_map. rewrite <- (map_id row) at 2.
    apply map_ext. intros cell. rewrite map_map. apply map_id. }
  rewrite <- Hu at 2.
  unfold grid_map2M, Traced.untrace.
  pose proof (surface_coordinates_cells _ _ E) as Hshape.
  apply map2M_map. intros rc rs Hrc _.
  apply map2M_map. intros c s Hc _.
  apply render_cell_untraced.
  rewrite Forall_forall in Hshape. specialize (Hshape _ Hrc).
  rewrite Forall_forall in Hshape. now apply Hshape.
Qed.

End TraceFaithful.

(** ** Divisions *)

Section Divisions.

Import F32 F32Facts.


(** There the render does divide by zero, and still returns: the image is
    NaN. *)
Lemma division_by_zero_light_in_plane :
  option_map (fun img => existsb is_zero (Traced.divisors_of img))
             (render (F := Traced.t t)
                     (Traced.trace_scene Samples.scene_light_in_plane)
                     (Traced.trace_grid (Samples.flat_patch 1)))
    = Some true /\
  render Samples.scene_light_in_plane (Samples.flat_patch 1)
    = Some [[[S754_nan; S754_nan; S754_nan]]].
Proof. split; vm_compute; reflexivity. Qed.

(** With camera and light overhead every divisor is above the floor. *)
Lemma divisors_floored_overhead :
  divisors_floored Samples.scene_overhead (Samples.flat_patch 1).
Proof.
  destruct (render (F := Traced.t t)
                   (Traced.trace_scene Samples.scene_overhead)
                   (Traced.trace_grid (Samples.flat_patch 1)))
    as [image|] eqn:E; [|vm_compute in E; discriminate].
  exists image. split; [exact E|].
  apply Forall_forall. apply forallb_forall.
  assert (E' : option_map
                 (fun img => forallb (fun d => leb (literal 1 1000) d)
                                     (Traced.divisors_of img))
                 (render (F := Traced.t t)
                         (Traced.trace_scene Samples.scene_overhead)
                         (Traced.trace_grid (Samples.flat_patch 1)))
               = Some true) by (vm_compute; reflexivity).
  rewrite E in E'. simpl in E'. injection E' as E'. exact E'.
Qed.



End Divisions.

(** ** The BRDF and its formula *)

Section FormulaOfTheBRDF.

Context {F : Type} {SF : Scalar F}.

(** The one law of the kernels the comparison needs: the product of the
    indicator with [ones_like] is the indicator. *)
Hypothesis indicator_one : forall x : F, fmul (fgt x zero) one = fgt x zero.

Lemma evaluate_brdf_formula_generic (wi wo normals : vec F)
    (d0 d1 d2 r0 r1 r2 s0 s1 s2 : F) :
  let H := normalize (map (fun v => fdiv v (lit 2 1)) (vadd wi wo)) in
  let NH := hd zero (dot_product normals H) in
  let VH := hd zero (dot_product wo H) in
  let LH := hd zero (dot_product wi H) in
  let VN := hd zero (dot_product wo normals) in
  let LN := hd zero (dot_product wi normals) in
  evaluate_brdf wi wo normals [d0; d1; d2] [r0; r1; r2] [s0; s1; s2]
  = [brdf_formula NH VH LH VN LN d0 r0 s0;
     brdf_formula NH VH LH VN LN d1 r1 s1;
     brdf_formula NH VH LH VN LN d2 r2 s2].
Proof.
  intros H NH VH LH VN LN.
  unfold evaluate_brdf, compute_specular_term, compute_diffuse_term,
    compute_geometry, compute_g1, compute_microfacet_distribution,
    denominator_part, compute_fresnel.
  fold H. unfold dot_product, sum_channels in *. simpl hd in *.
  fold NH VH LH VN LN.
  unfold xi, vadd, vsub, vmul, vdiv. simpl.
  rewrite !indicator_one. reflexivity.
Qed.

End FormulaOfTheBRDF.

Section FormulaOfTheBRDFInBinary32.

Import F32.

Lemma indicator_one_binary32 (x : t) :
  fmul (fgt x zero) one = fgt x zero.
Proof.
  simpl. unfold greater. destruct (ltb _ x); vm_compute; reflexivity.
Qed.


End FormulaOfTheBRDFInBinary32.

(** ** The mixer: unit normals *)

Section MixerBinary32.

Import F32.


(** The blend factor one half is drawn, by the raw draw next above one
    half; [mix] then returns NaN normals for these two materials. *)
Lemma one_half_is_drawn :
  drawn_alpha Samples.rng_above_one_half = literal 1 2 /\
  option_map (fun m => map (map (firstn 3)) (fst m))
    (mix [[Samples.cell_with_normal (1, 0, 0)%Z]]
         [[Samples.cell_with_normal (-1, 0, 0)%Z]]
         Samples.rng_above_one_half)
  = Some [[[S754_nan; S754_nan; S754_nan]]].
Proof. split; vm_compute; reflexivity. Qed.

(** In binary32 too the flat material mixed with itself comes back, bit for
    bit. *)
Lemma mix_same_flat_binary32 :
  option_map fst
    (mix (Samples.flat_patch 2) (Samples.flat_patch 2) Samples.rng_one_half)
  = Some (Samples.flat_patch 2).
Proof. vm_compute. reflexivity. Qed.

End MixerBinary32.

Section MixerExact.

Import Exact.

Local Open Scope R_scope.

Lemma sum_of_squares (x y z : R) :
  literal 0 1 + x * (x * literal 1 1) + y * (y * literal 1 1)
  + z * (z * literal 1 1) = x * x + y * y + z * z.
Proof. unfold literal. field. Qed.

Lemma blend_same (alpha x : R) :
  alpha * x + (literal 1 1 - alpha) * x = x.
Proof. unfold literal. field. Qed.

Lemma floor_positive (z : R) : 0 < Rmax (literal 1 100) z.
Proof.
  apply Rlt_le_trans with (literal 1 100); [unfold literal; lra|apply Rmax_l].
Qed.

Lemma sqrt_one_inv (s : R) : 0 <= s -> sqrt s = 1 -> s = 1.
Proof.
  intros Hs H. rewrite <- (sqrt_sqrt s Hs). rewrite H. ring.
Qed.

(** A vector that is not null, divided by its length, has length 1. *)
Lemma normalized_length (x y z : R) :
  [x; y; z] <> [0; 0; 0] ->
  let s := sqrt (x * x + y * y + z * z) in
  sqrt (x / s * (x / s) + y / s * (y / s) + z / s * (z / s)) = 1.
Proof.
  intros Hv s.
  assert (Hpos : 0 < x * x + y * y + z * z).
  { destruct (Rlt_dec 0 (x * x + y * y + z * z)) as [H|H]; [exact H|].
    exfalso. apply Hv.
    assert (x = 0) by nra. assert (y = 0) by nra. assert (z = 0) by nra.
    now subst. }
  assert (Hs : 0 < s) by (now apply sqrt_lt_R0).
  assert (Hss : s * s = x * x + y * y + z * z)
    by (apply sqrt_sqrt; lra).
  apply sqrt_lem_1; try lra.
  - assert (0 <= (x / s) * (x / s)) by nra.
    assert (0 <= (y / s) * (y / s)) by nra.
    assert (0 <= (z / s) * (z / s)) by nra. lra.
  - replace (x / s * (x / s) + y / s * (y / s) + z / s * (z / s))
      with ((x * x + y * y + z * z) / (s * s)) by (field; lra).
    rewrite Hss. field. lra.
Qed.

(** At a pixel where the blend of the projected normals is not null, the
    mixed normal has length 1. *)
Lemma mix_cell_unit (alpha : R) (c0 c1 : vec R) :
  blend_not_null alpha c0 c1 ->
  exists mixed, mix_cell [alpha] c0 c1 = Some mixed /\ unit_normal mixed.
Proof.
  intros (H0 & H1 & Hv).
  do 13 (destruct c0 as [|? c0]; try discriminate).
  do 13 (destruct c1 as [|? c1]; try discriminate).
  unfold mix_cell, unit_normal, norm, blend, project_normals in *.
  simpl in *.
  eexists. split; [reflexivity|]. split; [reflexivity|].
  simpl. rewrite sum_of_squares.
  match type of Hv with
  | [?x; ?y; ?z] <> _ =>
      pose proof (normalized_length Hv) as Hn; simpl in Hn;
      rewrite <- (sum_of_squares x y z) in Hn
  end.
  now rewrite Hn.
Qed.

(** Mixing a pixel of unit normal with itself gives it back. *)
Lemma mix_cell_same (alpha : R) (c : vec R) :
  unit_normal c -> mix_cell [alpha] c c = Some c.
Proof.
  intros [Hl Hn].
  do 13 (destruct c as [|? c]; try discriminate).
  unfold mix_cell, norm, blend, project_normals in *. simpl in *.
  rewrite !blend_same, sum_of_squares.
  rewrite sum_of_squares in Hn. injection Hn as Hn.
  apply sqrt_one_inv in Hn; [|nra].
  set (c := Rmax (literal 1 100) r1).
  assert (Hc : 0 < c) by apply floor_positive.
  assert (Hs : sqrt (r / c * (r / c) + r0 / c * (r0 / c) + r1 / c * (r1 / c))
               = / c).
  { apply sqrt_lem_1.
    - assert (0 <= (r / c) * (r / c)) by nra.
      assert (0 <= (r0 / c) * (r0 / c)) by nra.
      assert (0 <= (r1 / c) * (r1 / c)) by nra. lra.
    - left. now apply Rinv_0_lt_compat.
    - replace (r / c * (r / c) + r0 / c * (r0 / c) + r1 / c * (r1 / c))
        with ((r * r + r0 * r0 + r1 * r1) / (c * c)) by (field; lra).
      rewrite Hn. field. lra. }
  rewrite Hs. unfold pack_svbrdf. simpl.
  repeat f_equal; field; lra.
Qed.

Lemma map2M_Forall2 {A B C : Type} (f : A -> B -> option C)
    (P : C -> Prop) (a : list A) (b : list B) :
  Forall2 (fun x y => exists z, f x y = Some z /\ P z) a b ->
  exists c, map2M f a b = Some c /\ Forall P c.
Proof.
  induction 1 as [|x y a b (z & Hz & HP) _ (c & Hc & HPc)]; simpl.
  - eauto.
  - rewrite Hz, Hc. eauto.
Qed.

Lemma map2M_diagonal {A : Type} (f : A -> A -> option A) (a : list A) :
  Forall (fun x => f x x = Some x) a -> map2M f a a = Some a.
Proof.
  induction 1 as [|x a Hx _ IH]; simpl; [reflexivity|].
  now rewrite Hx, IH.
Qed.

(** Normals that point away from the surface do not cancel in the blend. *)
Lemma blend_not_null_positive_z (alpha : R) (c0 c1 : vec R) :
  length c0 = 12%nat -> length c1 = 12%nat ->
  0 < alpha < 1 -> 0 < nth 2 c0 0 -> 0 < nth 2 c1 0 ->
  blend_not_null alpha c0 c1.
Proof.
  intros H0 H1 Ha Hz0 Hz1. split; [exact H0|]. split; [exact H1|].
  do 13 (destruct c0 as [|? c0]; try discriminate).
  do 13 (destruct c1 as [|? c1]; try discriminate).
  unfold blend, project_normals. simpl in *.
  intros H. injection H as _ _ H.
  pose proof (floor_positive r1) as Hc0.
  pose proof (floor_positive r13) as Hc1.
  assert (0 < r1 / Rmax (literal 1 100) r1) by (now apply Rdiv_lt_0_compat).
  assert (0 < r13 / Rmax (literal 1 100) r13) by (now apply Rdiv_lt_0_compat).
  unfold literal in H at 2. nra.
Qed.


Lemma flat_cell_exact_unit : unit_normal Samples.flat_cell_exact.
Proof.
  split; [reflexivity|].
  unfold norm. simpl. rewrite sum_of_squares.
  replace (0 * 0 + 0 * 0 + 1 * 1) with 1 by ring.
  now rewrite sqrt_1.
Qed.


(** C7: in exact arithmetic, for every material whose normals have length
    1 and for every drawn blend factor, [mix] of the material with itself
    returns the material, in its four maps. *)
Theorem mix_same_material (svbrdf : grid R) (r : Rng R) :
  Forall (Forall unit_normal) svbrdf ->
  mix svbrdf svbrdf r = Some (svbrdf, advance r).
Proof.
  intros H.
  assert (Hm : mix_with (drawn_alpha r) svbrdf svbrdf = Some svbrdf).
  { unfold mix_with, grid_map2M. apply map2M_diagonal.
    eapply Forall_impl; [|exact H].
    intros row Hrow. apply map2M_diagonal.
    eapply Forall_impl; [|exact Hrow].
    intros c Hc. now apply mix_cell_same. }
  unfold mix, bind, uniform_, lift. fold (drawn_alpha r). now rewrite Hm.
Qed.

Lemma mix_same_material_witness :
  mix [[Samples.flat_cell_exact]] [[Samples.flat_cell_exact]]
      (Samples.constant_rng (1/2))
    = Some ([[Samples.flat_cell_exact]], advance (Samples.constant_rng (1/2))).
Proof.
  apply mix_same_material.
  repeat constructor; apply flat_cell_exact_unit.
Defined.

End MixerExact.

(** ** The first sampled poses *)

Section FirstPoses.

Import Exact.

Local Open Scope R_scope.

Variable sampler : nat -> R -> R -> M R (list (vec R)).
Variable torch_exp : R -> R.

Lemma steady_ret {A : Type} (x : A) : steady (ret x).
Proof. intros r. exists x, r. now split. Qed.

Lemma steady_bind {A B : Type} (c : M R A) (k : A -> M R B) :
  steady c -> (forall x, steady (k x)) -> steady (bind c k).
Proof.
  intros Hc Hk r. destruct (Hc r) as (x & r1 & E1 & S1).
  destruct (Hk x r1) as (y & r2 & E2 & S2).
  exists y, r2. unfold bind. rewrite E1. split; [exact E2|congruence].
Qed.

Lemma steady_uniform (lo hi : R) : steady (uniform_ lo hi).
Proof. intros r. do 2 eexists. split; reflexivity. Qed.

Lemma steady_normal (mean std : R) : steady (normal_ mean std).
Proof. intros r. do 2 eexists. split; reflexivity. Qed.

Lemma steady_replicateM {A : Type} (n : nat) (c : M R A) :
  steady c -> steady (replicateM n c).
Proof.
  intros Hc. induction n as [|n IH]; simpl.
  - apply steady_ret.
  - apply steady_bind; [exact Hc|]. intros x.
    apply steady_bind; [exact IH|]. intros xs. apply steady_ret.
Qed.

Lemma steady_light_colors (aug : bool) (n : nat) :
  steady (sample_light_colors torch_exp aug n).
Proof.
  unfold sample_light_colors.
  apply steady_bind.
  - destruct aug; [|apply steady_ret].
    apply steady_bind; [apply steady_normal|]. intros log_std.
    apply steady_bind; [apply steady_replicateM, steady_normal|].
    intros draws. apply steady_ret.
  - intros colors. destruct aug; [|apply steady_ret].
    apply steady_bind.
    + apply steady_replicateM, steady_replicateM, steady_normal.
    + intros wb. apply steady_ret.
Qed.

(** A draw of [uniform_(lo, hi)] lies between the bounds. *)
Lemma uniform_range (lo hi u : R) :
  lo <= hi -> 0 <= u < 1 -> lo <= u * (hi - lo) + lo <= hi.
Proof. intros Hlh Hu. nra. Qed.

(** Two draws of [uniform_], one after the other. *)
Lemma draw_pair (lo hi : R) (r : Rng R) :
  replicateM 2 (uniform_ lo hi) r
  = Some ([uniform_source r (position r) * (hi - lo) + lo;
           uniform_source r (S (position r)) * (hi - lo) + lo],
          advance (advance r)).
Proof. reflexivity. Qed.

Hypothesis sampler_ok : sampler_returns sampler.

Lemma first_light_pose (n : nat) (r : Rng R) :
  raw_draws_in_unit r ->
  exists x y rest r',
    sample_light_poses sampler n r = Some ([x; y; 2197 / 1000] :: rest, r') /\
    - (75 / 100) <= x <= 75 / 100 /\ - (75 / 100) <= y <= 75 / 100 /\
    uniform_source r' = uniform_source r.
Proof.
  intros Hr. unfold sample_light_poses, bind. rewrite draw_pair.
  assert (Hz : fmul one (@fixed_light_distance R _) = 2197 / 1000).
  { simpl. unfold fixed_light_distance. simpl. unfold literal. field. }
  assert (Hb : forall u, 0 <= u < 1 ->
             - (75 / 100) <= u * (lit 75 100 - lit (-75) 100) + lit (-75) 100
             <= 75 / 100).
  { intros u Hu. simpl. unfold literal.
    pose proof (@uniform_range (-75 / 100) (75 / 100) u) as H. lra. }
  cbn [app]. rewrite Hz.
  destruct (Nat.ltb _ n).
  - destruct (sampler_ok (n - 1)%nat min_eps max_eps (advance (advance r)))
      as (dirs & r' & -> & Hsrc).
    do 4 eexists. split; [reflexivity|].
    split; [apply Hb, Hr|]. split; [apply Hb, Hr|]. exact Hsrc.
  - do 4 eexists. split; [reflexivity|].
    split; [apply Hb, Hr|]. split; [apply Hb, Hr|]. reflexivity.
Qed.

Lemma first_view_pose (view_distance : list R) (z : R) (n : nat) (r : Rng R) :
  raw_draws_in_unit r ->
  firstn 1 view_distance = [z] ->
  exists x y rest r',
    sample_view_poses sampler view_distance n r = Some ([x; y; z] :: rest, r') /\
    - (25 / 100) <= x <= 25 / 100 /\ - (25 / 100) <= y <= 25 / 100.
Proof.
  intros Hr Hz. unfold sample_view_poses, bind. rewrite draw_pair, Hz.
  assert (Hb : forall u, 0 <= u < 1 ->
             - (25 / 100) <= u * (lit 25 100 - lit (-25) 100) + lit (-25) 100
             <= 25 / 100).
  { intros u Hu. simpl. unfold literal.
    pose proof (@uniform_range (-25 / 100) (25 / 100) u) as H. lra. }
  cbn [app].
  destruct (Nat.ltb _ n).
  - destruct (sampler_ok (n - 1)%nat min_eps max_eps (advance (advance r)))
      as (dirs & r' & -> & Hsrc).
    do 4 eexists. split; [reflexivity|].
    split; apply Hb, Hr.
  - do 4 eexists. split; [reflexivity|].
    split; apply Hb, Hr.
Qed.

(** The first view distance: the fixed one without augmentation, a draw of
    [0.25, 2.75] with it. *)
Lemma first_view_distance (aug : bool) (n : nat) (r : Rng R) :
  (0 < n)%nat -> raw_draws_in_unit r ->
  exists view_distance z r',
    sample_view_distance aug n r = Some (view_distance, r') /\
    firstn 1 view_distance = [z] /\
    uniform_source r' = uniform_source r /\
    (aug = false -> z = 275 / 100) /\
    (aug = true ->
     z = uniform_source r (position r) * (275 / 100 - 25 / 100) + 25 / 100 /\
     25 / 100 <= z <= 275 / 100).
Proof.
  intros Hn Hr. destruct n as [|n]; [lia|].
  unfold sample_view_distance. destruct aug.
  - cbn [replicateM]. unfold bind at 1. unfold uniform_ at 1.
    destruct (steady_replicateM n (steady_uniform (lit 25 100) (lit 275 100))
                (advance r)) as (xs & r' & E & Hsrc).
    unfold bind. rewrite E. unfold ret.
    do 3 eexists. split; [reflexivity|]. split; [reflexivity|].
    split; [exact Hsrc|]. split; [discriminate|]. intros _.
    simpl. unfold literal.
    pose proof (@uniform_range (25 / 100) (275 / 100)
                  (uniform_source r (position r))) as H.
    specialize (Hr (position r)). split; [field|]. lra.
  - do 3 eexists. split; [reflexivity|]. split; [reflexivity|].
    split; [reflexivity|]. split; [|discriminate]. intros _.
    simpl. unfold fixed_view_distance. simpl. unfold literal. field.
Qed.

Lemma raw_draws_steady (r r' : Rng R) :
  uniform_source r' = uniform_source r ->
  raw_draws_in_unit r -> raw_draws_in_unit r'.
Proof. intros E H k. rewrite E. apply H. Qed.

(** The scenes of the images to generate, with their first poses. *)
Lemma sample_scenes_first (aug : bool) (n : nat) (r : Rng R) :
  (0 < n)%nat -> raw_draws_in_unit r ->
  exists view_poses light_poses light_colors r' lx ly vx vy vz,
    sample_scenes sampler torch_exp aug n r
      = Some ((view_poses, light_poses, light_colors), r') /\
    hd [] light_poses = [lx; ly; 2197 / 1000] /\
    - (75 / 100) <= lx <= 75 / 100 /\ - (75 / 100) <= ly <= 75 / 100 /\
    hd [] view_poses = [vx; vy; vz] /\
    - (25 / 100) <= vx <= 25 / 100 /\ - (25 / 100) <= vy <= 25 / 100 /\
    (aug = false -> vz = 275 / 100) /\
    (aug = true ->
     25 / 100 <= vz <= 275 / 100 /\
     exists k, vz = uniform_source r k * (275 / 100 - 25 / 100) + 25 / 100).
Proof.
  intros Hn Hr. unfold sample_scenes.
  destruct (first_light_pose n Hr)
    as (lx & ly & lrest & r1 & E1 & Hlx & Hly & S1).
  destruct (steady_light_colors aug n r1) as (colors & r2 & E2 & S2).
  assert (Hr2 : raw_draws_in_unit r2).
  { apply raw_draws_steady with r; [congruence|exact Hr]. }
  destruct (first_view_distance aug Hn Hr2)
    as (vd & vz & r3 & E3 & Hvd & S3 & Hfix & Haug).
  assert (Hr3 : raw_draws_in_unit r3).
  { apply raw_draws_steady with r2; [congruence|exact Hr2]. }
  destruct (first_view_pose vd n Hr3 Hvd)
    as (vx & vy & vrest & r4 & E4 & Hvx & Hvy).
  exists ([vx; vy; vz] :: vrest), ([lx; ly; 2197 / 1000] :: lrest), colors, r4,
    lx, ly, vx, vy, vz.
  split.
  { unfold bind. rewrite E1, E2, E3, E4. reflexivity. }
  do 6 (split; [assumption || reflexivity|]).
  split; [exact Hfix|].
  intros Ha. destruct (Haug Ha) as [Hz Hrange]. split; [exact Hrange|].
  exists (position r2). rewrite Hz. now rewrite S2, S1.
Qed.

End FirstPoses.

Section FirstPosesClaim.

Import Exact.

Local Open Scope R_scope.

Lemma zenith_sampler_returns : sampler_returns Samples.zenith_sampler.
Proof. intros n lo hi r. do 2 eexists. split; reflexivity. Qed.

Lemma constant_rng_in_unit (u : R) :
  0 <= u < 1 -> raw_draws_in_unit (Samples.constant_rng u).
Proof. intros H k. exact H. Qed.

(** C6, counterexample: with augmentation the first view distance is a
    draw; when the raw draw is 0 the first view pose is at height 0.25, not
    2.75. *)
Lemma first_poses_fixed_fails_with_augmentation :
  ~ first_poses_fixed Samples.zenith_sampler exp true 1
      (Samples.constant_rng 0).
Proof.
  intros (vp & lp & lc & r' & lx & ly & vx & vy & E & _ & _ & _ & Hv & _).
  assert (H0 : 0 <= 0 < 1) by lra.
  destruct (@sample_scenes_first Samples.zenith_sampler exp
              zenith_sampler_returns true 1 (Samples.constant_rng 0)
              (Nat.lt_0_1) (constant_rng_in_unit H0))
    as (vp' & lp' & lc' & r'' & lx' & ly' & vx' & vy' & vz' & E' & _ & _ & _
        & Hv' & _ & _ & _ & Haug).
  rewrite E in E'. injection E' as -> _ _ _.
  rewrite Hv in Hv'. injection Hv' as _ _ Hz.
  destruct (Haug eq_refl) as [_ (k & Hk)]. simpl in Hk. lra.
Qed.

(** C6, as amended: in exact arithmetic and with raw draws of [0, 1), the
    first sampled light position has (x, y) in [-0.75, 0.75]^2 and height
    exactly 2.197, and the first sampled view position has (x, y) in
    [-0.25, 0.25]^2; its height is exactly the fixed distance 2.75 when
    augmentation is off, and a draw of [0.25, 2.75] when it is on. *)
Theorem first_sampled_poses
    (sampler : nat -> R -> R -> M R (list (vec R))) (torch_exp : R -> R)
    (aug : bool) (n : nat) (r : Rng R) :
  sampler_returns sampler -> (0 < n)%nat -> raw_draws_in_unit r ->
  exists view_poses light_poses light_colors r' lx ly vx vy vz,
    sample_scenes sampler torch_exp aug n r
      = Some ((view_poses, light_poses, light_colors), r') /\
    hd [] light_poses = [lx; ly; 2197 / 1000] /\
    - (75 / 100) <= lx <= 75 / 100 /\ - (75 / 100) <= ly <= 75 / 100 /\
    hd [] view_poses = [vx; vy; vz] /\
    - (25 / 100) <= vx <= 25 / 100 /\ - (25 / 100) <= vy <= 25 / 100 /\
    (aug = false -> vz = 275 / 100) /\
    (aug = true -> 25 / 100 <= vz <= 275 / 100).
Proof.
  intros Hs Hn Hr.
  destruct (@sample_scenes_first sampler torch_exp Hs aug n r Hn Hr)
    as (vp & lp & lc & r' & lx & ly & vx & vy & vz & E & Hl & Hlx & Hly
        & Hv & Hvx & Hvy & Hfix & Haug).
  exists vp, lp, lc, r', lx, ly, vx, vy, vz.
  do 8 (split; [assumption|]).
  intros Ha. now destruct (Haug Ha).
Qed.

Lemma first_sampled_poses_witness :
  exists view_poses light_poses light_colors r' lx ly vx vy vz,
    sample_scenes Samples.zenith_sampler exp false 2
                  (Samples.constant_rng (1/2))
      = Some ((view_poses, light_poses, light_colors), r') /\
    hd [] light_poses = [lx; ly; 2197 / 1000] /\
    - (75 / 100) <= lx <= 75 / 100 /\ - (75 / 100) <= ly <= 75 / 100 /\
    hd [] view_poses = [vx; vy; vz] /\
    - (25 / 100) <= vx <= 25 / 100 /\ - (25 / 100) <= vy <= 25 / 100 /\
    (false = false -> vz = 275 / 100) /\
    (false = true -> 25 / 100 <= vz <= 275 / 100).
Proof.
  apply first_sampled_poses.
  - exact zenith_sampler_returns.
  - apply Nat.lt_0_2.
  - apply constant_rng_in_unit. lra.
Defined.

(** In binary32 too the two fixed heights are the literals themselves. *)
Lemma fixed_heights_binary32 :
  fmul one (@fixed_light_distance F32.t _) = F32.literal 2197 1000 /\
  fmul one (@fixed_view_distance F32.t _) = F32.literal 275 100.
Proof. split; vm_compute; reflexivity. Qed.

End FirstPosesClaim.

(** ** No image to generate *)

Section NothingToGenerate.

Context {F : Type} {SF : Scalar F}.

Variable imread : nat -> option (grid F).
Variable crop_square : grid F -> Z * Z -> Z -> grid F.
Variable gamma_decode : F -> F.
Variable sampler : nat -> F -> F -> M F (list (vec F)).
Variable torch_exp : F -> F.
Variable np_log : F -> F.

Lemma generate_nothing (self : SvbrdfDataset) (svbrdf : grid F)
    (input_images : list (grid F)) (r : Rng F) :
  (used_input_image_count self - Z.of_nat (length input_images) <= 0)%Z ->
  generate_missing_images sampler torch_exp np_log self svbrdf input_images r
  = Some (input_images, r).
Proof.
  intros H. unfold generate_missing_images.
  destruct (Z.ltb_spec 0 (used_input_image_count self
                          - Z.of_nat (length input_images))) as [Hlt|_].
  - lia.
  - reflexivity.
Qed.

(** C8: when the requested count minus the number of available input
    images is zero or negative, [__getitem__] generates nothing: it raises
    no error, draws nothing, and returns the sample as it was prepared, the
    input images unchanged. *)
Theorem getitem_without_generation (self : SvbrdfDataset) (idx : Z)
    (r r' : Rng F) (input_images : list (grid F)) (svbrdf : grid F) :
  prepare_sample imread crop_square gamma_decode self idx r
    = Some ((input_images, svbrdf), r') ->
  (used_input_image_count self - Z.of_nat (length input_images) <= 0)%Z ->
  generate_missing_images sampler torch_exp np_log self svbrdf input_images r'
    = Some (input_images, r') /\
  getitem imread crop_square gamma_decode sampler torch_exp np_log self idx r
    = Some ((input_images, svbrdf), r').
Proof.
  intros Hp Hn. split; [now apply generate_nothing|].
  unfold getitem, bind. rewrite Hp.
  now rewrite generate_nothing.
Qed.

End NothingToGenerate.

Lemma getitem_without_generation_witness :
  exists input_images svbrdf,
    generate_missing_images Samples.no_directions (fun x => x) (fun x => x)
      (Samples.dataset_1_image 1) svbrdf input_images Samples.rng_one_half
      = Some (input_images, Samples.rng_one_half) /\
    getitem (fun _ => Some Samples.file_1_image) Samples.keep_all (fun x => x)
      Samples.no_directions (fun x => x) (fun x => x)
      (Samples.dataset_1_image 1) 0 Samples.rng_one_half
      = Some ((input_images, svbrdf), Samples.rng_one_half).
Proof.
  do 2 eexists.
  apply (@getitem_without_generation F32.t _
           (fun _ => Some Samples.file_1_image) Samples.keep_all (fun x => x)
           Samples.no_directions (fun x => x) (fun x => x)
           (Samples.dataset_1_image 1) 0%Z
           Samples.rng_one_half Samples.rng_one_half).
  - vm_compute. reflexivity.
  - vm_compute. discriminate.
Defined.

(** ** Which images are read *)

Section PythonListFacts.

Context {A : Type}.

Lemma py_index_app (l maps : list A) (k : Z) (x : A) :
  (0 <= k)%Z -> nth_error maps (Z.to_nat k) = Some x ->
  py_index (l ++ maps) (Z.of_nat (length l) + k) = Some x.
Proof.
  intros H0 H. unfold py_index.
  assert (Hk : (Z.to_nat k < length maps)%nat)
    by (apply nth_error_Some; congruence).
  rewrite length_app.
  destruct (Z.leb_spec 0 (Z.of_nat (length l) + k)); [|lia].
  destruct (Z.ltb_spec (Z.of_nat (length l) + k)
                       (Z.of_nat (length l + length maps))); [|lia].
  simpl. replace (Z.to_nat (Z.of_nat (length l) + k))
    with (length l + Z.to_nat k)%nat by lia.
  rewrite nth_error_app2 by lia.
  now replace (length l + Z.to_nat k - length l)%nat with (Z.to_nat k) by lia.
Qed.

(** The slice that ends where the first list ends keeps the end of that
    list. *)
Lemma py_slice_tail (l maps : list A) (used : Z) :
  (0 <= used <= Z.of_nat (length l))%Z ->
  py_slice (l ++ maps) (Z.of_nat (length l) - used) (Z.of_nat (length l))
  = skipn (Z.to_nat (Z.of_nat (length l) - used)) l.
Proof.
  intros H. unfold py_slice, py_bound. rewrite length_app.
  destruct (Z.ltb_spec (Z.of_nat (length l) - used) 0); [lia|].
  destruct (Z.ltb_spec (Z.of_nat (length l)) 0); [lia|].
  rewrite !Z.min_r by lia.
  rewrite skipn_app.
  replace (Z.to_nat (Z.of_nat (length l) - used) - length l)%nat with 0%nat
    by lia.
  simpl skipn at 2.
  rewrite firstn_app.
  rewrite length_skipn.
  replace (Z.to_nat (Z.of_nat (length l) - (Z.of_nat (length l) - used))
           - (length l - Z.to_nat (Z.of_nat (length l) - used)))%nat
    with 0%nat by lia.
  simpl firstn at 2. rewrite app_nil_r.
  apply firstn_all2. rewrite length_skipn. lia.
Qed.

End PythonListFacts.

Section ReadSample.

Context {F : Type} {SF : Scalar F}.

Variable imread : nat -> option (grid F).

(** When the pieces of the file are the input images followed by the four
    maps, and fewer images are used than there are, [read_sample] keeps the
    end of the images. *)
Lemma read_sample_slices (self : SvbrdfDataset) (file_path : nat)
    (full_image : grid F) (images : list (grid F))
    (normals diffuse roughness specular svbrdf : grid F) :
  no_svbrdf self = false ->
  imread file_path = Some full_image ->
  chunk (input_image_count self + 4) full_image
    = Some (images ++ [normals; diffuse; roughness; specular]) ->
  cat_parts (images ++ [normals; diffuse; roughness; specular])
    = Some (images ++ [normals; diffuse; roughness; specular]) ->
  Z.of_nat (length images) = input_image_count self ->
  pack_svbrdf_maps (map (map (map decode_from_unit_interval)) normals)
                   diffuse roughness specular = Some svbrdf ->
  (0 <= used_input_image_count self < input_image_count self)%Z ->
  let last_images :=
    skipn (length images - Z.to_nat (used_input_image_count self)) images in
  read_sample imread self file_path = Some (last_images, svbrdf) /\
  length last_images
    = Z.to_nat (Z.min (input_image_count self) (used_input_image_count self)).
Proof.
  intros Hno Hread Hchunk Hcat Hlen Hpack Hused last_images.
  split.
  - unfold read_sample. rewrite Hread, Hno, Hchunk, Hcat, <- Hlen.
    set (maps := [normals; diffuse; roughness; specular]).
    rewrite (@py_index_app _ images maps 0 normals (Z.le_refl 0) eq_refl).
    rewrite (@py_index_app _ images maps 1 diffuse Z.le_0_1 eq_refl).
    rewrite (@py_index_app _ images maps 2 roughness Z.le_0_2 eq_refl).
    rewrite (@py_index_app _ images maps 3 specular
               (Z.lt_le_incl 0 3 eq_refl) eq_refl).
    rewrite Hpack.
    rewrite Z.min_r by lia.
    rewrite py_slice_tail by lia.
    unfold last_images. do 3 f_equal. lia.
  - unfold last_images. rewrite length_skipn. lia.
Qed.

(** A file whose width is [n] times [s] is cut into [n] pieces of width
    [s]. *)
Lemma chunk_even (n s : nat) (g : grid F) :
  (0 < n)%nat -> (0 < s)%nat -> width g = (n * s)%nat ->
  chunk (Z.of_nat n) g
  = Some (map (fun j => columns (j * s) s g) (seq 0 n)).
Proof.
  intros Hn Hs Hw. unfold chunk. rewrite Hw, Nat2Z.inj_mul.
  destruct (Z.leb_spec (Z.of_nat n) 0) as [H|_]; [lia|].
  assert (Hsplit : ((Z.of_nat n * Z.of_nat s + Z.of_nat n - 1) / Z.of_nat n
                    = Z.of_nat s)%Z).
  { symmetry. apply Z.div_unique with (r := (Z.of_nat n - 1)%Z);
      [left; lia|ring]. }
  rewrite Hsplit.
  destruct (Z.eqb_spec (Z.of_nat s) 0) as [H|_]; [lia|].
  assert (Hcount : (Z.max ((Z.of_nat n * Z.of_nat s + Z.of_nat s - 1)
                            / Z.of_nat s) 1
                    = Z.of_nat n)%Z).
  { assert (((Z.of_nat n * Z.of_nat s + Z.of_nat s - 1) / Z.of_nat s
             = Z.of_nat n)%Z) as ->.
    { symmetry. apply Z.div_unique with (r := (Z.of_nat s - 1)%Z);
        [left; lia|ring]. }
    lia. }
  rewrite Hcount, !Nat2Z.id. reflexivity.
Qed.

(** The pieces of a rectangular file have one shape. *)
Lemma columns_shape (h w lo s : nat) (g : grid F) :
  length g = h -> Forall (fun row => length row = w) g ->
  (lo + s <= w)%nat ->
  length (columns lo s g) = h /\
  Forall (fun row => length row = s) (columns lo s g).
Proof.
  intros Hh Hf Hle. unfold columns. rewrite length_map. split; [exact Hh|].
  apply Forall_map. eapply Forall_impl; [|exact Hf].
  intros row Hrow. cbv beta in Hrow.
  rewrite length_firstn, length_skipn, Hrow. apply Nat.min_l. lia.
Qed.

(** Maps of one shape can be stacked along the channel axis, and the stack
    has that shape. *)
Lemma cat_channels_same_shape (h s : nat) (a b : grid F) :
  length a = h -> Forall (fun row => length row = s) a ->
  length b = h -> Forall (fun row => length row = s) b ->
  exists c, cat_channels a b = Some c /\
            length c = h /\ Forall (fun row => length row = s) c.
Proof.
  intros Ha Hfa Hb Hfb. unfold cat_channels, grid_map2M.
  destruct (@map2M_Some _ _ _ (map2M (fun x y : vec F => Some (x ++ y)))
              (fun row => length row = s) (fun row => length row = s)
              (fun row => length row = s) a b) as (c & Hc & Hfc);
    auto; [|congruence|].
  - intros ra rb Hra Hrb.
    destruct (@map2M_Some _ _ _ (fun x y : vec F => Some (x ++ y))
                (fun _ => True) (fun _ => True) (fun _ => True) ra rb)
      as (r & Hr & _); eauto; try congruence.
    + apply Forall_forall. auto.
    + apply Forall_forall. auto.
    + exists r. split; [exact Hr|].
      apply map2M_length in Hr. destruct Hr as [Hr _]. congruence.
  - exists c. split; [exact Hc|]. split; [|exact Hfc].
    apply map2M_length in Hc. destruct Hc as [Hc _]. congruence.
Qed.

Lemma cat_parts_same_width (s : nat) (parts : list (grid F)) :
  parts <> [] -> (forall q, In q parts -> width q = s) ->
  cat_parts parts = Some parts.
Proof.
  intros Hne Hall. unfold cat_parts.
  destruct parts as [|p ps]; [congruence|].
  assert (Hb : forallb (fun q => Nat.eqb (width q) (width p)) (p :: ps) = true).
  { apply forallb_forall. intros q Hq. apply Nat.eqb_eq.
    rewrite (Hall q Hq). symmetry. apply Hall. now left. }
  now rewrite Hb.
Qed.

(** C10: for a file that holds [input_image_count] input images and then
    the four maps, each [s] pixels wide, when [used_input_image_count] is
    less than [input_image_count], [read_sample] returns the last
    [used_input_image_count] input images, the pieces of the file numbered
    from [input_image_count - used_input_image_count] up to
    [input_image_count - 1], next to the maps, and not the first ones. *)
Theorem read_sample_last_images (self : SvbrdfDataset) (file_path : nat)
    (full_image : grid F) (s : nat) :
  no_svbrdf self = false ->
  imread file_path = Some full_image ->
  full_image <> [] -> (0 < s)%nat ->
  Forall (fun row => Z.of_nat (length row)
                     = ((input_image_count self + 4) * Z.of_nat s)%Z)
         full_image ->
  (0 <= used_input_image_count self < input_image_count self)%Z ->
  let piece := fun j => columns (j * s) s full_image in
  let first := Z.to_nat (input_image_count self - used_input_image_count self) in
  let count :=
    Z.to_nat (Z.min (input_image_count self) (used_input_image_count self)) in
  exists svbrdf,
    read_sample imread self file_path
      = Some (map piece (seq first count), svbrdf) /\
    (first + count = Z.to_nat (input_image_count self))%nat.
Proof.
  intros Hno Hread Hne Hs Hrows Hused piece first count.
  set (ic := Z.to_nat (input_image_count self)).
  assert (Hic : input_image_count self = Z.of_nat ic) by (unfold ic; lia).
  assert (Hrows' : Forall (fun row => length row = ((ic + 4) * s)%nat)
                          full_image).
  { eapply Forall_impl; [|exact Hrows]. intros row Hrow. rewrite Hic in Hrow.
    nia. }
  assert (Hw : width full_image = ((ic + 4) * s)%nat).
  { unfold width. destruct full_image as [|row g]; [congruence|].
    now inversion Hrows'. }
  assert (Hpiece : forall j, (j < ic + 4)%nat ->
            length (piece j) = length full_image /\
            Forall (fun row => length row = s) (piece j)).
  { intros j Hj. apply columns_shape with (w := ((ic + 4) * s)%nat); auto.
    nia. }
  assert (Hchunk : chunk (input_image_count self + 4) full_image
                   = Some (map piece (seq 0 ic)
                           ++ [piece ic; piece (ic + 1)%nat;
                               piece (ic + 2)%nat; piece (ic + 3)%nat])).
  { replace (input_image_count self + 4)%Z with (Z.of_nat (ic + 4)) by lia.
    rewrite (@chunk_even (ic + 4) s full_image) by (auto; lia).
    rewrite seq_app, map_app. do 2 f_equal. simpl.
    now rewrite !Nat.add_succ_r, Nat.add_0_r. }
  assert (Hcat : cat_parts (map piece (seq 0 ic)
                            ++ [piece ic; piece (ic + 1)%nat;
                                piece (ic + 2)%nat; piece (ic + 3)%nat])
                 = Some (map piece (seq 0 ic)
                         ++ [piece ic; piece (ic + 1)%nat;
                             piece (ic + 2)%nat; piece (ic + 3)%nat])).
  { assert (Hall : forall q,
              In q (map piece (seq 0 (ic + 4))) -> width q = s).
    { intros q Hq. apply in_map_iff in Hq. destruct Hq as (j & <- & Hj).
      apply in_seq in Hj. destruct (Hpiece j) as [Hl Hf]; [lia|].
      unfold width. destruct (piece j) as [|row g] eqn:E.
      - simpl in Hl. destruct full_image; [congruence|discriminate].
      - now inversion Hf. }
    replace (map piece (seq 0 ic)
             ++ [piece ic; piece (ic + 1)%nat; piece (ic + 2)%nat;
                 piece (ic + 3)%nat])
      with (map piece (seq 0 (ic + 4))).
    2:{ rewrite seq_app, map_app. do 2 f_equal. simpl.
        now rewrite !Nat.add_succ_r, Nat.add_0_r. }
    apply cat_parts_same_width with (s := s); [|exact Hall].
    intros E. apply (f_equal (@length _)) in E.
    rewrite length_map, length_seq in E. simpl in E. lia. }
  assert (Hpack : exists svbrdf,
            pack_svbrdf_maps
              (map (map (map decode_from_unit_interval)) (piece ic))
              (piece (ic + 1)%nat) (piece (ic + 2)%nat) (piece (ic + 3)%nat)
            = Some svbrdf).
  { destruct (Hpiece ic) as [H0l H0f]; [lia|].
    destruct (Hpiece (ic + 1)%nat) as [H1l H1f]; [lia|].
    destruct (Hpiece (ic + 2)%nat) as [H2l H2f]; [lia|].
    destruct (Hpiece (ic + 3)%nat) as [H3l H3f]; [lia|].
    assert (Hdl : length (map (map (map decode_from_unit_interval)) (piece ic))
                  = length full_image) by now rewrite length_map.
    assert (Hdf : Forall (fun row => length row = s)
                    (map (map (map decode_from_unit_interval)) (piece ic))).
    { apply Forall_map. eapply Forall_impl; [|exact H0f].
      intros row Hrow. now rewrite length_map. }
    unfold pack_svbrdf_maps.
    destruct (cat_channels_same_shape Hdl Hdf H1l H1f) as (nd & -> & Hl & Hf).
    destruct (cat_channels_same_shape Hl Hf H2l H2f) as (ndr & -> & Hl' & Hf').
    destruct (cat_channels_same_shape Hl' Hf' H3l H3f) as (x & -> & _).
    eauto. }
  destruct Hpack as (svbrdf & Hpack).
  exists svbrdf.
  assert (Hlen : Z.of_nat (length (map piece (seq 0 ic)))
                 = input_image_count self).
  { rewrite length_map, length_seq. lia. }
  destruct (@read_sample_slices self file_path full_image
              (map piece (seq 0 ic)) (piece ic) (piece (ic + 1)%nat)
              (piece (ic + 2)%nat) (piece (ic + 3)%nat) svbrdf
              Hno Hread Hchunk Hcat Hlen Hpack Hused) as [Hrs _].
  split.
  - rewrite Hrs. do 2 f_equal.
    rewrite length_map, length_seq, skipn_map, skipn_seq.
    unfold first, count. f_equal. f_equal; lia.
  - unfold first, count. lia.
Qed.

(** [BaseDataset.read_sample_base] slices the same way. *)
Lemma read_sample_base_last_images (self : BaseDataset) (idx : Z)
    (file_path : nat) (full_image : grid F) (images maps : list (grid F)) :
  py_index (base_file_paths self) idx = Some file_path ->
  imread file_path = Some full_image ->
  chunk (base_input_image_count self + base_input_material_map_count self)
        full_image = Some (images ++ maps) ->
  cat_parts (images ++ maps) = Some (images ++ maps) ->
  Z.of_nat (length images) = base_input_image_count self ->
  (0 <= base_used_input_image_count self < base_input_image_count self)%Z ->
  option_map fst (read_sample_base imread self idx)
  = Some (skipn (length images - Z.to_nat (base_used_input_image_count self))
                images).
Proof.
  intros Hidx Hread Hchunk Hcat Hlen Hused.
  unfold read_sample_base. rewrite Hidx, Hread, Hchunk, Hcat, <- Hlen.
  simpl. rewrite Z.min_r by lia.
  rewrite py_slice_tail by lia.
  do 2 f_equal. lia.
Qed.

End ReadSample.

Lemma read_sample_last_images_witness :
  exists svbrdf,
    read_sample (fun _ => Some Samples.file_3_images)
                (Samples.dataset_3_images 1) 0
      = Some (map (fun j => columns (j * 1) 1 Samples.file_3_images)
                  (seq 2 1), svbrdf) /\
    (2 + 1 = 3)%nat.
Proof.
  apply (@read_sample_last_images F32.t _ (fun _ => Some Samples.file_3_images)
           (Samples.dataset_3_images 1) 0 Samples.file_3_images 1).
  - reflexivity.
  - reflexivity.
  - discriminate.
  - apply Nat.lt_0_1.
  - repeat constructor.
  - vm_compute. split; discriminate || reflexivity.
Defined.

(** The one image read there is the third of the file, not the first. *)
Lemma read_sample_not_first_images :
  option_map fst
    (read_sample (fun _ => Some Samples.file_3_images)
                 (Samples.dataset_3_images 1) 0)
    = Some [[[Samples.gray 3]]] /\
  [[[Samples.gray 3]]] <> [[[Samples.gray 1]]].
Proof. split; [vm_compute; reflexivity|vm_compute; discriminate]. Qed.

(** ** The renderer leaves its input alone *)

Section Frame.

Context {F : Type} {SF : Scalar F}.

(** What an in-place operator would do, and [render] never does: the
    buffer it is given holds the new values afterwards. *)
Lemma overwrite_changes (l : nat) (g g0 : grid F) (s : store) :
  nth_error s l = Some g0 ->
  exists s', overwrite l g s = Some (tt, s') /\ nth_error s' l = Some g.
Proof.
  intros H. unfold overwrite. rewrite H. eexists. split; [reflexivity|].
  revert l H. induction s as [|b s IH]; intros [|l] H; simpl in *;
    try discriminate; auto.
Qed.


End Frame.


(** * Further properties *)

(** ** The terms of the BRDF, in exact arithmetic *)

Section TermsExact.

Import Exact.

Local Open Scope R_scope.

Lemma literal_zero : literal 0 1 = 0.
Proof. unfold literal. field. Qed.

Lemma literal_one : literal 1 1 = 1.
Proof. unfold literal. field. Qed.

Lemma literal_two : literal 2 1 = 2.
Proof. unfold literal. field. Qed.

Lemma literal_four : literal 4 1 = 4.
Proof. unfold literal. field. Qed.

Lemma fpow_pow (x : R) (n : nat) : fpow x n = x ^ n.
Proof.
  induction n as [|n IH]; simpl.
  - apply literal_one.
  - now rewrite <- IH.
Qed.

Lemma pow_unit (t : R) (n : nat) : 0 <= t <= 1 -> 0 <= t ^ n <= 1.
Proof.
  intros Ht. induction n as [|n IH]; simpl; [lra|nra].
Qed.

Lemma indicator_exact (x : R) :
  greater x (literal 0 1) = 0 \/ greater x (literal 0 1) = 1.
Proof. unfold greater. destruct (Rlt_dec _ _); auto. Qed.

Lemma indicator_positive (x : R) : 0 < x -> greater x (literal 0 1) = 1.
Proof.
  intros Hx. unfold greater. rewrite literal_zero.
  destruct (Rlt_dec 0 x); [reflexivity|lra].
Qed.

Lemma indicator_nonpositive (x : R) : x <= 0 -> greater x (literal 0 1) = 0.
Proof.
  intros Hx. unfold greater. rewrite literal_zero.
  destruct (Rlt_dec 0 x); [lra|reflexivity].
Qed.

Lemma clamp_lo_Rmax (lo x : R) : clamp_lo lo x = Rmax lo x.
Proof.
  unfold clamp_lo, Rmax.
  destruct (Rlt_dec x lo), (Rle_dec lo x); lra.
Qed.

(** The scalar Fresnel term lies between the specular albedo and 1. *)
Lemma fresnel_scalar_bounds (s vh : R) :
  0 <= s <= 1 -> 0 <= vh <= 1 ->
  s <= s + (1 - s) * (1 - vh) ^ 5 <= 1.
Proof.
  intros Hs Hvh.
  assert (Hp : 0 <= (1 - vh) ^ 5 <= 1) by (apply pow_unit; lra).
  nra.
Qed.

(** X1: Schlick's Fresnel term stays between the specular albedo and 1, is the
    albedo itself at normal incidence and 1 at grazing incidence. *)
Theorem compute_fresnel_bounds (s0 s1 s2 vh : R) :
  0 <= s0 <= 1 -> 0 <= s1 <= 1 -> 0 <= s2 <= 1 -> 0 <= vh <= 1 ->
  exists f0 f1 f2,
    compute_fresnel [s0; s1; s2] [vh] = [f0; f1; f2] /\
    s0 <= f0 <= 1 /\ s1 <= f1 <= 1 /\ s2 <= f2 <= 1 /\
    (vh = 1 -> [f0; f1; f2] = [s0; s1; s2]) /\
    (vh = 0 -> [f0; f1; f2] = [1; 1; 1]).
Proof.
  intros H0 H1 H2 Hvh.
  do 3 eexists. split.
  - unfold compute_fresnel, vadd, vmul. cbn [map bzip zip_with].
    rewrite fpow_pow. unfold one, fsub, fadd, fmul. cbn [lit Exact.scalar].
    rewrite literal_one. reflexivity.
  - repeat split; try (apply fresnel_scalar_bounds; assumption);
      intros ->; repeat f_equal; ring.
Qed.


Lemma compute_fresnel_bounds_witness :
  exists f0 f1 f2,
    compute_fresnel [4/100; 4/100; 4/100] [1/2] = [f0; f1; f2] /\
    4/100 <= f0 <= 1 /\ 4/100 <= f1 <= 1 /\ 4/100 <= f2 <= 1 /\
    (1/2 = 1 -> [f0; f1; f2] = [4/100; 4/100; 4/100]) /\
    (1/2 = 0 -> [f0; f1; f2] = [1; 1; 1]).
Proof. apply compute_fresnel_bounds; lra. Defined.

(** The scalar masking term. *)
Lemma g1_scalar (r xh xn : R) :
  g1_formula r xh xn
  = 2 * greater (xh / xn) (literal 0 1)
    / (1 + sqrt (1 + (r ^ 2) ^ 2 * (1 - xn ^ 2) / xn ^ 2)).
Proof.
  unfold g1_formula, step, zero, one.
  rewrite !fpow_pow. cbn [lit fadd fsub fmul fdiv fsqrt fgt Exact.scalar].
  rewrite literal_one, literal_two. reflexivity.
Qed.

Lemma g1_denominator (a x : R) :
  1 <= 1 + sqrt (1 + a ^ 2 * (1 - x ^ 2) / x ^ 2).
Proof.
  pose proof (sqrt_pos (1 + a ^ 2 * (1 - x ^ 2) / x ^ 2)). lra.
Qed.

Lemma g1_nonnegative (r xh xn : R) : 0 <= g1_formula r xh xn.
Proof.
  rewrite g1_scalar.
  pose proof (g1_denominator (r ^ 2) xn) as Hd.
  apply Rmult_le_pos.
  - destruct (indicator_exact (xh / xn)) as [-> | ->]; lra.
  - left. apply Rinv_0_lt_compat. lra.
Qed.

Lemma g1_at_most_one (r xh xn : R) :
  xn <> 0 -> -1 <= xn <= 1 -> g1_formula r xh xn <= 1.
Proof.
  intros Hn Hx. rewrite g1_scalar.
  assert (Hq : 0 <= (r ^ 2) ^ 2 * (1 - xn ^ 2) / xn ^ 2).
  { apply Rmult_le_pos.
    - apply Rmult_le_pos; [apply pow2_ge_0|nra].
    - left. apply Rinv_0_lt_compat. nra. }
  assert (Hs : 1 <= sqrt (1 + (r ^ 2) ^ 2 * (1 - xn ^ 2) / xn ^ 2)).
  { rewrite <- sqrt_1 at 1. apply sqrt_le_1_alt. lra. }
  assert (HD : 2 <= 1 + sqrt (1 + (r ^ 2) ^ 2 * (1 - xn ^ 2) / xn ^ 2)) by lra.
  set (D := 1 + sqrt (1 + (r ^ 2) ^ 2 * (1 - xn ^ 2) / xn ^ 2)) in *.
  clearbody D.
  assert (Hi : 0 < / D <= / 2).
  { split; [apply Rinv_0_lt_compat; lra|apply Rinv_le_contravar; lra]. }
  destruct (indicator_exact (xh / xn)) as [-> | ->]; unfold Rdiv; lra.
Qed.

Lemma g1_vector (r0 r1 r2 xh xn : R) :
  compute_g1 [r0; r1; r2] [xh] [xn]
  = [g1_formula r0 xh xn; g1_formula r1 xh xn; g1_formula r2 xh xn].
Proof.
  unfold compute_g1, xi, vdiv, vmul, g1_formula, step.
  cbn [map bzip zip_with].
  unfold one, zero. cbn [lit fadd fsub fmul fdiv fsqrt fgt Exact.scalar].
  rewrite literal_one, !Rmult_1_r. reflexivity.
Qed.



Lemma unit_product (a b : R) :
  0 <= a <= 1 -> 0 <= b <= 1 -> 0 <= a * b <= 1.
Proof. intros Ha Hb. nra. Qed.

(** X3: the geometry term is the product of two masking terms: it lies in
    [0, 1] and does not change when the view and the light are exchanged. *)
Theorem compute_geometry_bounds (r0 r1 r2 vh lh vn ln : R) :
  vn <> 0 -> -1 <= vn <= 1 -> ln <> 0 -> -1 <= ln <= 1 ->
  Forall (fun g => 0 <= g <= 1)
         (compute_geometry [r0; r1; r2] [vh] [lh] [vn] [ln]) /\
  compute_geometry [r0; r1; r2] [lh] [vh] [ln] [vn]
  = compute_geometry [r0; r1; r2] [vh] [lh] [vn] [ln].
Proof.
  intros Hvn Hv Hln Hl. unfold compute_geometry. rewrite !g1_vector.
  unfold vmul. cbn [bzip zip_with fmul Exact.scalar].
  split.
  - repeat apply Forall_cons; try apply Forall_nil;
      (apply unit_product;
       (split; [apply g1_nonnegative|now apply g1_at_most_one])).
  - now rewrite !(Rmult_comm (g1_formula _ lh ln)).
Qed.

Lemma compute_geometry_bounds_witness :
  Forall (fun g => 0 <= g <= 1)
         (compute_geometry [1/2; 1/2; 1/2] [1] [1/2] [1] [1/2]) /\
  compute_geometry [1/2; 1/2; 1/2] [1/2] [1] [1/2] [1]
  = compute_geometry [1/2; 1/2; 1/2] [1] [1/2] [1] [1/2].
Proof. apply compute_geometry_bounds; lra. Defined.

(** The scalar distribution term. *)
Lemma ggx_scalar (r nh : R) :
  ggx_formula r nh
  = (r ^ 2) ^ 2 * greater nh (literal 0 1)
    / (PI * Rmax (1 / 1000)
                 (nh ^ 2 * ((r ^ 2) ^ 2 + (1 - nh ^ 2) / nh ^ 2)) ^ 2).
Proof.
  unfold ggx_formula, step, zero, one.
  rewrite !fpow_pow.
  cbn [lit fadd fsub fmul fdiv fclamp_min fgt pi_const Exact.scalar].
  rewrite clamp_lo_Rmax, literal_one. reflexivity.
Qed.

Lemma ggx_vector (r0 r1 r2 nh : R) :
  compute_microfacet_distribution [r0; r1; r2] [nh]
  = [ggx_formula r0 nh; ggx_formula r1 nh; ggx_formula r2 nh].
Proof.
  unfold compute_microfacet_distribution, denominator_part, xi, vdiv, vmul,
    vadd, ggx_formula, step.
  cbn [map bzip zip_with].
  unfold one, zero.
  cbn [lit fadd fsub fmul fdiv fclamp_min fgt pi_const Exact.scalar].
  rewrite literal_one, !Rmult_1_r. reflexivity.
Qed.

Lemma ggx_denominator (a nh : R) :
  0 < PI * Rmax (1 / 1000) (1 + nh ^ 2 * (a - 1)) ^ 2.
Proof.
  pose proof (Rmax_l (1 / 1000) (1 + nh ^ 2 * (a - 1))) as Hm.
  apply Rmult_lt_0_compat; [apply PI_RGT_0|].
  apply pow_lt. lra.
Qed.

Lemma ggx_nonnegative (r nh : R) : nh <> 0 -> 0 <= ggx_formula r nh.
Proof.
  intros Hn. rewrite ggx_scalar.
  replace (nh ^ 2 * ((r ^ 2) ^ 2 + (1 - nh ^ 2) / nh ^ 2))
    with (1 + nh ^ 2 * ((r ^ 2) ^ 2 - 1)) by (field; exact Hn).
  apply Rmult_le_pos.
  - apply Rmult_le_pos; [apply pow2_ge_0|].
    destruct (indicator_exact nh) as [-> | ->]; lra.
  - left. apply Rinv_0_lt_compat, ggx_denominator.
Qed.

(** X4: off the horizon of the half vector the distribution term is the GGX
    lobe alpha^2 / (pi (1 + NH^2 (alpha^2 - 1))^2) with alpha = roughness^2,
    its inner denominator floored at 0.001; it is 0 below the horizon and
    never negative. *)
Theorem compute_microfacet_distribution_ggx (r0 r1 r2 nh : R) :
  nh <> 0 ->
  let lobe := fun r =>
    (r ^ 2) ^ 2
    / (PI * Rmax (1 / 1000) (1 + nh ^ 2 * ((r ^ 2) ^ 2 - 1)) ^ 2) in
  (0 < nh ->
   compute_microfacet_distribution [r0; r1; r2] [nh]
   = [lobe r0; lobe r1; lobe r2]) /\
  (nh < 0 -> compute_microfacet_distribution [r0; r1; r2] [nh] = [0; 0; 0]) /\
  Forall (fun d => 0 <= d) (compute_microfacet_distribution [r0; r1; r2] [nh]).
Proof.
  intros Hn lobe. rewrite ggx_vector. repeat split.
  - intros Hpos. rewrite !ggx_scalar, (indicator_positive Hpos).
    unfold lobe. rewrite !Rmult_1_r.
    repeat (f_equal; try (f_equal; f_equal; f_equal; field; exact Hn)).
  - intros Hneg. rewrite !ggx_scalar, indicator_nonpositive by lra.
    unfold Rdiv. now rewrite !Rmult_0_r, !Rmult_0_l.
  - repeat apply Forall_cons; try apply Forall_nil;
      now apply ggx_nonnegative.
Qed.

Lemma compute_microfacet_distribution_ggx_witness :
  let lobe := fun r =>
    (r ^ 2) ^ 2
    / (PI * Rmax (1 / 1000) (1 + 1 ^ 2 * ((r ^ 2) ^ 2 - 1)) ^ 2) in
  (0 < 1 ->
   compute_microfacet_distribution [1/2; 1/2; 1/2] [1]
   = [lobe (1/2); lobe (1/2); lobe (1/2)]) /\
  (1 < 0 -> compute_microfacet_distribution [1/2; 1/2; 1/2] [1] = [0; 0; 0]) /\
  Forall (fun d => 0 <= d)
         (compute_microfacet_distribution [1/2; 1/2; 1/2] [1]).
Proof.
  apply (@compute_microfacet_distribution_ggx (1/2) (1/2) (1/2) 1). lra.
Defined.


(** ** Directions *)

Lemma dot_product_exact (a1 a2 a3 b1 b2 b3 : R) :
  dot_product [a1; a2; a3] [b1; b2; b3] = [a1 * b1 + a2 * b2 + a3 * b3].
Proof.
  unfold dot_product, sum_channels, vmul, zero.
  cbn [bzip zip_with fold_left lit fadd fmul Exact.scalar].
  rewrite literal_zero. f_equal. ring.
Qed.

Lemma normalize_exact (x y z : R) :
  normalize [x; y; z]
  = [x / sqrt (x * x + y * y + z * z);
     y / sqrt (x * x + y * y + z * z);
     z / sqrt (x * x + y * y + z * z)].
Proof.
  unfold normalize. rewrite dot_product_exact. reflexivity.
Qed.

Lemma norm_positive (x y z : R) :
  [x; y; z] <> [0; 0; 0] -> 0 < sqrt (x * x + y * y + z * z).
Proof.
  intros Hnull. apply sqrt_lt_R0.
  destruct (Req_dec x 0) as [-> | Hx]; [|nra].
  destruct (Req_dec y 0) as [-> | Hy]; [|nra].
  destruct (Req_dec z 0) as [-> | Hz]; [|nra].
  now contradict Hnull.
Qed.

(** X5: a vector that is not null is normalised to length 1, and to the same
    direction. *)
Theorem normalize_unit (x y z : R) :
  [x; y; z] <> [0; 0; 0] ->
  dot_product (normalize [x; y; z]) (normalize [x; y; z]) = [1] /\
  exists k, 0 < k /\ normalize [x; y; z] = [k * x; k * y; k * z].
Proof.
  intros Hnull. pose proof (norm_positive Hnull) as Hs.
  rewrite normalize_exact, dot_product_exact.
  set (s := sqrt (x * x + y * y + z * z)) in *.
  assert (Hq : s * s = x * x + y * y + z * z).
  { apply sqrt_sqrt. nra. }
  split.
  - f_equal.
    replace (x / s * (x / s) + y / s * (y / s) + z / s * (z / s))
      with ((x * x + y * y + z * z) / (s * s)) by (field; lra).
    rewrite <- Hq. field. lra.
  - exists (/ s). split; [now apply Rinv_0_lt_compat|].
    unfold Rdiv. now rewrite !(Rmult_comm (/ s)).
Qed.

Lemma normalize_unit_witness :
  dot_product (normalize [3; 0; 4]) (normalize [3; 0; 4]) = [1] /\
  exists k, 0 < k /\ normalize [3; 0; 4] = [k * 3; k * 0; k * 4].
Proof.
  apply normalize_unit. intros Hnull.
  apply (f_equal (hd 0)) in Hnull. simpl in Hnull. lra.
Defined.


(** ** The BRDF *)

Lemma indicator_one_exact (x : R) : fmul (fgt x zero) one = fgt x zero.
Proof.
  unfold one. cbn [lit fmul Exact.scalar]. rewrite literal_one. ring.
Qed.

Lemma fresnel_scalar (s vh : R) :
  fresnel_formula s vh = s + (1 - s) * (1 - vh) ^ 5.
Proof.
  unfold fresnel_formula, one. rewrite fpow_pow.
  cbn [lit fadd fsub fmul Exact.scalar]. now rewrite literal_one.
Qed.

Lemma brdf_scalar (NH VH LH VN LN d r s : R) :
  brdf_formula NH VH LH VN LN d r s
  = (1 - fresnel_formula s VH) * d / PI
    + fresnel_formula s VH * (g1_formula r VH VN * g1_formula r LH LN)
      * ggx_formula r NH / (4 * VN * LN).
Proof.
  unfold brdf_formula, one.
  cbn [lit fadd fsub fmul fdiv pi_const Exact.scalar].
  now rewrite literal_one, literal_four.
Qed.

Lemma brdf_nonnegative (NH VH LH VN LN d r s : R) :
  0 <= d -> 0 <= s <= 1 -> 0 <= VH <= 1 -> NH <> 0 -> 0 < VN -> 0 < LN ->
  0 <= brdf_formula NH VH LH VN LN d r s.
Proof.
  intros Hd Hs Hvh Hnh Hvn Hln. rewrite brdf_scalar.
  pose proof (fresnel_scalar_bounds Hs Hvh) as Hf.
  rewrite <- fresnel_scalar in Hf.
  pose proof (g1_nonnegative r VH VN) as Hg1.
  pose proof (g1_nonnegative r LH LN) as Hg2.
  pose proof (ggx_nonnegative r Hnh) as HD.
  pose proof PI_RGT_0 as Hpi.
  apply Rplus_le_le_0_compat.
  - apply Rmult_le_pos; [nra|]. left. now apply Rinv_0_lt_compat.
  - apply Rmult_le_pos.
    + apply Rmult_le_pos; [|exact HD].
      apply Rmult_le_pos; [lra|]. now apply Rmult_le_pos.
    + left. apply Rinv_0_lt_compat. nra.
Qed.

(** The half vector of two unit directions, and the cosines it makes. *)
Lemma half_vector_cosines (a1 a2 a3 b1 b2 b3 n1 n2 n3 : R) :
  a1 * a1 + a2 * a2 + a3 * a3 = 1 ->
  b1 * b1 + b2 * b2 + b3 * b3 = 1 ->
  0 < (a1 + b1) * n1 + (a2 + b2) * n2 + (a3 + b3) * n3 ->
  let H := normalize (map (fun v => fdiv v (lit 2 1))
                          (vadd [a1; a2; a3] [b1; b2; b3])) in
  exists t, 0 < t <= 1 /\
    dot_product [b1; b2; b3] H = [t] /\
    dot_product [a1; a2; a3] H = [t] /\
    exists nh, 0 < nh /\ dot_product [n1; n2; n3] H = [nh].
Proof.
  intros Ha Hb Hn H. unfold H, vadd.
  cbn [bzip zip_with map lit fadd fdiv Exact.scalar].
  rewrite literal_two, normalize_exact, !dot_product_exact.
  set (h1 := (a1 + b1) / 2). set (h2 := (a2 + b2) / 2).
  set (h3 := (a3 + b3) / 2).
  assert (Hnull : [h1; h2; h3] <> [0; 0; 0]).
  { intros E. injection E as E1 E2 E3. unfold h1, h2, h3 in *.
    assert (E1' : a1 + b1 = 0) by lra.
    assert (E2' : a2 + b2 = 0) by lra.
    assert (E3' : a3 + b3 = 0) by lra.
    rewrite E1', E2', E3' in Hn. lra. }
  pose proof (norm_positive Hnull) as Ht.
  set (t := sqrt (h1 * h1 + h2 * h2 + h3 * h3)) in *.
  assert (Hq : t * t = h1 * h1 + h2 * h2 + h3 * h3).
  { apply sqrt_sqrt. nra. }
  assert (Hb' : b1 * h1 + b2 * h2 + b3 * h3 = t * t).
  { rewrite Hq. unfold h1, h2, h3. nra. }
  assert (Ha' : a1 * h1 + a2 * h2 + a3 * h3 = t * t).
  { rewrite Hq. unfold h1, h2, h3. nra. }
  exists t. split; [|split; [|split]].
  - split; [exact Ht|].
    assert (Hdiff : 0 <= (a1 - b1) * (a1 - b1) + (a2 - b2) * (a2 - b2)
                         + (a3 - b3) * (a3 - b3)).
    { pose proof (Rle_0_sqr (a1 - b1)). pose proof (Rle_0_sqr (a2 - b2)).
      pose proof (Rle_0_sqr (a3 - b3)). unfold Rsqr in *. lra. }
    assert (t * t <= 1) by (rewrite Hq; unfold h1, h2, h3; lra). nra.
  - f_equal.
    replace (b1 * (h1 / t) + b2 * (h2 / t) + b3 * (h3 / t))
      with ((b1 * h1 + b2 * h2 + b3 * h3) / t) by (field; lra).
    rewrite Hb'. field. lra.
  - f_equal.
    replace (a1 * (h1 / t) + a2 * (h2 / t) + a3 * (h3 / t))
      with ((a1 * h1 + a2 * h2 + a3 * h3) / t) by (field; lra).
    rewrite Ha'. field. lra.
  - exists ((n1 * h1 + n2 * h2 + n3 * h3) / t). split.
    + apply Rmult_lt_0_compat; [unfold h1, h2, h3; nra|].
      now apply Rinv_0_lt_compat.
    + f_equal. field. lra.
Qed.

(** X6: for unit directions to the light and to the camera that are both on
    the outer side of the surface, and a material whose diffuse albedo is not
    negative and whose specular albedo lies in [0, 1], the BRDF is not
    negative, whatever the roughness. *)
Theorem evaluate_brdf_nonnegative
    (a1 a2 a3 b1 b2 b3 n1 n2 n3 d0 d1 d2 r0 r1 r2 s0 s1 s2 : R) :
  a1 * a1 + a2 * a2 + a3 * a3 = 1 ->
  b1 * b1 + b2 * b2 + b3 * b3 = 1 ->
  0 < a1 * n1 + a2 * n2 + a3 * n3 ->
  0 < b1 * n1 + b2 * n2 + b3 * n3 ->
  0 <= d0 -> 0 <= d1 -> 0 <= d2 ->
  0 <= s0 <= 1 -> 0 <= s1 <= 1 -> 0 <= s2 <= 1 ->
  Forall (fun v => 0 <= v)
         (evaluate_brdf [a1; a2; a3] [b1; b2; b3] [n1; n2; n3]
                        [d0; d1; d2] [r0; r1; r2] [s0; s1; s2]).
Proof.
  intros Ha Hb Hln Hvn Hd0 Hd1 Hd2 Hs0 Hs1 Hs2.
  rewrite (evaluate_brdf_formula_generic indicator_one_exact).
  destruct (@half_vector_cosines a1 a2 a3 b1 b2 b3 n1 n2 n3 Ha Hb)
    as (t & Ht & -> & -> & nh & Hnh & ->); [nra|].
  rewrite !dot_product_exact. cbn [hd].
  repeat apply Forall_cons; try apply Forall_nil;
    apply brdf_nonnegative; try assumption; lra.
Qed.

Lemma evaluate_brdf_nonnegative_witness :
  Forall (fun v => 0 <= v)
         (evaluate_brdf [0; 0; 1] [0; 0; 1] [0; 0; 1]
                        [1/2; 1/2; 1/2] [1/2; 1/2; 1/2] [4/100; 4/100; 4/100]).
Proof. apply evaluate_brdf_nonnegative; lra. Defined.

(** X7: the BRDF is reciprocal: exchanging the direction to the light and the
    direction to the camera, of one length, does not change its value. *)
Theorem evaluate_brdf_reciprocal
    (a1 a2 a3 b1 b2 b3 : R) (normals : vec R)
    (d0 d1 d2 r0 r1 r2 s0 s1 s2 : R) :
  dot_product [a1; a2; a3] [a1; a2; a3] = dot_product [b1; b2; b3] [b1; b2; b3] ->
  evaluate_brdf [b1; b2; b3] [a1; a2; a3] normals
                [d0; d1; d2] [r0; r1; r2] [s0; s1; s2]
  = evaluate_brdf [a1; a2; a3] [b1; b2; b3] normals
                  [d0; d1; d2] [r0; r1; r2] [s0; s1; s2].
Proof.
  intros Hlen. rewrite !dot_product_exact in Hlen. injection Hlen as Hlen.
  rewrite !(evaluate_brdf_formula_generic indicator_one_exact).
  assert (Hsum : vadd [b1; b2; b3] [a1; a2; a3] = vadd [a1; a2; a3] [b1; b2; b3]).
  { unfold vadd. cbn [bzip zip_with fadd Exact.scalar].
    now rewrite (Rplus_comm b1), (Rplus_comm b2), (Rplus_comm b3). }
  rewrite Hsum.
  set (H := normalize (map (fun v => fdiv v (lit 2 1))
                           (vadd [a1; a2; a3] [b1; b2; b3]))).
  assert (Hhalf : dot_product [a1; a2; a3] H = dot_product [b1; b2; b3] H).
  { unfold H, vadd. cbn [bzip zip_with map lit fadd fdiv Exact.scalar].
    rewrite literal_two, normalize_exact, !dot_product_exact. f_equal.
    set (t := sqrt _). apply Rminus_diag_uniq.
    match goal with
    | |- ?l - ?r = 0 =>
        replace (l - r)
          with ((a1 * a1 + a2 * a2 + a3 * a3
                 - (b1 * b1 + b2 * b2 + b3 * b3)) * (/ 2 * / t))
          by (unfold Rdiv; ring)
    end.
    rewrite Hlen. ring. }
  rewrite Hhalf.
  set (NH := hd zero (dot_product normals H)).
  set (XH := hd zero (dot_product [b1; b2; b3] H)).
  set (VN := hd zero (dot_product [b1; b2; b3] normals)).
  set (LN := hd zero (dot_product [a1; a2; a3] normals)).
  rewrite !brdf_scalar.
  rewrite !(Rmult_comm (g1_formula _ XH LN)).
  now replace (4 * LN * VN) with (4 * VN * LN) by ring.
Qed.

Lemma evaluate_brdf_reciprocal_witness :
  evaluate_brdf [0; 0; 1] [3/5; 0; 4/5] [0; 0; 1]
                [1/2; 1/2; 1/2] [1/2; 1/2; 1/2] [4/100; 4/100; 4/100]
  = evaluate_brdf [3/5; 0; 4/5] [0; 0; 1] [0; 0; 1]
                  [1/2; 1/2; 1/2] [1/2; 1/2; 1/2] [4/100; 4/100; 4/100].
Proof.
  apply evaluate_brdf_reciprocal. rewrite !dot_product_exact. f_equal. lra.
Defined.

End TermsExact.

(** ** The surface coordinates of the patch *)

Section CoordinatesOfThePatch.

Context {F : Type} {SF : Scalar F}.

Lemma map2M_map_same {A B C X : Type} (f : A -> B -> option C)
    (fa : X -> A) (fb : X -> B) (fc : X -> C) (xs : list X) :
  (forall x, In x xs -> f (fa x) (fb x) = Some (fc x)) ->
  map2M f (map fa xs) (map fb xs) = Some (map fc xs).
Proof.
  induction xs as [|x xs IH]; intros Hf; simpl; [reflexivity|].
  rewrite Hf by (now left). rewrite IH; [reflexivity|].
  intros y Hy. apply Hf. now right.
Qed.

Lemma repeat_as_map {A X : Type} (y : A) (xs : list X) :
  repeat y (length xs) = map (fun _ => y) xs.
Proof. induction xs as [|x xs IH]; simpl; [reflexivity|now rewrite IH]. Qed.

Lemma cons_columns_diagonal {A : Type} (f : A -> list A) (row : list A) :
  cons_columns row (map f row) = map (fun x => x :: f x) row.
Proof. induction row as [|x row IH]; simpl; [reflexivity|now rewrite IH]. Qed.

Lemma transpose_repeat {A : Type} (row : list A) (h w : nat) :
  length row = w ->
  transpose w (repeat row h) = map (fun x => repeat x h) row.
Proof.
  intros <-. induction h as [|h IH]; simpl.
  - apply repeat_as_map.
  - now rewrite IH, cons_columns_diagonal.
Qed.

(** The coordinates of a square patch, row by row. *)
Lemma surface_coordinates_grid (n : nat) :
  let xs := linspace (lit (-1) 1) (lit 1 1) n in
  surface_coordinates n n
  = Some (map (fun xr =>
                 map (fun xc => [xc; fmul (lit (-1) 1) xr; zero]) xs)
              xs).
Proof.
  intros xs. unfold surface_coordinates. fold xs.
  assert (Hn : length xs = n) by apply length_linspace.
  clearbody xs. subst n.
  rewrite transpose_repeat by apply length_map.
  rewrite repeat_as_map.
  rewrite !map_map.
  unfold cat_channels, grid_map2M.
  rewrite (@map2M_map_same _ _ _ _ _ _ _
             (fun xr => map (fun xc => [xc; fmul (lit (-1) 1) xr]) xs)).
  - rewrite (@map2M_map_same _ _ _ _ _
               (fun xr => map (fun xc => [xc; fmul (lit (-1) 1) xr]) xs) _
               (fun xr =>
                  map (fun xc => [xc; fmul (lit (-1) 1) xr; zero]) xs));
      [reflexivity|].
    intros xr _. now apply map2M_map_same.
  - intros xr _. rewrite map_repeat. cbn [map].
    rewrite repeat_as_map.
    now apply map2M_map_same.
Qed.

(** X8: the surface coordinates of a square patch are built for every size,
    and the pixel in row [r] and column [c] is at (x_c, -1 * x_r, 0), where
    x is [linspace(-1, 1, n)]: x follows the column and y the row,
    negated. *)
Theorem surface_coordinates_pixel (n : nat) :
  let xs := linspace (lit (-1) 1) (lit 1 1) n in
  exists coords,
    surface_coordinates n n = Some coords /\
    forall r c xr xc,
      nth_error xs r = Some xr -> nth_error xs c = Some xc ->
      grid_nth coords r c = Some [xc; fmul (lit (-1) 1) xr; zero].
Proof.
  intros xs. eexists. split; [apply surface_coordinates_grid|].
  intros r c xr xc Hr Hc. fold xs. unfold grid_nth.
  rewrite nth_error_map, Hr. cbn [option_map and_then].
  now rewrite nth_error_map, Hc.
Qed.


(** The x and the y coordinates of a patch that is not square have
    transposed shapes, and their concatenation raises. *)
Lemma surface_coordinates_non_square (h w : nat) :
  h <> w -> surface_coordinates (F := F) h w = None.
Proof.
  intros Hshape. unfold surface_coordinates.
  set (row := map (fun x : F => [x]) (linspace (lit (-1) 1) (lit 1 1) w)).
  assert (Hrow : length row = w)
    by (unfold row; now rewrite length_map, length_linspace).
  destruct (cat_channels (repeat row h) _) as [xy|] eqn:Hcat; [|reflexivity].
  exfalso. apply Hshape.
  apply map2M_length in Hcat. destruct Hcat as [Hx Hy].
  rewrite repeat_length in Hx.
  rewrite length_map, (@transpose_repeat _ row h w Hrow), length_map in Hy.
  congruence.
Qed.

(** X9: a material that is not square cannot be rendered: [render] raises
    for every scene. *)
Theorem render_non_square_raises (scene : Scene F) (svbrdf : grid F) :
  length svbrdf <> length (hd [] svbrdf) ->
  render scene svbrdf = None.
Proof.
  intros Hshape. unfold render.
  now rewrite (surface_coordinates_non_square Hshape).
Qed.

End CoordinatesOfThePatch.

Lemma render_non_square_raises_witness :
  render Samples.scene_overhead [[Samples.flat_cell; Samples.flat_cell]] = None.
Proof.
  apply render_non_square_raises. simpl. discriminate.
Defined.

Section CoordinatesExact.

Import Exact.

Local Open Scope R_scope.

Lemma of_nat_exact (n : nat) : of_nat (F := R) n = INR n.
Proof.
  unfold of_nat. cbn [lit Exact.scalar]. unfold literal.
  rewrite <- INR_IZR_INZ. field.
Qed.

Lemma linspace_exact (n i : nat) :
  (2 <= n)%nat -> (i < n)%nat ->
  nth_error (linspace (lit (-1) 1) (lit 1 1) n) i
  = Some (2 * INR i / INR (n - 1) - 1).
Proof.
  intros Hn Hi.
  destruct n as [|[|m]]; try lia.
  unfold linspace.
  rewrite nth_error_map, nth_error_seq.
  destruct (Nat.ltb i (S (S m))) eqn:Hlt; [|apply Nat.ltb_ge in Hlt; lia].
  cbn [option_map Nat.add].
  assert (Hden : INR (S (S m) - 1) <> 0).
  { apply not_0_INR. lia. }
  rewrite !of_nat_exact.
  cbn [lit fadd fsub fmul fdiv Exact.scalar]. unfold literal.
  f_equal.
  destruct (Nat.ltb i (Nat.div (S (S m)) 2)).
  - field. exact Hden.
  - replace (S (S m) - i - 1)%nat with (S (S m) - 1 - i)%nat by lia.
    rewrite (minus_INR (S (S m) - 1) i) by lia.
    field. exact Hden.
Qed.

(** X10: in exact arithmetic the pixel centres of a patch of at least 2 x 2
    pixels are evenly spaced over the square from (-1, 1, 0), the first
    pixel of the first row, to (1, -1, 0), the last pixel of the last row:
    x grows with the column and y falls with the row. *)
Theorem surface_coordinates_span (n r c : nat) :
  (2 <= n)%nat -> (r < n)%nat -> (c < n)%nat ->
  exists coords,
    surface_coordinates n n = Some coords /\
    grid_nth coords r c
    = Some [2 * INR c / INR (n - 1) - 1; 1 - 2 * INR r / INR (n - 1); 0] /\
    grid_nth coords 0 0 = Some [-1; 1; 0] /\
    grid_nth coords (n - 1) (n - 1) = Some [1; -1; 0].
Proof.
  intros Hn Hr Hc. eexists. split; [apply surface_coordinates_grid|].
  assert (Hden : INR (n - 1) <> 0) by (apply not_0_INR; lia).
  assert (Hcell : forall i j, (i < n)%nat -> (j < n)%nat ->
    grid_nth
      (map (fun xr : R =>
              map (fun xc : R => [xc; fmul (lit (-1) 1) xr; zero])
                  (linspace (lit (-1) 1) (lit 1 1) n))
           (linspace (lit (-1) 1) (lit 1 1) n)) i j
    = Some [2 * INR j / INR (n - 1) - 1; 1 - 2 * INR i / INR (n - 1); 0]).
  { intros i j Hi Hj. unfold grid_nth.
    rewrite nth_error_map, (linspace_exact Hn Hi). cbn [option_map and_then].
    rewrite nth_error_map, (linspace_exact Hn Hj). cbn [option_map].
    unfold zero. cbn [lit fmul Exact.scalar]. unfold literal.
    replace (-1 / 1 * (2 * INR i / INR (n - 1) - 1))
      with (1 - 2 * INR i / INR (n - 1)) by (field; exact Hden).
    now replace (0 / 1) with 0 by field. }
  split; [now apply Hcell|]. split.
  - rewrite Hcell by lia. cbn [INR].
    replace (2 * 0 / INR (n - 1) - 1) with (-1) by (field; exact Hden).
    now replace (1 - 2 * 0 / INR (n - 1)) with 1 by (field; exact Hden).
  - rewrite Hcell by lia.
    replace (2 * INR (n - 1) / INR (n - 1) - 1) with 1 by (field; exact Hden).
    now replace (1 - 2 * INR (n - 1) / INR (n - 1)) with (-1)
      by (field; exact Hden).
Qed.

Lemma surface_coordinates_span_witness :
  exists coords,
    surface_coordinates 3 3 = Some coords /\
    grid_nth coords 1 2
    = Some [2 * INR 2 / INR (3 - 1) - 1; 1 - 2 * INR 1 / INR (3 - 1); 0] /\
    grid_nth coords 0 0 = Some [-1; 1; 0] /\
    grid_nth coords (3 - 1) (3 - 1) = Some [1; -1; 0].
Proof. apply surface_coordinates_span; lia. Defined.

End CoordinatesExact.

(** ** The floor of the roughness *)

Section RoughnessFloor.

Context {F : Type} {SF : Scalar F}.

Lemma map2M_ext {A B C : Type} (f g : A -> B -> option C)
    (a : list A) (b : list B) :
  (forall x y, f x y = g x y) -> map2M f a b = map2M g a b.
Proof.
  intros Hfg. revert b.
  induction a as [|x a IH]; intros [|y b]; simpl; try reflexivity.
  now rewrite Hfg, IH.
Qed.

Lemma map2M_map_right {A B B' C : Type} (f : A -> B -> option C)
    (g : B' -> B) (a : list A) (b : list B') :
  map2M f a (map g b) = map2M (fun x y => f x (g y)) a b.
Proof.
  revert b. induction a as [|x a IH]; intros [|y b]; simpl; try reflexivity.
  now rewrite IH.
Qed.

Lemma length_floor_roughness (cell : vec F) :
  length (floor_roughness cell) = length cell.
Proof.
  unfold floor_roughness, clamp_roughness.
  rewrite !length_app, length_map, !length_firstn, !length_skipn. lia.
Qed.

(** The one law of the kernels the floor needs: clamping twice is clamping
    once. *)
Hypothesis clamp_idempotent : forall x : F,
  fclamp_min (lit 1 1000) (fclamp_min (lit 1 1000) x)
  = fclamp_min (lit 1 1000) x.

Lemma render_cell_floor_roughness (scene : Scene F) (coords cell : vec F) :
  render_cell scene coords (floor_roughness cell)
  = render_cell scene coords cell.
Proof.
  unfold render_cell, render_cell_factors, unpack_svbrdf.
  rewrite length_floor_roughness.
  destruct (Nat.eqb (length cell) 12) eqn:Hlen; [|reflexivity].
  apply Nat.eqb_eq in Hlen.
  do 12 (destruct cell as [|? cell]; [discriminate|]).
  destruct cell; [|discriminate].
  unfold floor_roughness, clamp_roughness.
  cbn [firstn skipn map app].
  now rewrite !clamp_idempotent.
Qed.

Lemma render_floor_roughness (scene : Scene F) (svbrdf : grid F) :
  render scene (map (map floor_roughness) svbrdf) = render scene svbrdf.
Proof.
  unfold render.
  assert (Hw : length (hd [] (map (map floor_roughness) svbrdf))
               = length (hd [] svbrdf)).
  { destruct svbrdf as [|row g]; [reflexivity|]. simpl. apply length_map. }
  rewrite length_map, Hw.
  destruct (surface_coordinates _ _) as [coords|]; [|reflexivity].
  unfold grid_map2M. rewrite map2M_map_right.
  apply map2M_ext. intros x y. rewrite map2M_map_right.
  apply map2M_ext. intros c cell. apply render_cell_floor_roughness.
Qed.

End RoughnessFloor.

Section RoughnessFloorBinary32.

Import F32.

Lemma clamp_lo_idempotent (x : t) :
  clamp_lo (literal 1 1000) (clamp_lo (literal 1 1000) x)
  = clamp_lo (literal 1 1000) x.
Proof.
  unfold clamp_lo.
  destruct (ltb x (literal 1 1000)) eqn:Hx.
  - reflexivity.
  - now rewrite Hx.
Qed.

(** X11: in binary32 a material renders exactly as the same material with its
    roughness floored at 0.001: no roughness below the floor, zero and the
    negative values included, makes a difference of its own. *)
Theorem render_roughness_floor (scene : Scene t) (svbrdf : grid t) :
  render scene (map (map floor_roughness) svbrdf) = render scene svbrdf.
Proof. apply render_floor_roughness. exact clamp_lo_idempotent. Qed.

End RoughnessFloorBinary32.

(** ** Reading a sample: the edges *)

Section PythonSliceFacts.

Context {A : Type}.

(** The slice [l[ic - min(ic, used) : ic]]: the last [min(ic, used)] of the
    first [ic] elements, and nothing when [used] is negative. *)
Lemma py_slice_window (l : list A) (ic used : Z) :
  (0 <= ic <= Z.of_nat (length l))%Z ->
  py_slice l (ic - Z.min ic used) ic
  = firstn (Z.to_nat (Z.min ic used))
           (skipn (Z.to_nat ic - Z.to_nat (Z.min ic used)) l).
Proof.
  intros Hic. unfold py_slice, py_bound.
  destruct (Z.ltb_spec (ic - Z.min ic used) 0) as [H|_]; [lia|].
  destruct (Z.ltb_spec ic 0) as [H|_]; [lia|].
  rewrite (Z.min_r _ ic) by lia.
  destruct (Z.le_gt_cases 0 used) as [Hused|Hused].
  - rewrite Z.min_r by lia. f_equal; [lia|]. f_equal. lia.
  - replace (Z.to_nat (Z.min ic used)) with 0%nat by lia.
    replace (Z.to_nat (ic - Z.min (Z.of_nat (length l)) (ic - Z.min ic used)))
      with 0%nat by lia.
    reflexivity.
Qed.

Lemma firstn_of_seq (count start len : nat) :
  (count <= len)%nat -> firstn count (seq start len) = seq start count.
Proof.
  revert start len. induction count as [|count IH]; intros start len Hle.
  - reflexivity.
  - destruct len as [|len]; [lia|]. simpl. f_equal. apply IH. lia.
Qed.

Lemma window_of_map_seq {B : Type} (f : nat -> B) (n first count : nat) :
  (first + count <= n)%nat ->
  firstn count (skipn first (map f (seq 0 n))) = map f (seq first count).
Proof.
  intros Hle. rewrite skipn_map, firstn_map, skipn_seq.
  rewrite firstn_of_seq by lia. reflexivity.
Qed.

Lemma py_index_out_of_range (l : list A) (i : Z) :
  (Z.of_nat (length l) <= i)%Z -> py_index l i = None.
Proof.
  intros Hi. unfold py_index.
  destruct (Z.leb_spec 0 i); destruct (Z.ltb_spec i (Z.of_nat (length l)));
    try lia; simpl;
    destruct (Z.leb_spec (- Z.of_nat (length l)) i);
    destruct (Z.ltb_spec i 0); try lia; reflexivity.
Qed.

Lemma py_index_in_range (l : list A) (i : nat) :
  (i < length l)%nat -> py_index l (Z.of_nat i) = nth_error l i.
Proof.
  intros Hi. unfold py_index.
  destruct (Z.leb_spec 0 (Z.of_nat i)); [|lia].
  destruct (Z.ltb_spec (Z.of_nat i) (Z.of_nat (length l))); [|lia].
  simpl. now rewrite Nat2Z.id.
Qed.

End PythonSliceFacts.

Section ReadSampleEdges.

Context {F : Type} {SF : Scalar F}.

Variable imread : nat -> option (grid F).

(** X12: a dataset that expects no part at all in a file (no input image and
    no material map, or a negative count) cannot be read: [chunk] raises on
    every file. *)
Theorem read_sample_without_parts (self : SvbrdfDataset) (file_path : nat) :
  (input_image_count self + (if no_svbrdf self then 0 else 4) <= 0)%Z ->
  read_sample imread self file_path = None.
Proof.
  intros Hcount. unfold read_sample.
  destruct (imread file_path) as [full_image|]; [|reflexivity].
  unfold chunk.
  destruct (Z.leb_spec (input_image_count self
                        + (if no_svbrdf self then 0 else 4)) 0) as [_|H];
    [reflexivity|lia].
Qed.

Lemma width_columns (lo len : nat) (g : grid F) :
  width (columns lo len g) = Nat.min len (width g - lo).
Proof.
  unfold width, columns. destruct g as [|row g]; simpl.
  - now rewrite Nat.min_0_r.
  - now rewrite length_firstn, length_skipn.
Qed.

(** A file narrower than the number of parts is cut into pieces of one
    pixel. *)
Lemma chunk_narrow (chunks : Z) (g : grid F) :
  (0 < Z.of_nat (width g) <= chunks)%Z ->
  chunk chunks g = Some (map (fun j => columns (j * 1) 1 g) (seq 0 (width g))).
Proof.
  intros Hw. unfold chunk.
  destruct (Z.leb_spec chunks 0) as [H|_]; [lia|].
  assert (Hsplit : ((Z.of_nat (width g) + chunks - 1) / chunks = 1)%Z).
  { symmetry. apply Z.div_unique with (r := (Z.of_nat (width g) - 1)%Z);
      [left; lia|ring]. }
  rewrite Hsplit. simpl Z.eqb. cbv iota.
  rewrite Z.div_1_r.
  replace (Z.to_nat (Z.max (Z.of_nat (width g) + 1 - 1) 1)) with (width g)
    by lia.
  reflexivity.
Qed.

(** X13: a file with fewer pixel columns than the dataset expects parts (the
    input images and the four maps) cannot be read: the pieces are one pixel
    wide and the last map is missing. *)
Theorem read_sample_narrow_file (self : SvbrdfDataset) (file_path : nat)
    (full_image : grid F) :
  no_svbrdf self = false ->
  imread file_path = Some full_image ->
  (0 <= input_image_count self)%Z ->
  (0 < Z.of_nat (width full_image) < input_image_count self + 4)%Z ->
  read_sample imread self file_path = None.
Proof.
  intros Hno Hread Hic Hw. unfold read_sample.
  rewrite Hread, Hno, chunk_narrow by lia.
  set (pieces := map (fun j => columns (j * 1) 1 full_image)
                     (seq 0 (width full_image))).
  destruct (cat_parts pieces) as [image_parts|] eqn:Hcat; [|reflexivity].
  assert (Hparts : image_parts = pieces).
  { unfold cat_parts in Hcat. destruct pieces; [discriminate|].
    destruct (forallb _ _); congruence. }
  subst image_parts.
  assert (Hlen : length pieces = width full_image)
    by (unfold pieces; now rewrite length_map, length_seq).
  rewrite (@py_index_out_of_range _ pieces (input_image_count self + 3))
    by lia.
  destruct (py_index pieces (input_image_count self + 0)); [|reflexivity].
  destruct (py_index pieces (input_image_count self + 1)); [|reflexivity].
  destruct (py_index pieces (input_image_count self + 2)); reflexivity.
Qed.


(** A rectangular file whose width is [n] times [s] is cut into [n] pieces
    of that height and of width [s], which can be stacked. *)
Lemma chunk_layout (n s : nat) (full_image : grid F) :
  (0 < n)%nat -> (0 < s)%nat -> full_image <> [] ->
  Forall (fun row => length row = (n * s)%nat) full_image ->
  let piece := fun j => columns (j * s) s full_image in
  chunk (Z.of_nat n) full_image = Some (map piece (seq 0 n)) /\
  cat_parts (map piece (seq 0 n)) = Some (map piece (seq 0 n)) /\
  forall j, (j < n)%nat ->
    length (piece j) = length full_image /\
    Forall (fun row => length row = s) (piece j).
Proof.
  intros Hn Hs Hne Hrows piece.
  assert (Hw : width full_image = (n * s)%nat).
  { unfold width. destruct full_image as [|row g]; [congruence|].
    now inversion Hrows. }
  assert (Hpiece : forall j, (j < n)%nat ->
            length (piece j) = length full_image /\
            Forall (fun row => length row = s) (piece j)).
  { intros j Hj. apply columns_shape with (w := (n * s)%nat); auto. nia. }
  split; [now apply chunk_even|]. split; [|exact Hpiece].
  apply cat_parts_same_width with (s := s).
  - intros E. apply (f_equal (@length _)) in E.
    rewrite length_map, length_seq in E. simpl in E. lia.
  - intros q Hq. apply in_map_iff in Hq. destruct Hq as (j & <- & Hj).
    apply in_seq in Hj. destruct (Hpiece j) as [Hl Hf]; [lia|].
    unfold width. destruct (piece j) as [|row g] eqn:E.
    + simpl in Hl. destruct full_image; [congruence|discriminate].
    + now inversion Hf.
Qed.

Lemma py_index_piece {B : Type} (piece : nat -> B) (n : nat) (i : Z) :
  (0 <= i < Z.of_nat n)%Z ->
  py_index (map piece (seq 0 n)) i = Some (piece (Z.to_nat i)).
Proof.
  intros Hi. replace i with (Z.of_nat (Z.to_nat i)) at 1 by lia.
  rewrite py_index_in_range by (rewrite length_map, length_seq; lia).
  rewrite nth_error_map, nth_error_seq.
  destruct (Nat.ltb (Z.to_nat i) n) eqn:Hlt; [reflexivity|].
  apply Nat.ltb_ge in Hlt. lia.
Qed.

Lemma slice_of_pieces {B : Type} (piece : nat -> B) (n : nat) (ic used : Z) :
  (0 <= ic <= Z.of_nat n)%Z ->
  py_slice (map piece (seq 0 n)) (ic - Z.min ic used) ic
  = map piece (seq (Z.to_nat ic - Z.to_nat (Z.min ic used))
                   (Z.to_nat (Z.min ic used))).
Proof.
  intros Hic.
  rewrite py_slice_window by (rewrite length_map, length_seq; lia).
  apply window_of_map_seq. lia.
Qed.

(** What [read_sample] returns for a file that holds [input_image_count]
    input images and then the four maps, each [s] pixels wide. *)
Lemma read_sample_window (self : SvbrdfDataset) (file_path : nat)
    (full_image : grid F) (s : nat) :
  no_svbrdf self = false ->
  imread file_path = Some full_image ->
  full_image <> [] -> (0 < s)%nat ->
  (0 <= input_image_count self)%Z ->
  Forall (fun row => Z.of_nat (length row)
                     = ((input_image_count self + 4) * Z.of_nat s)%Z)
         full_image ->
  let piece := fun j => columns (j * s) s full_image in
  let count :=
    Z.to_nat (Z.min (input_image_count self) (used_input_image_count self)) in
  exists svbrdf,
    read_sample imread self file_path
    = Some (map piece (seq (Z.to_nat (input_image_count self) - count) count),
            svbrdf).
Proof.
  intros Hno Hread Hne Hs Hic0 Hrows piece count.
  set (ic := Z.to_nat (input_image_count self)).
  assert (Hic : input_image_count self = Z.of_nat ic) by (unfold ic; lia).
  assert (Hrows' : Forall (fun row => length row = ((ic + 4) * s)%nat)
                          full_image).
  { eapply Forall_impl; [|exact Hrows]. intros row Hrow. rewrite Hic in Hrow.
    nia. }
  destruct (@chunk_layout (ic + 4) s full_image) as (Hchunk & Hcat & Hpiece);
    auto; [lia|].
  fold piece in Hchunk, Hcat, Hpiece.
  assert (Hpack : exists svbrdf,
            pack_svbrdf_maps
              (map (map (map decode_from_unit_interval)) (piece ic))
              (piece (ic + 1)%nat) (piece (ic + 2)%nat) (piece (ic + 3)%nat)
            = Some svbrdf).
  { destruct (Hpiece ic) as [H0l H0f]; [lia|].
    destruct (Hpiece (ic + 1)%nat) as [H1l H1f]; [lia|].
    destruct (Hpiece (ic + 2)%nat) as [H2l H2f]; [lia|].
    destruct (Hpiece (ic + 3)%nat) as [H3l H3f]; [lia|].
    assert (Hdl : length (map (map (map decode_from_unit_interval)) (piece ic))
                  = length full_image) by now rewrite length_map.
    assert (Hdf : Forall (fun row => length row = s)
                    (map (map (map decode_from_unit_interval)) (piece ic))).
    { apply Forall_map. eapply Forall_impl; [|exact H0f].
      intros row Hrow. now rewrite length_map. }
    unfold pack_svbrdf_maps. unfold piece in *.
    destruct (cat_channels_same_shape Hdl Hdf H1l H1f) as (nd & -> & Hl & Hf).
    destruct (cat_channels_same_shape Hl Hf H2l H2f) as (ndr & -> & Hl' & Hf').
    destruct (cat_channels_same_shape Hl' Hf' H3l H3f) as (x & -> & _).
    eauto. }
  destruct Hpack as (svbrdf & Hpack). exists svbrdf.
  unfold read_sample. rewrite Hread, Hno.
  replace (input_image_count self + 4)%Z with (Z.of_nat (ic + 4)) by lia.
  rewrite Hchunk, Hcat.
  rewrite !py_index_piece by lia.
  replace (Z.to_nat (input_image_count self + 0)) with ic by lia.
  replace (Z.to_nat (input_image_count self + 1)) with (ic + 1)%nat by lia.
  replace (Z.to_nat (input_image_count self + 2)) with (ic + 2)%nat by lia.
  replace (Z.to_nat (input_image_count self + 3)) with (ic + 3)%nat by lia.
  rewrite Hpack, slice_of_pieces by lia.
  reflexivity.
Qed.

(** X14: when at least as many images are used as the file holds,
    [read_sample] returns all the input images of the file, in the order of
    the file; when none is used, or a negative number, it returns no image
    and raises nothing. *)
Theorem read_sample_all_or_none (self : SvbrdfDataset) (file_path : nat)
    (full_image : grid F) (s : nat) :
  no_svbrdf self = false ->
  imread file_path = Some full_image ->
  full_image <> [] -> (0 < s)%nat ->
  (0 <= input_image_count self)%Z ->
  Forall (fun row => Z.of_nat (length row)
                     = ((input_image_count self + 4) * Z.of_nat s)%Z)
         full_image ->
  let piece := fun j => columns (j * s) s full_image in
  exists svbrdf,
    (input_image_count self <= used_input_image_count self ->
     read_sample imread self file_path
     = Some (map piece (seq 0 (Z.to_nat (input_image_count self))), svbrdf))%Z /\
    (used_input_image_count self <= 0 ->
     read_sample imread self file_path = Some ([], svbrdf))%Z.
Proof.
  intros Hno Hread Hne Hs Hic Hrows piece.
  destruct (read_sample_window self Hno Hread Hne Hs Hic Hrows)
    as (svbrdf & Hrs).
  exists svbrdf. fold piece in Hrs. split; intros Hused; rewrite Hrs.
  - rewrite Z.min_l by lia. now rewrite Nat.sub_diag.
  - now replace (Z.to_nat (Z.min (input_image_count self)
                                 (used_input_image_count self)))
      with 0%nat by lia.
Qed.

Lemma map2M_repeat {A B C : Type} (f : A -> B -> option C)
    (a : A) (b : B) (c : C) (n : nat) :
  f a b = Some c -> map2M f (repeat a n) (repeat b n) = Some (repeat c n).
Proof.
  intros Hf. induction n as [|n IH]; simpl; [reflexivity|].
  now rewrite Hf, IH.
Qed.

Lemma cat_channels_repeat (a b : vec F) (h w : nat) :
  cat_channels (repeat (repeat a w) h) (repeat (repeat b w) h)
  = Some (repeat (repeat (a ++ b) w) h).
Proof.
  unfold cat_channels, grid_map2M.
  apply map2M_repeat. now apply map2M_repeat.
Qed.

Lemma pack_dummy (h : nat) :
  let normals := repeat (repeat [zero; zero; one] h) h in
  let zeros := map (map (map (fun _ : F => zero))) normals in
  pack_svbrdf_maps normals zeros zeros zeros
  = Some (repeat (repeat dummy_cell h) h).
Proof.
  intros normals zeros. unfold zeros, normals, pack_svbrdf_maps.
  rewrite !map_repeat. cbn [map].
  now rewrite !cat_channels_repeat.
Qed.

(** X15: for a dataset without material maps a file is cut into
    [input_image_count] pieces, and the material of the sample is made up:
    the normal (0, 0, 1) and zero diffuse, roughness and specular in every
    pixel of a square whose side is the height of the file. *)
Theorem read_sample_dummy_material (self : SvbrdfDataset) (file_path : nat)
    (full_image : grid F) (s : nat) :
  no_svbrdf self = true ->
  imread file_path = Some full_image ->
  full_image <> [] -> (0 < s)%nat ->
  (0 < input_image_count self)%Z ->
  Forall (fun row => Z.of_nat (length row)
                     = (input_image_count self * Z.of_nat s)%Z)
         full_image ->
  let piece := fun j => columns (j * s) s full_image in
  let count :=
    Z.to_nat (Z.min (input_image_count self) (used_input_image_count self)) in
  read_sample imread self file_path
  = Some (map piece (seq (Z.to_nat (input_image_count self) - count) count),
          repeat (repeat dummy_cell (length full_image)) (length full_image)).
Proof.
  intros Hno Hread Hne Hs Hic0 Hrows piece count.
  set (ic := Z.to_nat (input_image_count self)).
  assert (Hic : input_image_count self = Z.of_nat ic) by (unfold ic; lia).
  assert (Hrows' : Forall (fun row => length row = (ic * s)%nat) full_image).
  { eapply Forall_impl; [|exact Hrows]. intros row Hrow. rewrite Hic in Hrow.
    nia. }
  destruct (@chunk_layout ic s full_image) as (Hchunk & Hcat & _);
    auto; [lia|].
  fold piece in Hchunk, Hcat.
  unfold read_sample. rewrite Hread, Hno.
  replace (input_image_count self + 0)%Z with (Z.of_nat ic) by lia.
  rewrite Hchunk, Hcat, pack_dummy.
  rewrite slice_of_pieces by lia.
  reflexivity.
Qed.

End ReadSampleEdges.

Lemma read_sample_without_parts_witness :
  read_sample (fun _ => Some Samples.file_1_image)
              (SvbrdfDataset_init [0] 1 0 1 false false true true) 0
  = None.
Proof. apply read_sample_without_parts. simpl. lia. Defined.

Lemma read_sample_narrow_file_witness :
  read_sample (fun _ => Some Samples.file_1_image)
              (Samples.dataset_3_images 1) 0
  = None.
Proof.
  apply (@read_sample_narrow_file _ _ _ _ _ Samples.file_1_image);
    try reflexivity; simpl; lia.
Defined.

Lemma read_sample_all_or_none_witness :
  let piece := fun j => columns (j * 1) 1 Samples.file_3_images in
  exists svbrdf,
    (input_image_count (Samples.dataset_3_images 5)
       <= used_input_image_count (Samples.dataset_3_images 5) ->
     read_sample (fun _ => Some Samples.file_3_images)
                 (Samples.dataset_3_images 5) 0
     = Some (map piece
                 (seq 0 (Z.to_nat (input_image_count (Samples.dataset_3_images 5)))),
             svbrdf))%Z /\
    (used_input_image_count (Samples.dataset_3_images 5) <= 0 ->
     read_sample (fun _ => Some Samples.file_3_images)
                 (Samples.dataset_3_images 5) 0
     = Some ([], svbrdf))%Z.
Proof.
  apply (@read_sample_all_or_none _ _ (fun _ => Some Samples.file_3_images)
           (Samples.dataset_3_images 5) 0%nat Samples.file_3_images 1%nat).
  - reflexivity.
  - reflexivity.
  - discriminate.
  - lia.
  - simpl. lia.
  - repeat constructor.
Defined.

Lemma read_sample_dummy_material_witness :
  read_sample (fun _ => Some [[Samples.gray 1; Samples.gray 2; Samples.gray 3]])
              (SvbrdfDataset_init [0%nat] 1 3 2 false false true true) 0
  = Some ([[[Samples.gray 2]]; [[Samples.gray 3]]], [[dummy_cell]]).
Proof.
  apply (@read_sample_dummy_material _ _
           (fun _ => Some [[Samples.gray 1; Samples.gray 2; Samples.gray 3]])
           (SvbrdfDataset_init [0%nat] 1 3 2 false false true true) 0%nat
           [[Samples.gray 1; Samples.gray 2; Samples.gray 3]] 1%nat).
  - reflexivity.
  - reflexivity.
  - discriminate.
  - lia.
  - simpl. lia.
  - repeat constructor.
Defined.

(** ** The dataset of photographs *)

Section CropWindow.

Local Open Scope Z_scope.

(** X16: the square cropped from a photograph has the shorter side of the
    photograph as its side and is centred along the longer side: with the
    anchor read as (row, column), the square lies inside the photograph and
    the margins before and after it differ by one pixel at most, the odd
    pixel going after it.  A square photograph is not cropped. *)
Theorem crop_window_centred (width height : Z) :
  0 < width -> 0 < height ->
  match crop_window width height with
  | Some ((row, col), size) =>
      width <> height /\
      size = Z.min width height /\
      0 <= row /\ row + size <= height /\
      0 <= col /\ col + size <= width /\
      0 <= (height - size - row) - row <= 1 /\
      0 <= (width - size - col) - col <= 1
  | None => width = height
  end.
Proof.
  intros Hw Hh. unfold crop_window.
  destruct (Z.ltb_spec height width) as [Hl|Hl].
  - pose proof (Z.div_mod (width - height) 2 ltac:(lia)) as Hd.
    pose proof (Z.mod_pos_bound (width - height) 2 ltac:(lia)) as Hm.
    repeat split; lia.
  - destruct (Z.ltb_spec width height) as [Hp|Hp].
    + pose proof (Z.div_mod (height - width) 2 ltac:(lia)) as Hd.
      pose proof (Z.mod_pos_bound (height - width) 2 ltac:(lia)) as Hm.
      repeat split; lia.
    + lia.
Qed.

Lemma crop_window_centred_witness :
  match crop_window 7 4 with
  | Some ((row, col), size) =>
      7 <> 4 /\
      size = Z.min 7 4 /\
      0 <= row /\ row + size <= 4 /\
      0 <= col /\ col + size <= 7 /\
      0 <= (4 - size - row) - row <= 1 /\
      0 <= (7 - size - col) - col <= 1
  | None => 7 = 4
  end.
Proof. apply crop_window_centred; lia. Defined.

End CropWindow.

Section ImageDatasetFacts.

Context {F : Type} {SF : Scalar F}.

Variable imread : nat -> option (grid F).

(** X17: for a dataset without material maps, as [ImageDataset] sets it up,
    the slice [image_parts[-0:]] is the whole list: next to the last
    [min(input_image_count, used_input_image_count)] images,
    [read_sample_base] returns every part of the file as material maps, not
    an empty list. *)
Theorem read_sample_base_without_maps (self : BaseDataset) (idx : Z)
    (file_path : nat) (full_image : grid F) (s : nat) :
  base_input_material_map_count self = 0%Z ->
  py_index (base_file_paths self) idx = Some file_path ->
  imread file_path = Some full_image ->
  full_image <> [] -> (0 < s)%nat ->
  (0 < base_input_image_count self)%Z ->
  Forall (fun row => Z.of_nat (length row)
                     = (base_input_image_count self * Z.of_nat s)%Z)
         full_image ->
  let piece := fun j => columns (j * s) s full_image in
  let ic := Z.to_nat (base_input_image_count self) in
  let count :=
    Z.to_nat (Z.min (base_input_image_count self)
                    (base_used_input_image_count self)) in
  read_sample_base imread self idx
  = Some (map piece (seq (ic - count) count), map piece (seq 0 ic)).
Proof.
  intros Hmaps Hidx Hread Hne Hs Hic0 Hrows piece ic count.
  assert (Hic : base_input_image_count self = Z.of_nat ic) by (unfold ic; lia).
  assert (Hrows' : Forall (fun row => length row = (ic * s)%nat) full_image).
  { eapply Forall_impl; [|exact Hrows]. intros row Hrow. rewrite Hic in Hrow.
    nia. }
  destruct (@chunk_layout _ ic s full_image) as (Hchunk & Hcat & _);
    auto; [lia|].
  fold piece in Hchunk, Hcat.
  unfold read_sample_base. rewrite Hidx, Hread, Hmaps.
  replace (base_input_image_count self + 0)%Z with (Z.of_nat ic) by lia.
  rewrite Hchunk, Hcat, slice_of_pieces by lia.
  unfold py_slice_from, py_bound. simpl Z.opp. simpl Z.ltb. cbv iota.
  rewrite (Z.min_r (Z.of_nat (length _)) 0) by lia. reflexivity.
Qed.

End ImageDatasetFacts.

Lemma read_sample_base_without_maps_witness :
  read_sample_base
    (fun _ => Some [[Samples.gray 1; Samples.gray 2; Samples.gray 3]])
    (image_base (ImageDataset_init [0%nat] 1 3 2 true)) 0
  = Some ([[[Samples.gray 2]]; [[Samples.gray 3]]],
          [[[Samples.gray 1]]; [[Samples.gray 2]]; [[Samples.gray 3]]]).
Proof.
  apply (@read_sample_base_without_maps _
           (fun _ => Some [[Samples.gray 1; Samples.gray 2; Samples.gray 3]])
           (image_base (ImageDataset_init [0%nat] 1 3 2 true)) 0%Z 0%nat
           [[Samples.gray 1; Samples.gray 2; Samples.gray 3]] 1%nat).
  - reflexivity.
  - reflexivity.
  - reflexivity.
  - discriminate.
  - lia.
  - simpl. lia.
  - repeat constructor.
Defined.

Section ImageDatasetBinary32.

Import F32 F32Facts.

Variable imread : nat -> option (grid t).
Variable crop_square : grid t -> Z * Z -> Z -> grid t.
Variable gamma_decode : t -> t.
Variable interpolate : list (grid t) -> Z * Z -> option (list (grid t)).

(** X18: the images of a dataset of linear photographs are clipped after the
    bicubic resampling: in binary32 every value of an item lies in [0, 1],
    NaN apart, whatever overshoot the resampling made. *)
Theorem ImageDataset_getitem_clipped (self : ImageDataset) (idx : Z)
    (images : list (grid t)) :
  linear_input self = true ->
  ImageDataset_getitem imread crop_square gamma_decode interpolate self idx
    = Some images ->
  Forall (values_in (fun v => is_nan v = true \/ in_unit v = true)) images.
Proof.
  intros Hlin Hget. unfold ImageDataset_getitem in Hget.
  destruct (read_sample_base imread (image_base self) idx)
    as [[input_images maps]|]; [|discriminate].
  destruct (interpolate _ _) as [resized|]; [|discriminate].
  rewrite Hlin in Hget. injection Hget as <-.
  apply Forall_map, Forall_forall. intros image _.
  unfold values_in.
  apply Forall_map, Forall_forall. intros row _.
  apply Forall_map, Forall_forall. intros cell _.
  apply Forall_map, Forall_forall. intros v _.
  apply clamp_unit.
Qed.

End ImageDatasetBinary32.

Lemma ImageDataset_getitem_clipped_witness :
  Forall (values_in (fun v => F32.is_nan v = true \/ F32.in_unit v = true))
         [[[[F32.literal 1 1; F32.literal 0 1; F32.literal 3 10]]]].
Proof.
  apply (@ImageDataset_getitem_clipped
           (fun _ => Some [[[F32.literal 2 1; F32.literal (-1) 1;
                             F32.literal 3 10]]])
           Samples.keep_all (fun x => x) (fun images _ => Some images)
           (ImageDataset_init [0%nat] 1 1 1 true) 0%Z).
  - reflexivity.
  - vm_compute. reflexivity.
Defined.

(** ** Items of the dataset *)

Section Items.

Context {F : Type} {SF : Scalar F}.

Variable imread : nat -> option (grid F).
Variable crop_square : grid F -> Z * Z -> Z -> grid F.
Variable gamma_decode : F -> F.
Variable sampler : nat -> F -> F -> M F (list (vec F)).
Variable torch_exp : F -> F.
Variable np_log : F -> F.

(** X19: [__getitem__] indexes the files as a Python list: an index outside
    [-len, len) raises, and a negative index counts from the end. *)
Theorem getitem_index (self : SvbrdfDataset) (idx : Z) (r : Rng F) :
  let len := Z.of_nat (length (file_paths self)) in
  ((idx < - len \/ len <= idx)%Z ->
   getitem imread crop_square gamma_decode sampler torch_exp np_log self idx r
   = None) /\
  ((- len <= idx < 0)%Z ->
   getitem imread crop_square gamma_decode sampler torch_exp np_log self idx r
   = getitem imread crop_square gamma_decode sampler torch_exp np_log self
             (len + idx) r).
Proof.
  intros len. unfold getitem, prepare_sample, bind, lift, py_index.
  fold len. split; intros Hidx.
  - destruct (Z.leb_spec 0 idx); destruct (Z.ltb_spec idx len); try lia;
      simpl; destruct (Z.leb_spec (- len) idx); destruct (Z.ltb_spec idx 0);
      try lia; reflexivity.
  - destruct (Z.leb_spec 0 idx); [lia|].
    destruct (Z.leb_spec (- len) idx); [|lia].
    destruct (Z.ltb_spec idx 0); [|lia].
    destruct (Z.leb_spec 0 (len + idx)); [|lia].
    destruct (Z.ltb_spec (len + idx) len); [|lia].
    reflexivity.
Qed.

Lemma grid_map2M_shape {A B : Type} (f : A -> B -> option (vec F))
    (P : A -> Prop) (Q : B -> Prop) (k n : nat)
    (a : list (list A)) (b : list (list B)) (g : grid F) :
  (forall x y z, P x -> Q y -> f x y = Some z -> length z = k) ->
  length a = n ->
  Forall (fun row => length row = n /\ Forall P row) a ->
  Forall (Forall Q) b ->
  grid_map2M f a b = Some g ->
  has_shape k n n g.
Proof.
  intros Hf Hlen Hrows Hb Hg. unfold grid_map2M in Hg. split.
  - apply map2M_length in Hg. destruct Hg as [Hg _]. congruence.
  - eapply map2M_Forall_out; [|exact Hrows|exact Hb|exact Hg].
    intros ra rb rg [Hra HP] HQ Hrow. split.
    + apply map2M_length in Hrow. destruct Hrow as [Hrow _]. congruence.
    + eapply map2M_Forall_out; [|exact HP|exact HQ|exact Hrow].
      intros x y z Hx Hy Hz. eapply Hf; eauto.
Qed.

Lemma Forall_trivial {A : Type} (l : list A) : Forall (fun _ => True) l.
Proof. apply Forall_forall. auto. Qed.

(** An image that [render] returns has three channels and the resolution of
    the material, which is square. *)
Lemma render_returns_shape (scene : Scene F) (svbrdf image : grid F) :
  render scene svbrdf = Some image ->
  has_shape 3 (length svbrdf) (length svbrdf) image.
Proof.
  intros Hrender.
  destruct (Nat.eq_dec (length svbrdf) (length (hd [] svbrdf))) as [Hsq|Hsq].
  2:{ unfold render in Hrender.
      rewrite (surface_coordinates_non_square Hsq) in Hrender.
      discriminate. }
  unfold render in Hrender. rewrite <- Hsq in Hrender.
  destruct (surface_coordinates_square (F := F) (length svbrdf))
    as (coords & Hcoords & Hlen & Hshape).
  rewrite Hcoords in Hrender.
  eapply grid_map2M_shape
    with (P := fun c : vec F => length c = 3) (Q := fun _ => True);
    [|exact Hlen|exact Hshape| |exact Hrender].
  2:{ apply Forall_forall. intros row _. apply Forall_trivial. }
  intros c cell out Hc _ Hout.
  assert (Hcell : length cell = 12).
  { unfold render_cell, render_cell_factors, unpack_svbrdf in Hout.
    destruct (Nat.eqb (length cell) 12) eqn:E; [|discriminate].
    now apply Nat.eqb_eq. }
  destruct (render_cell_Some scene c cell Hc Hcell) as (radiance & Hr & Hl).
  rewrite Hr in Hout. injection Hout as <-. now rewrite length_map.
Qed.

Lemma has_shape_map (g : F -> F) (k h w : nat) (a : grid F) :
  has_shape k h w a -> has_shape k h w (map (map (map g)) a).
Proof.
  intros [Hlen Hrows]. split; [now rewrite length_map|].
  apply Forall_map. eapply Forall_impl; [|exact Hrows].
  intros row [Hrow Hcells]. split; [now rewrite length_map|].
  apply Forall_map. eapply Forall_impl; [|exact Hcells].
  intros cell Hcell. now rewrite length_map.
Qed.

Lemma for_each_appends {A : Type} (Q : grid F -> Prop)
    (body : list (grid F) -> A -> M F (list (grid F))) (l : list A) :
  (forall s x r s' r', body s x r = Some (s', r') ->
     exists g, s' = s ++ [g] /\ Q g) ->
  forall s r s' r', for_each l s body r = Some (s', r') ->
    exists generated,
      s' = s ++ generated /\ length generated = length l /\
      Forall Q generated.
Proof.
  intros Hbody. induction l as [|x l IH]; intros s r s' r' Hrun.
  - injection Hrun as <- <-. exists []. now rewrite app_nil_r.
  - simpl in Hrun. unfold bind in Hrun.
    destruct (body s x r) as [[s1 r1]|] eqn:Hstep; [|discriminate].
    destruct (Hbody _ _ _ _ _ Hstep) as (g & -> & Hg).
    destruct (IH _ _ _ _ Hrun) as (generated & -> & Hlen & Hall).
    exists (g :: generated). rewrite <- app_assoc. simpl.
    repeat split; auto.
Qed.

(** One turn of the loop appends one image: a clamped grid of three
    channels and of the resolution of the material. *)
Lemma generate_image_appends (svbrdf : grid F)
    (view_poses light_poses light_colors : list (vec F))
    (input_images : list (grid F)) (i : nat) (r : Rng F)
    (images : list (grid F)) (r' : Rng F) :
  generate_image torch_exp np_log svbrdf view_poses light_poses light_colors
                 input_images i r = Some (images, r') ->
  exists noisy,
    images = input_images ++ [map (map (map (fclamp zero one))) noisy] /\
    has_shape 3 (length svbrdf) (length svbrdf) noisy.
Proof.
  unfold generate_image, bind, lift, ret.
  destruct (and_then (nth_error view_poses i) position_of); [|discriminate].
  destruct (and_then (nth_error light_poses i) position_of); [|discriminate].
  destruct (and_then (nth_error light_colors i) position_of); [|discriminate].
  destruct (render _ svbrdf) as [rendering|] eqn:Hrender; [|discriminate].
  destruct (normal_ _ _ r) as [[log_std r1]|]; [|discriminate].
  destruct (noise_like rendering _ r1) as [[noise r2]|] eqn:Hnoise;
    [|discriminate].
  destruct (grid_map2M _ rendering noise) as [noisy|] eqn:Hnoisy;
    [|discriminate].
  intros H. injection H as <- _. exists noisy. split; [reflexivity|].
  destruct (render_returns_shape _ _ Hrender) as [Hlen Hshape].
  eapply grid_map2M_shape
    with (P := fun c : vec F => length c = 3)
         (Q := fun c : vec F => length c = 3);
    [|exact Hlen|exact Hshape| |exact Hnoisy].
  - intros a b z Ha Hb Hz. injection Hz as <-.
    rewrite length_vadd, Ha, Hb. reflexivity.
  - unfold noise_like, bind, ret in Hnoise.
    destruct (replicateM _ _ r1) as [[draws r3]|]; [|discriminate].
    injection Hnoise as <- _.
    apply Forall_map, Forall_forall. intros row _.
    apply Forall_map, Forall_forall. intros c _. reflexivity.
Qed.

Lemma getitem_generated (self : SvbrdfDataset) (idx : Z) (r r' : Rng F)
    (images : list (grid F)) (svbrdf : grid F) :
  getitem imread crop_square gamma_decode sampler torch_exp np_log self idx r
    = Some ((images, svbrdf), r') ->
  exists read generated r1,
    prepare_sample imread crop_square gamma_decode self idx r
      = Some ((read, svbrdf), r1) /\
    images = read ++ generated /\
    Z.of_nat (length generated)
    = Z.max 0 (used_input_image_count self - Z.of_nat (length read)) /\
    Forall (fun image =>
              has_shape 3 (length svbrdf) (length svbrdf) image /\
              exists noisy, image = map (map (map (fclamp zero one))) noisy)
           generated.
Proof.
  intros Hget. unfold getitem, bind in Hget.
  destruct (prepare_sample _ _ _ self idx r) as [[[read sv] r1]|] eqn:Hprep;
    [|discriminate].
  cbv zeta in Hget.
  destruct (generate_missing_images _ _ _ self sv read r1)
    as [[out r2]|] eqn:Hgen; [|discriminate].
  unfold ret in Hget. injection Hget as <- <- <-.
  exists read. unfold generate_missing_images in Hgen.
  destruct (Z.ltb_spec 0 (used_input_image_count self
                          - Z.of_nat (length read))) as [Hpos|Hneg].
  - unfold bind in Hgen.
    destruct (sample_scenes _ _ _ _ r1) as [[[[vp lp] lc] r3]|];
      [|discriminate].
    cbv zeta in Hgen.
    assert (Hbody : forall s x r s' r',
              generate_image torch_exp np_log sv vp lp lc s x r
                = Some (s', r') ->
              exists g, s' = s ++ [g] /\
                has_shape 3 (length sv) (length sv) g /\
                exists noisy, g = map (map (map (fclamp zero one))) noisy).
    { intros s x r0 s' r0' H.
      destruct (generate_image_appends _ _ _ _ _ _ _ H)
        as (noisy & -> & Hshape).
      eexists. split; [reflexivity|]. split; [|eauto].
      now apply has_shape_map. }
    destruct (@for_each_appends nat _ _ _ Hbody _ _ _ _ Hgen)
      as (generated & -> & Hlen & Hall).
    exists generated, r1. rewrite length_seq in Hlen.
    repeat split; auto. lia.
  - injection Hgen as <- <-. exists [], r1.
    rewrite app_nil_r. repeat split; auto. simpl. lia.
Qed.

End Items.

Section ItemsBinary32.

Import F32 F32Facts.

Variable imread : nat -> option (grid t).
Variable crop_square : grid t -> Z * Z -> Z -> grid t.
Variable gamma_decode : t -> t.
Variable sampler : nat -> t -> t -> M t (list (vec t)).
Variable torch_exp : t -> t.
Variable np_log : t -> t.

(** X20: an item holds the images read from the file, as [prepare_sample]
    left them, followed by the generated ones; together they are
    [used_input_image_count] images whenever fewer were read.  The material
    is the one of [prepare_sample], untouched by the generation; a generated
    image has three channels and the resolution of the material, and in
    binary32 each of its values lies in [0, 1], NaN apart. *)
Theorem getitem_generates_missing_images (self : SvbrdfDataset) (idx : Z)
    (r r' : Rng t) (images : list (grid t)) (svbrdf : grid t) :
  getitem imread crop_square gamma_decode sampler torch_exp np_log self idx r
    = Some ((images, svbrdf), r') ->
  exists read generated r1,
    prepare_sample imread crop_square gamma_decode self idx r
      = Some ((read, svbrdf), r1) /\
    images = read ++ generated /\
    Z.of_nat (length images)
    = Z.max (used_input_image_count self) (Z.of_nat (length read)) /\
    Forall (fun image =>
              has_shape 3 (length svbrdf) (length svbrdf) image /\
              values_in (fun v => is_nan v = true \/ in_unit v = true) image)
           generated.
Proof.
  intros Hget.
  destruct (getitem_generated _ _ _ _ _ _ _ _ _ Hget)
    as (read & generated & r1 & Hprep & -> & Hlen & Hall).
  exists read, generated, r1. repeat split; auto.
  - rewrite length_app. lia.
  - eapply Forall_impl; [|exact Hall].
    intros image (Hshape & noisy & ->). split; [exact Hshape|].
    unfold values_in.
    apply Forall_map, Forall_forall. intros row _.
    apply Forall_map, Forall_forall. intros cell _.
    apply Forall_map, Forall_forall. intros v _.
    apply clamp_unit.
Qed.

End ItemsBinary32.

Lemma getitem_generates_missing_images_witness :
  exists images svbrdf r',
    getitem (fun _ => Some Samples.file_1_image) Samples.keep_all (fun x => x)
            Samples.no_directions (fun x => x) (fun x => x)
            (Samples.dataset_1_image 3) 0 Samples.rng_one_half
      = Some ((images, svbrdf), r') /\
    exists read generated r1,
      prepare_sample (fun _ => Some Samples.file_1_image) Samples.keep_all
                     (fun x => x) (Samples.dataset_1_image 3) 0
                     Samples.rng_one_half
        = Some ((read, svbrdf), r1) /\
      images = read ++ generated /\
      Z.of_nat (length images) = Z.max 3 (Z.of_nat (length read)) /\
      Forall (fun image =>
                has_shape 3 (length svbrdf) (length svbrdf) image /\
                values_in (fun v => F32.is_nan v = true \/ F32.in_unit v = true)
                          image)
             generated.
Proof.
  destruct (getitem (fun _ => Some Samples.file_1_image) Samples.keep_all
              (fun x => x) Samples.no_directions (fun x => x) (fun x => x)
              (Samples.dataset_1_image 3) 0 Samples.rng_one_half)
    as [[[images svbrdf] r']|] eqn:Hget.
  - exists images, svbrdf, r'. split; [reflexivity|].
    exact (getitem_generates_missing_images _ _ _ _ _ _ _ _ _ Hget).
  - exfalso. vm_compute in Hget. discriminate.
Defined.

(** ** The sampled scenes *)

Section SampledScenes.

Import Exact.

Local Open Scope R_scope.

Lemma replicateM_returns {A : Type} (P : A -> Prop) (c : M R A) (n : nat) :
  (forall r, exists x r',
     c r = Some (x, r') /\ P x /\ uniform_source r' = uniform_source r) ->
  forall r, exists xs r',
    replicateM n c r = Some (xs, r') /\ length xs = n /\ Forall P xs /\
    uniform_source r' = uniform_source r.
Proof.
  intros Hc. induction n as [|n IH]; intros r.
  - exists [], r. repeat split; auto.
  - destruct (Hc r) as (x & r1 & Hx & HP & Hsrc).
    destruct (IH r1) as (xs & r2 & Hxs & Hlen & Hall & Hsrc').
    exists (x :: xs), r2. simpl. unfold bind, ret. rewrite Hx, Hxs.
    repeat split; auto; simpl; congruence.
Qed.

Lemma replicateM_uniform (lo hi : R) (n : nat) (r : Rng R) :
  lo <= hi -> raw_draws_in_unit r ->
  exists xs r',
    replicateM n (uniform_ lo hi) r = Some (xs, r') /\ length xs = n /\
    Forall (fun x => lo <= x <= hi) xs.
Proof.
  intros Hle. revert r. induction n as [|n IH]; intros r Hraw.
  - exists [], r. repeat split; auto.
  - destruct (IH (advance r) Hraw) as (xs & r' & Hxs & Hlen & Hall).
    eexists (_ :: xs), r'. simpl. unfold bind, ret, uniform_ at 1.
    rewrite Hxs. split; [reflexivity|]. split; [simpl; congruence|].
    constructor; [|exact Hall].
    cbn [funiform Exact.scalar]. apply uniform_range; auto.
Qed.

(** X21: with augmentation every view distance is drawn in [0.25, 2.75];
    without it every view distance is the fixed 2.75 and no random number is
    consumed. *)
Theorem sample_view_distance_range (aug : bool) (n : nat) (r : Rng R) :
  raw_draws_in_unit r ->
  exists view_distance r',
    sample_view_distance aug n r = Some (view_distance, r') /\
    length view_distance = n /\
    Forall (fun d => 25 / 100 <= d <= 275 / 100) view_distance /\
    (aug = false -> view_distance = repeat (275 / 100) n /\ r' = r).
Proof.
  intros Hraw. unfold sample_view_distance. destruct aug.
  - destruct (@replicateM_uniform (25 / 100) (275 / 100) n r)
      as (xs & r' & Hxs & Hlen & Hall); [lra|exact Hraw|].
    exists xs, r'. repeat split; auto; discriminate.
  - assert (Hfixed : fmul one (@fixed_view_distance R _) = 275 / 100).
    { unfold one, fixed_view_distance. cbn [lit fmul Exact.scalar].
      unfold literal. field. }
    rewrite Hfixed. exists (repeat (275 / 100) n), r.
    repeat split; auto.
    + apply repeat_length.
    + apply Forall_repeat. lra.
Qed.

Lemma sample_view_distance_range_witness :
  exists view_distance r',
    sample_view_distance true 3 (Samples.constant_rng (1/2))
      = Some (view_distance, r') /\
    length view_distance = 3%nat /\
    Forall (fun d => 25 / 100 <= d <= 275 / 100) view_distance /\
    (true = false ->
     view_distance = repeat (275 / 100) 3 /\
     r' = Samples.constant_rng (1/2)).
Proof.
  apply sample_view_distance_range. apply constant_rng_in_unit. lra.
Defined.

Variable torch_exp : R -> R.

Lemma normal_returns (mean std : R) (r : Rng R) :
  exists x r', normal_ mean std r = Some (x, r') /\ True /\
               uniform_source r' = uniform_source r.
Proof. unfold normal_. eauto. Qed.

Lemma expand_channels (draws : list R) :
  match map (fun v => [fabs v]) draws with
  | [c] => repeat (concat (repeat c 3)) (length draws)
  | _ => map (fun c => concat (repeat c 3)) (map (fun v => [fabs v]) draws)
  end
  = map (fun v => [Rabs v; Rabs v; Rabs v]) draws.
Proof.
  destruct draws as [|v [|w draws]]; try reflexivity.
  simpl. rewrite map_map. reflexivity.
Qed.

(** X22: without augmentation every light is white with the intensity 30 and
    no random number is consumed; with it the colours are random, but never
    negative: there are as many colours as images to generate, of three
    channels each. *)
Theorem sample_light_colors_range (aug : bool) (n : nat) (r : Rng R) :
  exists light_colors r',
    sample_light_colors torch_exp aug n r = Some (light_colors, r') /\
    length light_colors = n /\
    Forall (fun c => length c = 3%nat /\ Forall (fun v => 0 <= v) c)
           light_colors /\
    (aug = false -> light_colors = repeat [30; 30; 30] n /\ r' = r).
Proof.
  unfold sample_light_colors. destruct aug.
  - unfold bind, ret. unfold normal_ at 1.
    destruct (@replicateM_returns _ (fun _ => True)
                (normal_ (lit 20 1)
                   (torch_exp
                      (fadd (fmul (normal_source r (position r)) (lit 5 10))
                            (lit (-2) 1))))
                n (fun r0 => normal_returns _ _ r0) (advance r))
      as (draws & r1 & Hdraws & Hlen & _ & _).
    rewrite Hdraws.
    destruct (@replicateM_returns _ (fun w : list R => length w = 3%nat)
                (replicateM 3 (normal_ (lit 1 1) (lit 3 100))) n) with (r := r1)
      as (wb & r2 & Hwb & Hlenwb & Hall & _).
    { intros r0.
      destruct (@replicateM_returns _ (fun _ => True)
                  (normal_ (lit 1 1) (lit 3 100)) 3
                  (fun r0 => normal_returns _ _ r0) r0)
        as (w & r0' & Hw & Hlw & _ & Hsrc).
      exists w, r0'. auto. }
    rewrite Hwb. subst n. rewrite expand_channels.
    eexists _, r2. split; [reflexivity|].
    split; [|split; [|discriminate]].
    + rewrite length_map, length_combine, length_map. lia.
    + apply Forall_map, Forall_forall. intros [c w] Hin. cbn [fst snd].
      pose proof (in_combine_l _ _ _ _ Hin) as Hc.
      pose proof (in_combine_r _ _ _ _ Hin) as Hw.
      apply in_map_iff in Hc. destruct Hc as (v & <- & _).
      rewrite Forall_forall in Hall. specialize (Hall w Hw).
      destruct w as [|w1 [|w2 [|w3 [|? ?]]]]; try discriminate.
      unfold vmul. cbn [map bzip zip_with fabs fmul Exact.scalar length].
      split; [reflexivity|].
      repeat apply Forall_cons; try apply Forall_nil;
        apply Rmult_le_pos; apply Rabs_pos.
  - unfold bind, ret. cbn [concat repeat app].
    assert (Hcolor : lit 30 1 = 30 :> R)
      by (cbn [lit Exact.scalar]; unfold literal; field).
    rewrite Hcolor.
    exists (repeat [30; 30; 30] n), r. repeat split; auto.
    + apply repeat_length.
    + apply Forall_repeat. split; [reflexivity|]. repeat constructor; lra.
Qed.

End SampledScenes.

(** ** The mixer: what it keeps *)

Section MixerKeeps.

Import Exact.

Local Open Scope R_scope.

Lemma drawn_alpha_range (r : Rng R) :
  raw_draws_in_unit r -> 1 / 10 <= drawn_alpha r < 9 / 10.
Proof.
  intros Hraw. unfold drawn_alpha. cbn [funiform lit Exact.scalar].
  unfold literal. specialize (Hraw (position r)). lra.
Qed.

Lemma convex_between (lo hi alpha x y : R) :
  0 <= alpha <= 1 -> lo <= x <= hi -> lo <= y <= hi ->
  lo <= alpha * x + (literal 1 1 - alpha) * y <= hi.
Proof. intros Ha Hx Hy. unfold literal. nra. Qed.

Lemma mix_cell_between (lo hi alpha : R) (c0 c1 mixed : vec R) :
  0 <= alpha <= 1 ->
  mix_cell [alpha] c0 c1 = Some mixed ->
  Forall (fun v => lo <= v <= hi) (skipn 3 c0) ->
  Forall (fun v => lo <= v <= hi) (skipn 3 c1) ->
  Forall (fun v => lo <= v <= hi) (skipn 3 mixed).
Proof.
  intros Ha Hmix H0 H1. unfold mix_cell, unpack_svbrdf in Hmix.
  destruct (Nat.eqb (length c0) 12) eqn:Hl0; [|discriminate].
  destruct (Nat.eqb (length c1) 12) eqn:Hl1; [|discriminate].
  apply Nat.eqb_eq in Hl0, Hl1.
  do 13 (destruct c0 as [|? c0]; try discriminate).
  do 13 (destruct c1 as [|? c1]; try discriminate).
  unfold blend, project_normals, norm, pack_svbrdf in Hmix. simpl in Hmix.
  injection Hmix as <-. simpl in *.
  repeat match goal with
         | H : Forall _ (_ :: _) |- _ => inversion H; subst; clear H
         end.
  repeat apply Forall_cons; try apply Forall_nil;
    now apply convex_between.
Qed.


Lemma mix_flat_returns :
  mix [[Samples.flat_cell_exact]] [[Samples.flat_cell_exact]]
      (Samples.constant_rng (1/2))
  = Some ([[Samples.flat_cell_exact]], advance (Samples.constant_rng (1/2))).
Proof.
  unfold mix, bind, uniform_, lift, mix_with, grid_map2M.
  cbn [map2M]. now rewrite (mix_cell_same _ flat_cell_exact_unit).
Qed.


Lemma map2M_flip {A B C : Type} (f : A -> B -> option C)
    (g : B -> A -> option C) (a : list A) (b : list B) :
  (forall x y, f x y = g y x) -> map2M f a b = map2M g b a.
Proof.
  intros Hfg. revert b.
  induction a as [|x a IH]; intros [|y b]; simpl; try reflexivity.
  now rewrite Hfg, IH.
Qed.

Lemma mix_cell_symmetric (alpha : R) (c0 c1 : vec R) :
  mix_cell [1 - alpha] c1 c0 = mix_cell [alpha] c0 c1.
Proof.
  unfold mix_cell, unpack_svbrdf.
  destruct (Nat.eqb (length c0) 12) eqn:Hl0;
    destruct (Nat.eqb (length c1) 12) eqn:Hl1; try reflexivity.
  apply Nat.eqb_eq in Hl0, Hl1.
  do 13 (destruct c0 as [|? c0]; try discriminate).
  do 13 (destruct c1 as [|? c1]; try discriminate).
  unfold blend, project_normals, norm, pack_svbrdf. simpl.
  assert (Hb : forall x y,
            (1 - alpha) * y + (literal 1 1 - (1 - alpha)) * x
            = alpha * x + (literal 1 1 - alpha) * y)
    by (intros; unfold literal; field).
  now rewrite !Hb.
Qed.


Lemma mix_cell_upward (alpha : R) (c0 c1 : vec R) :
  0 < alpha < 1 ->
  length c0 = 12%nat -> length c1 = 12%nat ->
  0 < nth 2 c0 0 -> 0 < nth 2 c1 0 ->
  exists mixed, mix_cell [alpha] c0 c1 = Some mixed /\ 0 < nth 2 mixed 0.
Proof.
  intros Ha H0 H1 Hz0 Hz1.
  do 13 (destruct c0 as [|? c0]; try discriminate).
  do 13 (destruct c1 as [|? c1]; try discriminate).
  unfold mix_cell, norm, blend, project_normals. simpl in *.
  eexists. split; [reflexivity|]. simpl.
  rewrite sum_of_squares.
  pose proof (floor_positive r1) as Hc0.
  pose proof (floor_positive r13) as Hc1.
  assert (Hp0 : 0 < r1 / Rmax (literal 1 100) r1)
    by (now apply Rdiv_lt_0_compat).
  assert (Hp1 : 0 < r13 / Rmax (literal 1 100) r13)
    by (now apply Rdiv_lt_0_compat).
  set (p0 := r1 / Rmax (literal 1 100) r1) in *.
  set (p1 := r13 / Rmax (literal 1 100) r13) in *.
  assert (Hz : 0 < alpha * p0 + (literal 1 1 - alpha) * p1)
    by (unfold literal; nra).
  set (z := alpha * p0 + (literal 1 1 - alpha) * p1) in *.
  apply Rdiv_lt_0_compat; [exact Hz|].
  apply sqrt_lt_R0.
  match goal with
  | |- 0 < ?x * ?x + ?y * ?y + z * z =>
      pose proof (Rle_0_sqr x); pose proof (Rle_0_sqr y);
      assert (0 < z * z) by nra; unfold Rsqr in *; lra
  end.
Qed.

(** X25: two materials of one shape whose normals point away from the
    surface can always be mixed, and the normals of the mix point away from
    the surface as well. *)
Theorem mix_keeps_normals_upward (svbrdf_0 svbrdf_1 : grid R) (r : Rng R) :
  raw_draws_in_unit r ->
  grid_forall2 (fun c0 c1 =>
                  length c0 = 12%nat /\ length c1 = 12%nat /\
                  0 < nth 2 c0 0 /\ 0 < nth 2 c1 0)
               svbrdf_0 svbrdf_1 ->
  exists mixed,
    mix svbrdf_0 svbrdf_1 r = Some (mixed, advance r) /\
    Forall (Forall (fun c => 0 < nth 2 c 0)) mixed.
Proof.
  intros Hraw H.
  pose proof (drawn_alpha_range Hraw) as Ha.
  assert (Hm : exists mixed,
             mix_with (drawn_alpha r) svbrdf_0 svbrdf_1 = Some mixed /\
             Forall (Forall (fun c => 0 < nth 2 c 0)) mixed).
  { unfold mix_with, grid_map2M. apply map2M_Forall2.
    eapply Forall2_impl; [|exact H].
    intros row0 row1 Hrow. apply map2M_Forall2.
    eapply Forall2_impl; [|exact Hrow].
    intros c0 c1 (H0 & H1 & Hz0 & Hz1). apply mix_cell_upward; auto. lra. }
  destruct Hm as (mixed & Hm & Hu).
  exists mixed. split; [|exact Hu].
  unfold mix, bind, uniform_, lift. fold (drawn_alpha r). now rewrite Hm.
Qed.

Lemma mix_keeps_normals_upward_witness :
  exists mixed,
    mix [[Samples.flat_cell_exact]] [[Samples.flat_cell_exact]]
        (Samples.constant_rng (1/2))
      = Some (mixed, advance (Samples.constant_rng (1/2))) /\
    Forall (Forall (fun c => 0 < nth 2 c 0)) mixed.
Proof.
  apply mix_keeps_normals_upward.
  - apply constant_rng_in_unit. lra.
  - repeat constructor; simpl; lra.
Defined.

End MixerKeeps.

(** ** Mixing is for datasets without input images *)

Section MixingSwitchedOff.

Context {F : Type} {SF : Scalar F}.

Variable imread : nat -> option (grid F).
Variable crop_square : grid F -> Z * Z -> Z -> grid F.
Variable gamma_decode : F -> F.

(** X26: a dataset that is set up with input images never mixes, whatever
    was asked for: the material of a sample is the cropped material of its
    own file, no second file is read and no random number is drawn. *)
Theorem dataset_with_images_never_mixes (paths : list nat)
    (image_size input_image_count used_input_image_count : Z)
    (use_augmentation mixing no_svbrdf is_linear : bool)
    (idx : Z) (r r' : Rng F) (images : list (grid F)) (svbrdf : grid F) :
  (0 < input_image_count)%Z ->
  let self :=
    SvbrdfDataset_init paths image_size input_image_count
      used_input_image_count use_augmentation mixing no_svbrdf
      is_linear in
  prepare_sample imread crop_square gamma_decode self idx r
    = Some ((images, svbrdf), r') ->
  r' = r /\
  exists file_path read material,
    py_index paths idx = Some file_path /\
    read_sample imread self file_path = Some (read, material) /\
    svbrdf = crop_square material (0, 0)%Z image_size.
Proof.
  intros Hic self Hprep.
  assert (Hmix : mix_materials self = false).
  { unfold self, SvbrdfDataset_init. cbn [mix_materials].
    destruct (Z.ltb_spec 0 input_image_count) as [_|H]; [|lia].
    now destruct mixing. }
  unfold prepare_sample, bind, lift, ret in Hprep. rewrite Hmix in Hprep.
  change (file_paths self) with paths in Hprep.
  destruct (py_index paths idx) as [file_path|] eqn:Hidx; [|discriminate].
  destruct (read_sample imread self file_path) as [[read material]|] eqn:Hread;
    [|discriminate].
  injection Hprep as <- <- <-.
  split; [reflexivity|]. now exists file_path, read, material.
Qed.

End MixingSwitchedOff.

Lemma dataset_with_images_never_mixes_witness :
  exists images svbrdf r',
    prepare_sample (fun _ => Some Samples.file_3_images) Samples.keep_all
                   (fun x => x)
                   (SvbrdfDataset_init [0%nat] 1 3 1 false true false true)
                   0 Samples.rng_one_half
      = Some ((images, svbrdf), r') /\
    r' = Samples.rng_one_half /\
    exists file_path read material,
      py_index [0%nat] 0 = Some file_path /\
      read_sample (fun _ => Some Samples.file_3_images)
                  (SvbrdfDataset_init [0%nat] 1 3 1 false true false true)
                  file_path
        = Some (read, material) /\
      svbrdf = Samples.keep_all material (0, 0)%Z 1.
Proof.
  destruct (prepare_sample (fun _ => Some Samples.file_3_images)
              Samples.keep_all (fun x => x)
              (SvbrdfDataset_init [0%nat] 1 3 1 false true false true)
              0 Samples.rng_one_half)
    as [[[images svbrdf] r']|] eqn:Hprep.
  - exists images, svbrdf, r'. split; [reflexivity|].
    eapply dataset_with_images_never_mixes; [|exact Hprep]. lia.
  - exfalso. vm_compute in Hprep. discriminate.
Defined.

(** ** The generation returns *)

Section GenerationReturns.

Context {F : Type} {SF : Scalar F}.

Variable imread : nat -> option (grid F).
Variable crop_square : grid F -> Z * Z -> Z -> grid F.
Variable gamma_decode : F -> F.
Variable sampler : nat -> F -> F -> M F (list (vec F)).
Variable torch_exp : F -> F.
Variable np_log : F -> F.

Lemma replicateM_total {A : Type} (P : A -> Prop) (c : M F A) (n : nat) :
  (forall r, exists x r', c r = Some (x, r') /\ P x) ->
  forall r, exists xs r',
    replicateM n c r = Some (xs, r') /\ length xs = n /\ Forall P xs.
Proof.
  intros Hc. induction n as [|n IH]; intros r.
  - exists [], r. repeat split; auto.
  - destruct (Hc r) as (x & r1 & Hx & HP).
    destruct (IH r1) as (xs & r2 & Hxs & Hlen & Hall).
    exists (x :: xs), r2. simpl. unfold bind, ret. rewrite Hx, Hxs.
    repeat split; auto; try (simpl; congruence).
Qed.

Lemma uniform_total (lo hi : F) (r : Rng F) :
  exists x r', uniform_ lo hi r = Some (x, r') /\ True.
Proof. unfold uniform_. eauto. Qed.

Lemma normal_total (mean std : F) (r : Rng F) :
  exists x r', normal_ mean std r = Some (x, r') /\ True.
Proof. unfold normal_. eauto. Qed.

Lemma for_each_total {A S : Type} (body : S -> A -> M F S) (l : list A) :
  (forall s x r, In x l -> exists s' r', body s x r = Some (s', r')) ->
  forall s r, exists s' r', for_each l s body r = Some (s', r').
Proof.
  induction l as [|x l IH]; intros Hbody s r.
  - exists s, r. reflexivity.
  - destruct (Hbody s x r) as (s1 & r1 & Hstep); [now left|].
    destruct (IH (fun s x r H => Hbody s x r (or_intror H)) s1 r1)
      as (s' & r' & Hrun).
    exists s', r'. simpl. unfold bind. now rewrite Hstep.
Qed.

(** What is asked of the hemisphere sampler, which is not among the
    sources: it returns as many directions as it is asked for, of three
    components each. *)
Hypothesis sampler_directions : forall n lo hi r,
  exists directions r',
    sampler n lo hi r = Some (directions, r') /\
    length directions = n /\
    Forall (fun d => length d = 3) directions.

Lemma pair_of_draws (lo hi : F) (r : Rng F) :
  exists x y r', replicateM 2 (uniform_ lo hi) r = Some ([x; y], r').
Proof. simpl. unfold bind, ret, uniform_. eauto. Qed.

Lemma sample_light_poses_total (n : nat) (r : Rng F) :
  (0 < n)%nat ->
  exists light_poses r',
    sample_light_poses sampler n r = Some (light_poses, r') /\
    poses n light_poses.
Proof.
  intros Hn. unfold sample_light_poses, bind.
  destruct (pair_of_draws (lit (-75) 100) (lit 75 100) r)
    as (x & y & r1 & ->).
  destruct (Nat.ltb_spec 1 n) as [Hmore|Hone].
  - destruct (sampler_directions (n - 1) min_eps max_eps r1)
      as (ds & r2 & -> & Hlen & Hall).
    unfold ret. eexists _, r2. split; [reflexivity|]. split.
    + simpl. rewrite length_map. lia.
    + constructor; [reflexivity|].
      apply Forall_map. eapply Forall_impl; [|exact Hall].
      intros d Hd. now rewrite length_map.
  - unfold ret. eexists _, r1. split; [reflexivity|]. split.
    + simpl. lia.
    + repeat constructor.
Qed.

Lemma expand_colors (draws : list F) :
  match map (fun v => [fabs v]) draws with
  | [c] => repeat (concat (repeat c 3)) (length draws)
  | _ => map (fun c => concat (repeat c 3)) (map (fun v => [fabs v]) draws)
  end
  = map (fun v => [fabs v; fabs v; fabs v]) draws.
Proof.
  destruct draws as [|v [|w draws]]; try reflexivity.
  simpl. rewrite map_map. reflexivity.
Qed.

Lemma sample_light_colors_total (aug : bool) (n : nat) (r : Rng F) :
  exists light_colors r',
    sample_light_colors torch_exp aug n r = Some (light_colors, r') /\
    poses n light_colors.
Proof.
  unfold sample_light_colors. destruct aug.
  - unfold bind, ret. unfold normal_ at 1.
    destruct (@replicateM_total _ (fun _ => True)
                (normal_ (lit 20 1)
                   (torch_exp
                      (fadd (fmul (normal_source r (position r)) (lit 5 10))
                            (lit (-2) 1))))
                n (fun r0 => normal_total _ _ r0) (advance r))
      as (draws & r1 & Hdraws & Hlen & _).
    rewrite Hdraws.
    destruct (@replicateM_total _ (fun w : list F => length w = 3)
                (replicateM 3 (normal_ (lit 1 1) (lit 3 100))) n) with (r := r1)
      as (wb & r2 & Hwb & Hlenwb & Hall).
    { intros r0.
      destruct (@replicateM_total _ (fun _ => True)
                  (normal_ (lit 1 1) (lit 3 100)) 3
                  (fun r0 => normal_total _ _ r0) r0)
        as (w & r0' & Hw & Hlw & _).
      exists w, r0'. auto. }
    rewrite Hwb. subst n. rewrite expand_colors.
    eexists _, r2. split; [reflexivity|]. split.
    + rewrite length_map, length_combine, length_map. lia.
    + apply Forall_map, Forall_forall. intros [c w] Hin. cbn [fst snd].
      pose proof (in_combine_l _ _ _ _ Hin) as Hc.
      pose proof (in_combine_r _ _ _ _ Hin) as Hw.
      apply in_map_iff in Hc. destruct Hc as (v & <- & _).
      rewrite Forall_forall in Hall. specialize (Hall w Hw).
      rewrite length_vmul, length_map, Hall. reflexivity.
  - unfold bind, ret. cbn [concat repeat app].
    eexists _, r. split; [reflexivity|]. split.
    + apply repeat_length.
    + now apply Forall_repeat.
Qed.

Lemma sample_view_distance_total (aug : bool) (n : nat) (r : Rng F) :
  exists view_distance r',
    sample_view_distance aug n r = Some (view_distance, r') /\
    length view_distance = n.
Proof.
  unfold sample_view_distance. destruct aug.
  - destruct (@replicateM_total _ (fun _ => True)
                (uniform_ (lit 25 100) (lit 275 100)) n
                (fun r0 => uniform_total _ _ r0) r)
      as (xs & r' & Hxs & Hlen & _).
    eauto.
  - unfold ret. eexists _, r. split; [reflexivity|]. apply repeat_length.
Qed.

Lemma sample_view_poses_total (view_distance : list F) (n : nat) (r : Rng F) :
  (0 < n)%nat -> length view_distance = n ->
  exists view_poses r',
    sample_view_poses sampler view_distance n r = Some (view_poses, r') /\
    poses n view_poses.
Proof.
  intros Hn Hvd. unfold sample_view_poses, bind.
  destruct (pair_of_draws (lit (-25) 100) (lit 25 100) r)
    as (x & y & r1 & ->).
  destruct view_distance as [|z vd]; [simpl in Hvd; lia|].
  cbn [firstn skipn app].
  destruct (Nat.ltb_spec 1 n) as [Hmore|Hone].
  - destruct (sampler_directions (n - 1) min_eps max_eps r1)
      as (ds & r2 & -> & Hlen & Hall).
    unfold ret. eexists _, r2. split; [reflexivity|]. split.
    + simpl in *. rewrite length_map, length_combine. lia.
    + constructor; [reflexivity|].
      apply Forall_map, Forall_forall. intros [d v] Hin. cbn [fst snd].
      pose proof (in_combine_l _ _ _ _ Hin) as Hd.
      rewrite Forall_forall in Hall.
      rewrite length_vmul, (Hall d Hd). reflexivity.
  - unfold ret. eexists _, r1. split; [reflexivity|]. split.
    + simpl in *. lia.
    + repeat constructor.
Qed.

Lemma pose_at (n i : nat) (l : list (vec F)) :
  poses n l -> (i < n)%nat ->
  exists p, and_then (nth_error l i) position_of = Some p.
Proof.
  intros [Hlen Hall] Hi.
  destruct (nth_error l i) as [v|] eqn:Hv.
  - rewrite Forall_forall in Hall.
    specialize (Hall v (nth_error_In _ _ Hv)).
    destruct v as [|x [|y [|z [|? ?]]]]; try discriminate.
    simpl. eauto.
  - apply nth_error_None in Hv. lia.
Qed.

Lemma noise_like_total (rendering : grid F) (std : F) (r : Rng F) (k : nat) :
  has_shape 3 k k rendering ->
  exists noise r',
    noise_like rendering std r = Some (noise, r') /\
    length noise = k /\
    Forall (fun row => length row = k /\ Forall (fun c => length c = 3) row)
           noise.
Proof.
  intros Hshape. destruct (has_shape_width Hshape) as [Hh Hw].
  unfold noise_like, bind, ret, width. rewrite Hh, Hw.
  destruct (@replicateM_total _ (fun _ => True) (normal_ zero std)
              (3 * k * k) (fun r0 => normal_total _ _ r0) r)
    as (draws & r' & -> & _).
  eexists _, r'. split; [reflexivity|]. split.
  - now rewrite length_map, length_seq.
  - apply Forall_map, Forall_forall. intros i _. split.
    + now rewrite length_map, length_seq.
    + apply Forall_map, Forall_forall. intros j _. reflexivity.
Qed.

Lemma generate_image_total (svbrdf : grid F) (k n i : nat)
    (view_poses light_poses light_colors : list (vec F))
    (input_images : list (grid F)) (r : Rng F) :
  has_shape 12 k k svbrdf ->
  poses n view_poses -> poses n light_poses -> poses n light_colors ->
  (i < n)%nat ->
  exists images r',
    generate_image torch_exp np_log svbrdf view_poses light_poses light_colors
                   input_images i r = Some (images, r').
Proof.
  intros Hshape Hvp Hlp Hlc Hi. unfold generate_image, bind, lift, ret.
  destruct (pose_at Hvp Hi) as (view & ->).
  destruct (pose_at Hlp Hi) as (lpos & ->).
  destruct (pose_at Hlc Hi) as (lcol & ->).
  set (scene := {| camera := {| camera_pos := view |};
                   light := {| light_pos := lpos; light_color := lcol |} |}).
  destruct (@render_Some _ _ (fun out => length out = 3) scene k svbrdf Hshape)
    as (rendering & Hrender & Hlen & Hrows).
  { intros coords cell Hc Hcell.
    destruct (render_cell_Some scene coords cell Hc Hcell)
      as (radiance & Hr & Hl).
    eexists. split; [exact Hr|]. now rewrite length_map. }
  rewrite Hrender. unfold normal_ at 1.
  destruct (@noise_like_total rendering
              (torch_exp (fadd (fmul (normal_source r (position r)) (lit 3 10))
                               (np_log (lit 5 1000))))
              (advance r) k (conj Hlen Hrows))
    as (noise & r2 & -> & Hnl & Hnrows).
  destruct (@map2M_Some _ _ _
              (map2M (fun a b : vec F => Some (vadd a b)))
              (fun row => length row = k) (fun row => length row = k)
              (fun _ => True) rendering noise)
    as (noisy & Hnoisy & _).
  - intros ra rb Hra Hrb.
    destruct (@map2M_Some _ _ _ (fun a b : vec F => Some (vadd a b))
                (fun _ => True) (fun _ => True) (fun _ => True) ra rb)
      as (row & Hrow & _); eauto; try congruence;
      apply Forall_forall; auto.
  - eapply Forall_impl; [|exact Hrows]. now intros row [H _].
  - eapply Forall_impl; [|exact Hnrows]. now intros row [H _].
  - congruence.
  - unfold grid_map2M. rewrite Hnoisy. eauto.
Qed.

Lemma generate_missing_images_total (self : SvbrdfDataset) (svbrdf : grid F)
    (input_images : list (grid F)) (r : Rng F) (k : nat) :
  has_shape 12 k k svbrdf ->
  exists images r',
    generate_missing_images sampler torch_exp np_log self svbrdf input_images r
    = Some (images, r').
Proof.
  intros Hshape. unfold generate_missing_images.
  set (g := (used_input_image_count self - Z.of_nat (length input_images))%Z).
  destruct (Z.ltb_spec 0 g) as [Hpos|Hneg]; [|unfold ret; eauto].
  assert (Hn : (0 < Z.to_nat g)%nat) by lia.
  unfold bind, sample_scenes. unfold bind.
  destruct (sample_light_poses_total r Hn) as (lp & r1 & -> & Hlp).
  destruct (sample_light_colors_total (use_augmentation self) (Z.to_nat g) r1)
    as (lc & r2 & -> & Hlc).
  destruct (sample_view_distance_total (use_augmentation self) (Z.to_nat g) r2)
    as (vd & r3 & -> & Hvd).
  destruct (@sample_view_poses_total vd (Z.to_nat g) r3 Hn Hvd)
    as (vp & r4 & -> & Hvp).
  unfold ret. cbv zeta.
  apply for_each_total. intros s i r0 Hin. apply in_seq in Hin.
  eapply generate_image_total; eauto. lia.
Qed.


End GenerationReturns.

Lemma no_directions_returns (n : nat) (lo hi : F32.t) (r : Rng F32.t) :
  exists directions r',
    Samples.no_directions n lo hi r = Some (directions, r') /\
    length directions = n /\
    Forall (fun d => length d = 3) directions.
Proof.
  unfold Samples.no_directions, ret. eexists _, r.
  split; [reflexivity|]. split; [apply repeat_length|].
  now apply Forall_repeat.
Qed.


(** ** Where the floors do not reach, in binary32 *)

Section UnguardedBinary32.

Import F32 F32Facts.

Lemma ggx_at_zero (a nh : t) :
  is_zero nh = true ->
  fdiv (fmul a (fmul (fgt nh zero) one))
       (fmul pi_const
             (fpow (fclamp_min (lit 1 1000)
                      (fmul (fpow nh 2)
                            (fadd a (fdiv (fsub one (fpow nh 2))
                                          (fpow nh 2)))))
                   2))
  = S754_nan.
Proof.
  intros Hz. destruct nh as [s| | |]; try discriminate.
  destruct s; destruct a as [sa|sa| |sa m e]; try destruct sa; reflexivity.
Qed.

(** X28: where the half vector lies in the plane of the surface (NH = 0)
    the distribution term is NaN in binary32, for every roughness: the floor
    of 0.001 is applied after the division by NH^2, too late to guard
    it. *)
Theorem compute_microfacet_distribution_at_zero (r0 r1 r2 nh : t) :
  is_zero nh = true ->
  compute_microfacet_distribution [r0; r1; r2] [nh]
  = [S754_nan; S754_nan; S754_nan].
Proof.
  intros Hz.
  unfold compute_microfacet_distribution, denominator_part, xi, vdiv, vmul,
    vadd.
  cbn [map bzip zip_with].
  now rewrite !(ggx_at_zero _ nh Hz).
Qed.

Lemma compute_microfacet_distribution_at_zero_witness :
  compute_microfacet_distribution
    [literal 1 2; literal 1 2; literal 1 2] [literal 0 1]
  = [S754_nan; S754_nan; S754_nan].
Proof. apply compute_microfacet_distribution_at_zero. reflexivity. Defined.

(** X29: the null vector cannot be normalised: in binary32 [normalize]
    divides 0 by 0 and returns NaN in every component, whatever the signs of
    the zeros. *)
Theorem normalize_null (x y z : t) :
  is_zero x = true -> is_zero y = true -> is_zero z = true ->
  normalize [x; y; z] = [S754_nan; S754_nan; S754_nan].
Proof.
  intros Hx Hy Hz.
  destruct x as [sx| | |]; try discriminate.
  destruct y as [sy| | |]; try discriminate.
  destruct z as [sz| | |]; try discriminate.
  destruct sx, sy, sz; reflexivity.
Qed.

Lemma normalize_null_witness :
  normalize [literal 0 1; literal 0 1; literal 0 1]
  = [S754_nan; S754_nan; S754_nan].
Proof. apply normalize_null; reflexivity. Defined.

End UnguardedBinary32.
